(** * monaco-definition-provider: regex scanners and definition resolution

    A shallow embedding of
      - [src/analyzers/python.ts]      (module [PythonAnalyzer]),
      - [src/analyzers/typescript.ts]  (module [TypeScriptAnalyzer]),
      - [src/DefinitionProvider.ts]    (module [DefinitionProvider]),
      - [src/types.ts]                 (the records of module [Types]),
    together with the part of the JavaScript runtime these files rely on
    (module [JS]: strings as sequences of UTF-16 code units, the
    backtracking semantics of regular expressions, [exec], [split],
    [trim], [indexOf]). *)

From Stdlib Require Import ZArith NArith List Lia Bool String Ascii.
From stdpp Require Import base option list gmap strings.

Set Default Proof Using "Type".
Open Scope Z_scope.

(* ===================================================================== *)
(** * The JavaScript runtime used by the analyzers                        *)
(* ===================================================================== *)

Module JS.

(** A JavaScript string is a sequence of UTF-16 code units. *)
Definition char := N.
Definition jsstring := list char.

(** String literals of the development, written in ASCII. *)
Definition js (s : string) : jsstring :=
  List.map N_of_ascii (list_ascii_of_string s).

Definition ch (a : ascii) : char := N_of_ascii a.

(** ** Character classes *)

(** [\n], [\r], U+2028 and U+2029. *)
Definition is_line_terminator (c : char) : bool :=
  ((c =? 10) || (c =? 13) || (c =? 8232) || (c =? 8233))%N.

(** [\s]: WhiteSpace and LineTerminator of ECMA-262. *)
Definition is_space (c : char) : bool :=
  (((9 <=? c) && (c <=? 13)) || (c =? 32) || (c =? 160) || (c =? 5760)
   || ((8192 <=? c) && (c <=? 8202)) || (c =? 8232) || (c =? 8233)
   || (c =? 8239) || (c =? 8287) || (c =? 12288) || (c =? 65279))%N.

(** [\w]: [[A-Za-z0-9_]]. *)
Definition is_word (c : char) : bool :=
  (((48 <=? c) && (c <=? 57)) || ((65 <=? c) && (c <=? 90)) || (c =? 95)
   || ((97 <=? c) && (c <=? 122)))%N.

Definition is_char (a : ascii) (c : char) : bool := (c =? ch a)%N.
Definition not_char (a : ascii) (c : char) : bool := negb (c =? ch a)%N.

(** ** Plain string operations *)

Definition jsstring_eqb (s t : jsstring) : bool := bool_decide (s = t).

(** [s.substring(a, b)] for [a <= b]. *)
Definition substring (a b : nat) (s : jsstring) : jsstring :=
  firstn (b - a) (skipn a s).

(** [s.substring(a)]. *)
Definition substring_from (a : nat) (s : jsstring) : jsstring := skipn a s.

Fixpoint is_prefix (p s : jsstring) : bool :=
  match p, s with
  | [], _ => true
  | a :: p', b :: s' => (a =? b)%N && is_prefix p' s'
  | _ :: _, [] => false
  end.

(** [s.startsWith(p)]. *)
Definition startsWith (p s : jsstring) : bool := is_prefix p s.

(** [s.indexOf(p)]: the first index at which [p] occurs, [-1] when it does
    not occur. *)
Fixpoint indexOf_from (i : nat) (p s : jsstring) : Z :=
  if is_prefix p s then Z.of_nat i
  else match s with
       | [] => -1
       | _ :: s' => indexOf_from (S i) p s'
       end.

Definition indexOf (p s : jsstring) : Z := indexOf_from 0 p s.

(** [s.includes(p)]. *)
Definition includes (p s : jsstring) : bool := 0 <=? indexOf p s.

(** [s.split(sep)] for a separator of one code unit: never empty. *)
Fixpoint split (sep : char) (s : jsstring) : list jsstring :=
  match s with
  | [] => [[]]
  | c :: s' =>
      if (c =? sep)%N then [] :: split sep s'
      else match split sep s' with
           | [] => [[c]]
           | l :: ls => (c :: l) :: ls
           end
  end.

(** [s.trim()]. *)
Fixpoint trimStart (s : jsstring) : jsstring :=
  match s with
  | c :: s' => if is_space c then trimStart s' else s
  | [] => []
  end.

Definition trimEnd (s : jsstring) : jsstring := rev (trimStart (rev s)).
Definition trim (s : jsstring) : jsstring := trimEnd (trimStart s).

(** [a.pop()] on a non-empty array returns its last element. *)
Definition pop (l : list jsstring) : option jsstring := last l.

(** Truthiness of a string or [null]/[undefined]: the empty string, [null]
    and [undefined] are falsy. *)
Definition truthy (o : option jsstring) : bool :=
  match o with
  | Some (_ :: _) => true
  | _ => false
  end.

(** [a || b] on strings. *)
Definition or_else (a : option jsstring) (b : option jsstring) : option jsstring :=
  if truthy a then a else b.

(** ** Regular expressions *)

(** The pattern syntax used by the two analyzers. A character class, a
    literal code unit and [.] are all [Chr] with the predicate they stand
    for; [r+] is [Plus r]. *)
Inductive regex : Type :=
| Eps
| Chr (p : char -> bool)
| Seq (r1 r2 : regex)
| Alt (r1 r2 : regex)
| Star (r : regex)
| Opt (r : regex)
| Group (n : nat) (r : regex)
| Bol
| Eol
| WordB.

Definition Plus (r : regex) : regex := Seq r (Star r).

(** A literal string, as when the pattern source contains the (word)
    characters themselves. *)
Fixpoint Lit (s : jsstring) : regex :=
  match s with
  | [] => Eps
  | c :: s' => Seq (Chr (N.eqb c)) (Lit s')
  end.

Definition Dot : regex := Chr (fun c => negb (is_line_terminator c)).

(** The match state of ECMA-262: the end index reached and the captures
    made so far (the most recent first). *)
Record MState : Type := mkState {
  endIndex : nat;
  captures : list (nat * (nat * nat))
}.

Definition Continuation : Type := MState -> option MState.

Fixpoint capture (n : nat) (caps : list (nat * (nat * nat))) : option (nat * nat) :=
  match caps with
  | [] => None
  | (k, v) :: caps' => if (k =? n)%nat then Some v else capture n caps'
  end.

Section Matcher.
Variable input : jsstring.
Variable multiline : bool.

Definition char_at (i : nat) : option char := nth_error input i.

(** The assertion [^]. *)
Definition at_bol (e : nat) : bool :=
  match e with
  | O => true
  | S e' => multiline &&
            match char_at e' with
            | Some c => is_line_terminator c
            | None => false
            end
  end.

(** The assertion [$]. *)
Definition at_eol (e : nat) : bool :=
  match char_at e with
  | None => true
  | Some c => multiline && is_line_terminator c
  end.

Definition is_word_at (i : nat) : bool :=
  match char_at i with
  | Some c => is_word c
  | None => false
  end.

(** The assertion [\b]. *)
Definition at_word_boundary (e : nat) : bool :=
  let a := match e with O => false | S e' => is_word_at e' end in
  let b := is_word_at e in
  xorb a b.

(** RepeatMatcher with [min = 0], [max = infinity], greedy: an iteration
    that consumes nothing is rejected. Every accepted iteration consumes
    a code unit, so [S (length input - endIndex x)] iterations are never
    exhausted. *)
Fixpoint repeat (fuel : nat) (m : MState -> Continuation -> option MState)
         (x : MState) (c : Continuation) : option MState :=
  match fuel with
  | O => c x
  | S fuel' =>
      match m x (fun y => if (endIndex y =? endIndex x)%nat then None
                          else repeat fuel' m y c) with
      | Some z => Some z
      | None => c x
      end
  end.

(** The backtracking matcher of a pattern, in continuation-passing style
    as in ECMA-262: alternatives are tried left to right, quantifiers are
    greedy. *)
Fixpoint matcher (r : regex) (x : MState) (c : Continuation) : option MState :=
  match r with
  | Eps => c x
  | Chr p =>
      match char_at (endIndex x) with
      | Some a => if p a then c (mkState (S (endIndex x)) (captures x)) else None
      | None => None
      end
  | Seq r1 r2 => matcher r1 x (fun y => matcher r2 y c)
  | Alt r1 r2 =>
      match matcher r1 x c with
      | Some z => Some z
      | None => matcher r2 x c
      end
  | Star r1 => repeat (S (length input - endIndex x)) (matcher r1) x c
  | Opt r1 =>
      match matcher r1 x (fun y => if (endIndex y =? endIndex x)%nat then None
                                   else c y) with
      | Some z => Some z
      | None => c x
      end
  | Group n r1 =>
      matcher r1 x (fun y =>
        c (mkState (endIndex y) ((n, (endIndex x, endIndex y)) :: captures y)))
  | Bol => if at_bol (endIndex x) then c x else None
  | Eol => if at_eol (endIndex x) then c x else None
  | WordB => if at_word_boundary (endIndex x) then c x else None
  end.

Variable r : regex.

(** The match of [r] that starts exactly at index [i]. *)
Definition match_at (i : nat) : option MState :=
  matcher r (mkState i []) Some.

(** RegExpBuiltinExec: the first index from [i] on at which [r] matches;
    [fuel] is the number of further indices to try. *)
Fixpoint search (fuel : nat) (i : nat) : option (nat * MState) :=
  match match_at i with
  | Some y => Some (i, y)
  | None =>
      match fuel with
      | O => None
      | S fuel' => search fuel' (S i)
      end
  end.

End Matcher.

(** A regular expression object: a pattern and its [m] flag. *)
Record RegExp : Type := mkRegExp {
  pattern : regex;
  multiline : bool
}.

(** The result array of [exec]: [index], the whole match at [0] and the
    capture groups; a group that did not take part is [undefined]. *)
Record RegExpMatch : Type := mkMatch {
  index : nat;
  lastIndex : nat;
  group : nat -> option jsstring
}.

Definition mk_match (input : jsstring) (i : nat) (y : MState) : RegExpMatch :=
  mkMatch i (endIndex y)
    (fun n => match n with
              | O => Some (substring i (endIndex y) input)
              | _ => match capture n (captures y) with
                     | Some (a, b) => Some (substring a b input)
                     | None => None
                     end
              end).

(** [re.exec(input)] with [re.lastIndex = from]. *)
Definition exec_from (re : RegExp) (input : jsstring) (from : nat) : option RegExpMatch :=
  if (length input <? from)%nat then None
  else match search input (multiline re) (pattern re) (length input - from) from with
       | Some (i, y) => Some (mk_match input i y)
       | None => None
       end.

(** [re.exec(input)] on a fresh regular expression; also [input.match(re)]
    for a [re] without the [g] flag. *)
Definition exec (re : RegExp) (input : jsstring) : option RegExpMatch :=
  exec_from re input 0.

(** [re.test(input)]. *)
Definition test (re : RegExp) (input : jsstring) : bool :=
  match exec re input with Some _ => true | None => false end.

(** The matches that the loop
    [while ((match = regex.exec(source)) !== null)] sees, in order, for a
    regular expression with the [g] flag: each [exec] resumes at the
    [lastIndex] left by the previous one. *)
Fixpoint exec_loop (fuel : nat) (re : RegExp) (input : jsstring) (from : nat)
  : list RegExpMatch :=
  match fuel with
  | O => []
  | S fuel' =>
      match exec_from re input from with
      | None => []
      | Some m => m :: exec_loop fuel' re input (lastIndex m)
      end
  end.

(** Every pattern of the analyzers consumes at least one code unit per
    match (lemma [exec_all_fuel] below), so a loop over [input] makes at
    most [length input] iterations. *)
Definition exec_all (re : RegExp) (input : jsstring) : list RegExpMatch :=
  exec_loop (S (length input)) re input 0.

(** [s.split(re)] (without capture groups in [re]). *)
Fixpoint split_loop (fuel : nat) (re : RegExp) (s : jsstring) (p q : nat)
  : list jsstring :=
  match fuel with
  | O => [substring_from p s]
  | S fuel' =>
      if (q <? length s)%nat then
        match match_at s (multiline re) (pattern re) q with
        | None => split_loop fuel' re s p (S q)
        | Some y =>
            let e := Nat.min (endIndex y) (length s) in
            if (e =? p)%nat then split_loop fuel' re s p (S q)
            else substring p q s :: split_loop fuel' re s e e
        end
      else [substring_from p s]
  end.

Definition split_re (re : RegExp) (s : jsstring) : list jsstring :=
  match s with
  | [] => match match_at s (multiline re) (pattern re) 0 with
          | Some _ => []
          | None => [s]
          end
  | _ => split_loop (length s) re s 0 0
  end.

(** [match[n]] where the group is known to take part in every match; the
    analyzers read [.length] of it or use it as a string. *)
Definition grp (m : RegExpMatch) (n : nat) : jsstring :=
  match group m n with
  | Some s => s
  | None => []
  end.

End JS.

(* ===================================================================== *)
(** * [src/types.ts]                                                      *)
(* ===================================================================== *)

Module Types.
Import JS.

(** [SymbolKind]. *)
Inductive SymbolKind : Type :=
| function | class | method | variable | parameter | import | module.

Global Instance SymbolKind_eq_dec : EqDecision SymbolKind.
Proof. solve_decision. Defined.

(** [SymbolDefinition]; JavaScript numbers are integers here. *)
Record SymbolDefinition : Type := mkDef {
  name : jsstring;
  startLine : Z;
  startColumn : Z;
  endLine : Z;
  endColumn : Z;
  kind : SymbolKind
}.

(** The [range] of a [DefinitionResult], and the four arguments handed to
    [new monaco.Range(...)]. *)
Record Range : Type := mkRange {
  startLineNumber : Z;
  rangeStartColumn : Z;
  endLineNumber : Z;
  rangeEndColumn : Z
}.

(** [DefinitionResult]. *)
Record DefinitionResult : Type := mkResult {
  uri : jsstring;
  range : Range
}.

(** [LanguageAnalyzer]. *)
Record LanguageAnalyzer : Type := mkAnalyzer {
  findDefinitions : jsstring -> list SymbolDefinition;
  getSymbolAtPosition : jsstring -> Z -> Z -> option jsstring;
  getImportPath : jsstring -> jsstring -> option jsstring
}.

End Types.

(* ===================================================================== *)
(** * Code shared verbatim by the two analyzers                           *)
(* ===================================================================== *)

Module Common.
Import JS Types.

(** The patterns are written with [cat] in the order of their source,
    which is quoted above each (with a blank between a star and a closing
    parenthesis, and [\x22] for the double quote). *)
Definition cat (l : list regex) : regex := foldr Seq Eps l.

Definition ws : regex := Chr is_space.
Definition w : regex := Chr is_word.
Definition word_or_dot (c : char) : bool := is_word c || is_char "." c.
Definition kw (s : string) : regex := Lit (js s).
Definition lit (a : ascii) : regex := Chr (is_char a).
(** [['\x22]]: a single or a double quote (written [\x22] in the patterns
    quoted below). *)
Definition quote (c : char) : bool := is_char "'" c || is_char "034" c.

Definition NL : char := 10%N.

(** [array.push(x)]. *)
Definition push {A} (l : list A) (x : A) : list A := l ++ [x].

(** [getLineColumn(source, index)], identical in both classes. *)
Definition getLineColumn (source : jsstring) (index : nat) : Z * Z :=
  let before := substring 0 index source in
  let lines := split NL before in
  (Z.of_nat (length lines),
   Z.of_nat (match last lines with Some l => length l | None => 0%nat end) + 1).

(** [lines[line - 1]?.length || 1]. *)
Definition line_length_or_1 (lines : list jsstring) (line : Z) : Z :=
  match (if 1 <=? line then nth_error lines (Z.to_nat (line - 1)) else None) with
  | Some l => if (length l =? 0)%nat then 1 else Z.of_nat (length l)
  | None => 1
  end.

(** [/^\w+$/] *)
Definition WORD_ONLY : RegExp := mkRegExp (cat [Bol; Plus w; Eol]) false.
(** [/\s+as\s+/] *)
Definition AS_SEP : RegExp := mkRegExp (cat [Plus ws; kw "as"; Plus ws]) false.
(** [/(\w* )$/] *)
Definition WORD_BEFORE : RegExp := mkRegExp (cat [Group 1 (Star w); Eol]) false.
(** [/^(\w* )/] *)
Definition WORD_AFTER : RegExp := mkRegExp (cat [Bol; Group 1 (Star w)]) false.

(** The body of the loop over the items of an import list, identical in
    [findImports] of both classes:
      [const parts = imp.trim().split(/\s+as\s+/);]
      [const name = (parts[1] || parts[0]).trim();]
      [if (name && /^\w+$/.test(name)) definitions.push({...})] *)
Definition import_item (lines : list jsstring) (line : Z)
           (definitions : list SymbolDefinition) (imp : jsstring)
  : list SymbolDefinition :=
  let parts := split_re AS_SEP (trim imp) in
  let name := trim (default [] (or_else (nth_error parts 1) (nth_error parts 0))) in
  if truthy (Some name) && test WORD_ONLY name then
    push definitions
      (mkDef name line 1 line (line_length_or_1 lines line) import)
  else definitions.

(** [getSymbolAtPosition(source, line, column)], identical in both
    classes. *)
Definition getSymbolAtPosition (source : jsstring) (line column : Z)
  : option jsstring :=
  let lines := split NL source in
  if (line <? 1) || (Z.of_nat (length lines) <? line) then None
  else
    let lineText := nth (Z.to_nat (line - 1)) lines [] in
    if (column <? 1) || (Z.of_nat (length lineText) + 1 <? column) then None
    else
      let beforeCursor := substring 0 (Z.to_nat (column - 1)) lineText in
      let afterCursor := substring_from (Z.to_nat (column - 1)) lineText in
      let beforeMatch := exec WORD_BEFORE beforeCursor in
      let afterMatch := exec WORD_AFTER afterCursor in
      match beforeMatch, afterMatch with
      | None, None => None
      | _, _ =>
          let part (m : option RegExpMatch) : jsstring :=
            default [] (or_else (m ≫= fun m => group m 1) (Some [])) in
          let word := part beforeMatch ++ part afterMatch in
          if truthy (Some word) then Some word else None
      end.

End Common.

(* ===================================================================== *)
(** * [src/analyzers/python.ts]                                           *)
(* ===================================================================== *)

Module PythonAnalyzer.
Import JS Types Common.

(** [/^(\s* )def\s+(\w+)\s*\(/gm] *)
Definition FUNCTION_DEF : RegExp :=
  mkRegExp (cat [Bol; Group 1 (Star ws); kw "def"; Plus ws; Group 2 (Plus w);
                 Star ws; lit "("]) true.

(** [/^(\s* )class\s+(\w+)\s*[:(]/gm] *)
Definition CLASS_DEF : RegExp :=
  mkRegExp (cat [Bol; Group 1 (Star ws); kw "class"; Plus ws; Group 2 (Plus w);
                 Star ws; Chr (fun c => is_char ":" c || is_char "(" c)]) true.

(** [/^(\s* )(\w+)\s*(?::\s*\w+)?\s*=/gm] *)
Definition VARIABLE_ASSIGNMENT : RegExp :=
  mkRegExp (cat [Bol; Group 1 (Star ws); Group 2 (Plus w); Star ws;
                 Opt (cat [lit ":"; Star ws; Plus w]); Star ws; lit "="]) true.

(** [/^from\s+([\w.]+)\s+import\s+(.+)$/gm] *)
Definition IMPORT_FROM : RegExp :=
  mkRegExp (cat [Bol; kw "from"; Plus ws; Group 1 (Plus (Chr word_or_dot));
                 Plus ws; kw "import"; Plus ws; Group 2 (Plus Dot); Eol]) true.

(** [/^import\s+([\w.]+)(?:\s+as\s+(\w+))?$/gm] *)
Definition IMPORT_SIMPLE : RegExp :=
  mkRegExp (cat [Bol; kw "import"; Plus ws; Group 1 (Plus (Chr word_or_dot));
                 Opt (cat [Plus ws; kw "as"; Plus ws; Group 2 (Plus w)]);
                 Eol]) true.

(** [/\(([^)]* )\)/] *)
Definition PARAM_LIST : RegExp :=
  mkRegExp (cat [lit "("; Group 1 (Star (Chr (not_char ")"))); lit ")"]) false.

(** [/[=:]/] *)
Definition EQ_OR_COLON : RegExp :=
  mkRegExp (Chr (fun c => is_char "=" c || is_char ":" c)) false.

(** The body of [for (const param of params)] in [findParameters]; the
    loop state is [colOffset] and the [definitions] array. *)
Definition parameter_step (funcLine : Z) (st : Z * list SymbolDefinition)
           (param : jsstring) : Z * list SymbolDefinition :=
  let '(colOffset, definitions) := st in
  let trimmed := trim param in
  if negb (truthy (Some trimmed)) || jsstring_eqb trimmed (js "self")
     || jsstring_eqb trimmed (js "cls")
  then st (* continue *)
  else
    let paramName := trim (nth 0 (split_re EQ_OR_COLON trimmed) []) in
    let definitions' :=
      if truthy (Some paramName) && test WORD_ONLY paramName then
        let paramStart := colOffset + indexOf paramName param + 1 in
        push definitions
          (mkDef paramName funcLine paramStart funcLine
                 (paramStart + Z.of_nat (length paramName)) parameter)
      else definitions in
    (colOffset + Z.of_nat (length param) + 1, definitions').

Definition findParameters (funcDef : jsstring) (funcLine : Z)
           (definitions : list SymbolDefinition) : list SymbolDefinition :=
  match exec PARAM_LIST funcDef with
  | None => definitions
  | Some paramMatch =>
      let paramString := grp paramMatch 1 in
      let params := split (ch ",") paramString in
      let colOffset := indexOf (js "(") funcDef + 1 in
      snd (fold_left (parameter_step funcLine) params (colOffset, definitions))
  end.

Definition function_step (source : jsstring)
           (definitions : list SymbolDefinition) (m : RegExpMatch)
  : list SymbolDefinition :=
  let name := grp m 2 in
  let nameStart := (index m + length (grp m 1) + 4)%nat in
  let namePosition := getLineColumn source nameStart in
  let definitions :=
    push definitions
      (mkDef name (fst namePosition) (snd namePosition) (fst namePosition)
             (snd namePosition + Z.of_nat (length name)) function) in
  findParameters (grp m 0) (fst namePosition) definitions.

Definition findFunctions (source : jsstring) (lines : list jsstring)
           (definitions : list SymbolDefinition) : list SymbolDefinition :=
  fold_left (function_step source) (exec_all FUNCTION_DEF source) definitions.

Definition class_step (source : jsstring)
           (definitions : list SymbolDefinition) (m : RegExpMatch)
  : list SymbolDefinition :=
  let name := grp m 2 in
  let nameStart := (index m + length (grp m 1) + 6)%nat in
  let namePosition := getLineColumn source nameStart in
  push definitions
    (mkDef name (fst namePosition) (snd namePosition) (fst namePosition)
           (snd namePosition + Z.of_nat (length name)) class).

Definition findClasses (source : jsstring) (lines : list jsstring)
           (definitions : list SymbolDefinition) : list SymbolDefinition :=
  fold_left (class_step source) (exec_all CLASS_DEF source) definitions.

(** The key [`${indent.length}:${name}`] of [seenNames]: the decimal
    length has no colon, so the string determines the pair. *)
Definition seen_key : Type := nat * jsstring.

(** The body of the loop of [findVariables]; the loop state is the set
    [seenNames] and the [definitions] array. *)
Definition variable_step (source : jsstring)
           (st : gset seen_key * list SymbolDefinition) (m : RegExpMatch)
  : gset seen_key * list SymbolDefinition :=
  let '(seenNames, definitions) := st in
  let indent := grp m 1 in
  let name := grp m 2 in
  if (4 <? length indent)%nat then st
  else
    let key := (length indent, name) in
    if bool_decide (key ∈ seenNames) then st
    else
      let seenNames := seenNames ∪ {[ key ]} in
      if startsWith (js "_") name && negb (jsstring_eqb name (js "_"))
      then (seenNames, definitions)
      else
        let nameStart := (index m + length indent)%nat in
        let namePosition := getLineColumn source nameStart in
        (seenNames,
         push definitions
           (mkDef name (fst namePosition) (snd namePosition) (fst namePosition)
                  (snd namePosition + Z.of_nat (length name)) variable)).

Definition findVariables (source : jsstring) (lines : list jsstring)
           (definitions : list SymbolDefinition) : list SymbolDefinition :=
  snd (fold_left (variable_step source) (exec_all VARIABLE_ASSIGNMENT source)
                 (∅, definitions)).

Definition import_from_step (source : jsstring) (lines : list jsstring)
           (definitions : list SymbolDefinition) (m : RegExpMatch)
  : list SymbolDefinition :=
  let importList := grp m 2 in
  let position := getLineColumn source (index m) in
  let imports := split (ch ",") importList in
  fold_left (import_item lines (fst position)) imports definitions.

Definition import_simple_step (source : jsstring) (lines : list jsstring)
           (definitions : list SymbolDefinition) (m : RegExpMatch)
  : list SymbolDefinition :=
  let moduleName :=
    default []
      (or_else (or_else (group m 2) (pop (split (ch ".") (grp m 1))))
               (group m 1)) in
  let position := getLineColumn source (index m) in
  push definitions
    (mkDef moduleName (fst position) 1 (fst position)
           (line_length_or_1 lines (fst position)) import).

Definition findImports (source : jsstring) (lines : list jsstring)
           (definitions : list SymbolDefinition) : list SymbolDefinition :=
  let definitions :=
    fold_left (import_from_step source lines) (exec_all IMPORT_FROM source)
              definitions in
  fold_left (import_simple_step source lines) (exec_all IMPORT_SIMPLE source)
            definitions.

Definition findDefinitions (source : jsstring) : list SymbolDefinition :=
  let definitions := [] in
  let lines := split NL source in
  let definitions := findFunctions source lines definitions in
  let definitions := findClasses source lines definitions in
  let definitions := findVariables source lines definitions in
  let definitions := findImports source lines definitions in
  definitions.

Definition getSymbolAtPosition := Common.getSymbolAtPosition.

(** The three patterns of [getImportPath]. [symbolName] is spliced into
    the pattern source; for a name of word characters, which is all that
    [getSymbolAtPosition] returns, the spliced text is the literal name.

    [^from\s+([\w.]+)\s+import\s+.*\b${symbolName}\b] *)
Definition fromPattern (symbolName : jsstring) : RegExp :=
  mkRegExp (cat [Bol; kw "from"; Plus ws; Group 1 (Plus (Chr word_or_dot));
                 Plus ws; kw "import"; Plus ws; Star Dot; WordB;
                 Lit symbolName; WordB]) true.

(** [^import\s+([\w.]+)\s+as\s+${symbolName}\b] *)
Definition asPattern (symbolName : jsstring) : RegExp :=
  mkRegExp (cat [Bol; kw "import"; Plus ws; Group 1 (Plus (Chr word_or_dot));
                 Plus ws; kw "as"; Plus ws; Lit symbolName; WordB]) true.

(** [^import\s+((?:[\w.]*\.)?${symbolName})(?:\s|$)] *)
Definition directPattern (symbolName : jsstring) : RegExp :=
  mkRegExp (cat [Bol; kw "import"; Plus ws;
                 Group 1 (cat [Opt (cat [Star (Chr word_or_dot); lit "."]);
                               Lit symbolName]);
                 Alt ws Eol]) true.

Definition getImportPath (source symbolName : jsstring) : option jsstring :=
  match exec (fromPattern symbolName) source with
  | Some m => group m 1
  | None =>
      match exec (asPattern symbolName) source with
      | Some m => group m 1
      | None =>
          match exec (directPattern symbolName) source with
          | Some m => group m 1
          | None => None
          end
      end
  end.

Definition analyzer : LanguageAnalyzer :=
  mkAnalyzer findDefinitions getSymbolAtPosition getImportPath.

End PythonAnalyzer.

(* ===================================================================== *)
(** * [src/analyzers/typescript.ts]                                       *)
(* ===================================================================== *)

Module TypeScriptAnalyzer.
Import JS Types Common.

Definition export_opt : regex := Opt (cat [kw "export"; Plus ws]).
Definition const_let_var : regex := Alt (kw "const") (Alt (kw "let") (kw "var")).
(** [['\x22]([^'\x22]+)['\x22]] with the group numbered [n]. *)
Definition quoted (n : nat) : regex :=
  cat [Chr quote; Group n (Plus (Chr (fun c => negb (quote c)))); Chr quote].
(** [(?::\s*[^=]+)?] *)
Definition annotation_opt : regex :=
  Opt (cat [lit ":"; Star ws; Plus (Chr (not_char "="))]).

(** [/^(\s* )(?:export\s+)?(?:async\s+)?function\s+(\w+)\s*[<(]/gm] *)
Definition FUNCTION_DECL : RegExp :=
  mkRegExp (cat [Bol; Group 1 (Star ws); export_opt;
                 Opt (cat [kw "async"; Plus ws]); kw "function"; Plus ws;
                 Group 2 (Plus w); Star ws;
                 Chr (fun c => is_char "<" c || is_char "(" c)]) true.

(** [/^(\s* )(?:export\s+)?(?:const|let|var)\s+(\w+)\s*(?::\s*[^=]+)?\s*=\s*(?:async\s+)?(?:\([^)]*\)|[\w]+)\s*=>/gm] *)
Definition ARROW_FUNCTION : RegExp :=
  mkRegExp (cat [Bol; Group 1 (Star ws); export_opt; const_let_var; Plus ws;
                 Group 2 (Plus w); Star ws; annotation_opt; Star ws; lit "=";
                 Star ws; Opt (cat [kw "async"; Plus ws]);
                 Alt (cat [lit "("; Star (Chr (not_char ")")); lit ")"])
                     (Plus w);
                 Star ws; kw "=>"]) true.

(** [/^(\s* )(?:export\s+)?(?:abstract\s+)?class\s+(\w+)/gm] *)
Definition CLASS_DECL : RegExp :=
  mkRegExp (cat [Bol; Group 1 (Star ws); export_opt;
                 Opt (cat [kw "abstract"; Plus ws]); kw "class"; Plus ws;
                 Group 2 (Plus w)]) true.

(** [/^(\s* )(?:export\s+)?interface\s+(\w+)/gm] *)
Definition INTERFACE_DECL : RegExp :=
  mkRegExp (cat [Bol; Group 1 (Star ws); export_opt; kw "interface"; Plus ws;
                 Group 2 (Plus w)]) true.

(** [/^(\s* )(?:export\s+)?type\s+(\w+)/gm] *)
Definition TYPE_DECL : RegExp :=
  mkRegExp (cat [Bol; Group 1 (Star ws); export_opt; kw "type"; Plus ws;
                 Group 2 (Plus w)]) true.

(** [/^(\s* )(?:export\s+)?(?:const|let|var)\s+(\w+)\s*(?::\s*[^=]+)?\s*=/gm] *)
Definition VARIABLE_DECL : RegExp :=
  mkRegExp (cat [Bol; Group 1 (Star ws); export_opt; const_let_var; Plus ws;
                 Group 2 (Plus w); Star ws; annotation_opt; Star ws; lit "="])
           true.

(** [/^import\s+\{([^}]+)\}\s+from\s+['\x22]([^'\x22]+)['\x22]/gm] *)
Definition IMPORT_NAMED : RegExp :=
  mkRegExp (cat [Bol; kw "import"; Plus ws; lit "{";
                 Group 1 (Plus (Chr (not_char "}"))); lit "}"; Plus ws;
                 kw "from"; Plus ws; quoted 2]) true.

(** [/^import\s+(\w+)\s+from\s+['\x22]([^'\x22]+)['\x22]/gm] *)
Definition IMPORT_DEFAULT : RegExp :=
  mkRegExp (cat [Bol; kw "import"; Plus ws; Group 1 (Plus w); Plus ws;
                 kw "from"; Plus ws; quoted 2]) true.

(** [/^import\s+\*\s+as\s+(\w+)\s+from\s+['\x22]([^'\x22]+)['\x22]/gm] *)
Definition IMPORT_NAMESPACE : RegExp :=
  mkRegExp (cat [Bol; kw "import"; Plus ws; lit "*"; Plus ws; kw "as"; Plus ws;
                 Group 1 (Plus w); Plus ws; kw "from"; Plus ws; quoted 2]) true.

(** The loop body shared by [findFunctions], [findArrowFunctions],
    [findClasses], [findInterfaces] and [findTypes], which differ in the
    pattern and in the [kind] only. *)
Definition declaration_step (k : SymbolKind) (source : jsstring)
           (definitions : list SymbolDefinition) (m : RegExpMatch)
  : list SymbolDefinition :=
  let name := grp m 2 in
  let position := getLineColumn source (index m) in
  let nameIndex := indexOf name (grp m 0) in
  push definitions
    (mkDef name (fst position) (nameIndex + 1) (fst position)
           (nameIndex + 1 + Z.of_nat (length name)) k).

Definition findFunctions (source : jsstring) (lines : list jsstring)
           (definitions : list SymbolDefinition) : list SymbolDefinition :=
  fold_left (declaration_step function source) (exec_all FUNCTION_DECL source)
            definitions.

Definition findArrowFunctions (source : jsstring) (lines : list jsstring)
           (definitions : list SymbolDefinition) : list SymbolDefinition :=
  fold_left (declaration_step function source) (exec_all ARROW_FUNCTION source)
            definitions.

Definition findClasses (source : jsstring) (lines : list jsstring)
           (definitions : list SymbolDefinition) : list SymbolDefinition :=
  fold_left (declaration_step class source) (exec_all CLASS_DECL source)
            definitions.

Definition findInterfaces (source : jsstring) (lines : list jsstring)
           (definitions : list SymbolDefinition) : list SymbolDefinition :=
  fold_left (declaration_step class source) (exec_all INTERFACE_DECL source)
            definitions.

Definition findTypes (source : jsstring) (lines : list jsstring)
           (definitions : list SymbolDefinition) : list SymbolDefinition :=
  fold_left (declaration_step class source) (exec_all TYPE_DECL source)
            definitions.

Definition seen_key : Type := nat * jsstring.

(** The body of the loop of [findVariables]; the loop state is the set
    [seenNames] and the [definitions] array. *)
Definition variable_step (source : jsstring)
           (st : gset seen_key * list SymbolDefinition) (m : RegExpMatch)
  : gset seen_key * list SymbolDefinition :=
  let '(seenNames, definitions) := st in
  let indent := grp m 1 in
  let name := grp m 2 in
  if includes (js "=>") (grp m 0) then st
  else if (4 <? length indent)%nat then st
  else
    let key := (length indent, name) in
    if bool_decide (key ∈ seenNames) then st
    else
      (seenNames ∪ {[ key ]},
       declaration_step variable source definitions m).

Definition findVariables (source : jsstring) (lines : list jsstring)
           (definitions : list SymbolDefinition) : list SymbolDefinition :=
  snd (fold_left (variable_step source) (exec_all VARIABLE_DECL source)
                 (∅, definitions)).

Definition import_named_step (source : jsstring) (lines : list jsstring)
           (definitions : list SymbolDefinition) (m : RegExpMatch)
  : list SymbolDefinition :=
  let importList := grp m 1 in
  let position := getLineColumn source (index m) in
  let imports := split (ch ",") importList in
  fold_left (import_item lines (fst position)) imports definitions.

(** The loop body of the default and of the namespace imports. *)
Definition import_single_step (source : jsstring) (lines : list jsstring)
           (definitions : list SymbolDefinition) (m : RegExpMatch)
  : list SymbolDefinition :=
  let name := grp m 1 in
  let position := getLineColumn source (index m) in
  push definitions
    (mkDef name (fst position) 1 (fst position)
           (line_length_or_1 lines (fst position)) import).

Definition findImports (source : jsstring) (lines : list jsstring)
           (definitions : list SymbolDefinition) : list SymbolDefinition :=
  let definitions :=
    fold_left (import_named_step source lines) (exec_all IMPORT_NAMED source)
              definitions in
  let definitions :=
    fold_left (import_single_step source lines) (exec_all IMPORT_DEFAULT source)
              definitions in
  fold_left (import_single_step source lines) (exec_all IMPORT_NAMESPACE source)
            definitions.

Definition findDefinitions (source : jsstring) : list SymbolDefinition :=
  let definitions := [] in
  let lines := split NL source in
  let definitions := findFunctions source lines definitions in
  let definitions := findArrowFunctions source lines definitions in
  let definitions := findClasses source lines definitions in
  let definitions := findInterfaces source lines definitions in
  let definitions := findTypes source lines definitions in
  let definitions := findVariables source lines definitions in
  let definitions := findImports source lines definitions in
  definitions.

Definition getSymbolAtPosition := Common.getSymbolAtPosition.

(** The three patterns of [getImportPath]; as in the Python analyzer the
    spliced [symbolName] is a literal for a name of word characters.

    [^import\s+\{[^}]*\b${symbolName}\b[^}]*\}\s+from\s+['\x22]([^'\x22]+)['\x22]] *)
Definition namedPattern (symbolName : jsstring) : RegExp :=
  mkRegExp (cat [Bol; kw "import"; Plus ws; lit "{";
                 Star (Chr (not_char "}")); WordB; Lit symbolName; WordB;
                 Star (Chr (not_char "}")); lit "}"; Plus ws; kw "from";
                 Plus ws; quoted 1]) true.

(** [^import\s+${symbolName}\s+from\s+['\x22]([^'\x22]+)['\x22]] *)
Definition defaultPattern (symbolName : jsstring) : RegExp :=
  mkRegExp (cat [Bol; kw "import"; Plus ws; Lit symbolName; Plus ws;
                 kw "from"; Plus ws; quoted 1]) true.

(** [^import\s+\*\s+as\s+${symbolName}\s+from\s+['\x22]([^'\x22]+)['\x22]] *)
Definition namespacePattern (symbolName : jsstring) : RegExp :=
  mkRegExp (cat [Bol; kw "import"; Plus ws; lit "*"; Plus ws; kw "as"; Plus ws;
                 Lit symbolName; Plus ws; kw "from"; Plus ws; quoted 1]) true.

Definition getImportPath (source symbolName : jsstring) : option jsstring :=
  match exec (namedPattern symbolName) source with
  | Some m => group m 1
  | None =>
      match exec (defaultPattern symbolName) source with
      | Some m => group m 1
      | None =>
          match exec (namespacePattern symbolName) source with
          | Some m => group m 1
          | None => None
          end
      end
  end.

Definition analyzer : LanguageAnalyzer :=
  mkAnalyzer findDefinitions getSymbolAtPosition getImportPath.

End TypeScriptAnalyzer.

(* ===================================================================== *)
(** * [src/DefinitionProvider.ts]                                         *)
(* ===================================================================== *)

Module DefinitionProvider.
Import JS Types.

(** A JavaScript exception value. *)
Definition Error : Type := jsstring.

(** How an evaluation ends: with a value, or by throwing. For the [async]
    method [provideDefinition] these are the fulfilment and the rejection
    of the promise it returns. *)
Inductive Completion (A : Type) : Type :=
| Normal (a : A)
| Throw (e : Error).
Arguments Normal {A} a.
Arguments Throw {A} e.

(** [ExternalNavigationCallback]: the outcome of awaiting the promise the
    callback returns (a callback that throws synchronously rejects as
    well, both are caught by the same [try]). *)
Definition ExternalNavigationCallback : Type :=
  jsstring -> jsstring -> jsstring -> Completion (option DefinitionResult).

(** [DefinitionProviderOptions]. *)
Record DefinitionProviderOptions : Type := mkOptions {
  onExternalNavigation : option ExternalNavigationCallback;
  includeBuiltins : option bool
}.

(** The handle [monaco.languages.registerDefinitionProvider] returns; its
    [dispose()] is the editor's, recorded as the event [MonacoDispose]. *)
Record IDisposable : Type := mkDisposable {
  registeredLanguage : jsstring
}.

(** What the provider does to its environment, in order. *)
Inductive Event : Type :=
| CallGetSymbolAtPosition (source : jsstring) (line column : Z)
| CallFindDefinitions (source : jsstring)
| CallGetImportPath (source symbolName : jsstring)
| CallExternalNavigation (symbolName importPath currentUri : jsstring)
| ConsoleError (error : Error)
| MonacoRegister (languageId : jsstring)
| MonacoDispose (d : IDisposable).

(** Computations that log events and may throw. *)
Definition M (A : Type) : Type := list Event * Completion A.

Definition ret {A} (a : A) : M A := ([], Normal a).
Definition throw {A} (e : Error) : M A := ([], Throw e).
Definition tell (ev : Event) : M unit := ([ev], Normal tt).
Definition bind {A B} (m : M A) (k : A -> M B) : M B :=
  match m with
  | (t, Normal a) => let '(t', r) := k a in (t ++ t', r)
  | (t, Throw e) => (t, Throw e)
  end.
(** [try { m } catch (error) { h error }]. *)
Definition try_catch {A} (m : M A) (h : Error -> M A) : M A :=
  match m with
  | (t, Normal a) => (t, Normal a)
  | (t, Throw e) => let '(t', r) := h e in (t ++ t', r)
  end.

Global Instance M_ret : MRet M := @ret.
Global Instance M_bind : MBind M := fun A B k m => bind m k.

(** The state of a [DefinitionProvider] object. *)
Record DefinitionProvider : Type := mkProvider {
  options : DefinitionProviderOptions;
  analyzers : gmap jsstring LanguageAnalyzer;
  disposables : list IDisposable
}.

(** [constructor(options = {})]. *)
Definition new (options : DefinitionProviderOptions) : DefinitionProvider :=
  mkProvider options
    (<[js "javascript" := TypeScriptAnalyzer.analyzer]>
       (<[js "typescript" := TypeScriptAnalyzer.analyzer]>
          (<[js "python" := PythonAnalyzer.analyzer]> ∅)))
    [].

(** [register(languageId)]. *)
Definition register (self : DefinitionProvider) (languageId : jsstring)
  : M (DefinitionProvider * IDisposable) :=
  _ ← tell (MonacoRegister languageId);
  let disposable := mkDisposable languageId in
  ret (mkProvider (options self) (analyzers self)
                  (Common.push (disposables self) disposable),
       disposable).

(** [registerAnalyzer(languageId, analyzer)]. *)
Definition registerAnalyzer (self : DefinitionProvider) (languageId : jsstring)
           (analyzer : LanguageAnalyzer) : DefinitionProvider :=
  mkProvider (options self) (<[languageId := analyzer]> (analyzers self))
             (disposables self).

(** [monaco.editor.ITextModel], as far as the provider reads it. *)
Record ITextModel : Type := mkModel {
  getLanguageId : jsstring;
  getValue : jsstring;
  model_uri : jsstring
}.

(** [monaco.Position]. *)
Record Position : Type := mkPosition {
  lineNumber : Z;
  column : Z
}.

(** [monaco.CancellationToken]. The synchronous part of a call runs to
    completion before anything else does, so [isCancellationRequested] has
    one value throughout it: the first field, which is what the check
    before [findDefinitions] reads and what still holds when the
    collaborator is invoked. The second field is the value once the
    [await] of the collaborator has resumed. *)
Record CancellationToken : Type := mkToken {
  isCancellationRequested : bool;
  isCancellationRequested_after_await : bool
}.

(** [monaco.languages.Location]. *)
Record Location : Type := mkLocation {
  location_uri : jsstring;
  location_range : Range
}.

(** [Array.prototype.find]. *)
Definition find_def (p : SymbolDefinition -> bool) (l : list SymbolDefinition)
  : option SymbolDefinition := List.find p l.

(** [findMatchingDefinition(definitions, symbolName)]. *)
Definition findMatchingDefinition (definitions : list SymbolDefinition)
           (symbolName : jsstring) : option SymbolDefinition :=
  let nonImportDef :=
    find_def (fun d => jsstring_eqb (name d) symbolName
                       && negb (bool_decide (kind d = import))) definitions in
  match nonImportDef with
  | Some d => Some d
  | None => find_def (fun d => jsstring_eqb (name d) symbolName) definitions
  end.

(** [provideDefinition(model, position, token)]. *)
Definition provideDefinition (self : DefinitionProvider) (model : ITextModel)
           (position : Position) (token : CancellationToken)
  : M (option Location) :=
  let languageId := getLanguageId model in
  match analyzers self !! languageId with
  | None => ret None
  | Some analyzer =>
      let source := getValue model in
      _ ← tell (CallGetSymbolAtPosition source (lineNumber position)
                                        (column position));
      let symbolName :=
        getSymbolAtPosition analyzer source (lineNumber position)
                            (column position) in
      if negb (truthy symbolName) then ret None
      else
        let symbolName := default [] symbolName in
        (* Check for cancellation *)
        if isCancellationRequested token then ret None
        else
          (* Find definitions in the current document *)
          _ ← tell (CallFindDefinitions source);
          let definitions := findDefinitions analyzer source in
          match findMatchingDefinition definitions symbolName with
          | Some localDefinition =>
              ret (Some (mkLocation (model_uri model)
                           (mkRange (startLine localDefinition)
                                    (startColumn localDefinition)
                                    (endLine localDefinition)
                                    (endColumn localDefinition))))
          | None =>
              (* Check if it's an imported symbol *)
              _ ← tell (CallGetImportPath source symbolName);
              let importPath := getImportPath analyzer source symbolName in
              match (if truthy importPath then onExternalNavigation (options self)
                     else None) with
              | None => ret None
              | Some callback =>
                  let importPath := default [] importPath in
                  returned ← try_catch
                    (_ ← tell (CallExternalNavigation symbolName importPath
                                                      (model_uri model));
                     externalDef ← ([], callback symbolName importPath
                                                 (model_uri model));
                     match externalDef with
                     | Some externalDef =>
                         if negb (isCancellationRequested_after_await token)
                         then ret (Some (mkLocation (uri externalDef)
                                                    (range externalDef)))
                         else ret None
                     | None => ret None
                     end)
                    (fun error => _ ← tell (ConsoleError error); ret None);
                  match returned with
                  | Some location => ret (Some location)
                  | None => ret None
                  end
              end
          end
  end.

(** [dispose()]. *)
Definition dispose (self : DefinitionProvider) : M DefinitionProvider :=
  _ ← fold_left (fun (m : M unit) d => _ ← m; tell (MonacoDispose d))
                (disposables self) (ret tt);
  ret (mkProvider (options self) ∅ []).

(** [createDefinitionProvider(languages, options = {})]. *)
Definition createDefinitionProvider (languages : list jsstring)
           (options : DefinitionProviderOptions) : M DefinitionProvider :=
  fold_left (fun (m : M DefinitionProvider) lang =>
               provider ← m; r ← register provider lang; ret (fst r))
            languages (ret (new options)).

End DefinitionProvider.

(* ===================================================================== *)
(** * Vocabulary of the statements                                        *)
(* ===================================================================== *)

Module Spec.
Import JS Types Common DefinitionProvider.

(** ** Declarative reading of a pattern

    [Matches input m r x y]: the pattern [r] can take the match state [x]
    to the match state [y] on [input]. Unlike [matcher] it has no
    priorities and no continuation. *)
Section Matches.
Variable input : jsstring.
Variable multiline : bool.

Inductive Matches : regex -> MState -> MState -> Prop :=
| M_Eps x : Matches Eps x x
| M_Chr p x a :
    char_at input (endIndex x) = Some a -> p a = true ->
    Matches (Chr p) x (mkState (S (endIndex x)) (captures x))
| M_Seq r1 r2 x y z :
    Matches r1 x y -> Matches r2 y z -> Matches (Seq r1 r2) x z
| M_AltL r1 r2 x y : Matches r1 x y -> Matches (Alt r1 r2) x y
| M_AltR r1 r2 x y : Matches r2 x y -> Matches (Alt r1 r2) x y
| M_Star0 r x : Matches (Star r) x x
| M_StarS r x y z :
    Matches r x y -> endIndex y <> endIndex x -> Matches (Star r) y z ->
    Matches (Star r) x z
| M_Opt0 r x : Matches (Opt r) x x
| M_OptS r x y :
    Matches r x y -> endIndex y <> endIndex x -> Matches (Opt r) x y
| M_Group n r x y :
    Matches r x y ->
    Matches (Group n r) x
            (mkState (endIndex y) ((n, (endIndex x, endIndex y)) :: captures y))
| M_Bol x : at_bol input multiline (endIndex x) = true -> Matches Bol x x
| M_Eol x : at_eol input multiline (endIndex x) = true -> Matches Eol x x
| M_WordB x :
    at_word_boundary input (endIndex x) = true -> Matches WordB x x.
End Matches.

(** The pattern can take the text from index [a] to index [b], whatever
    the captures. *)
Definition Spans (input : jsstring) (multiline : bool) (r : regex) (a b : nat)
  : Prop :=
  exists x y, Matches input multiline r x y /\ endIndex x = a /\ endIndex y = b.

(** The least number of code units a match of the pattern consumes. *)
Fixpoint min_len (r : regex) : nat :=
  match r with
  | Chr _ => 1
  | Seq r1 r2 => min_len r1 + min_len r2
  | Alt r1 r2 => Nat.min (min_len r1) (min_len r2)
  | Group _ r1 => min_len r1
  | _ => 0
  end.

(** Every code unit the pattern consumes satisfies [Q]. *)
Fixpoint consumes_only (Q : char -> Prop) (r : regex) : Prop :=
  match r with
  | Chr p => forall a, p a = true -> Q a
  | Seq r1 r2 | Alt r1 r2 => consumes_only Q r1 /\ consumes_only Q r2
  | Star r1 | Opt r1 | Group _ r1 => consumes_only Q r1
  | _ => True
  end.

(** The pattern has no capture group. *)
Fixpoint no_groups (r : regex) : Prop :=
  match r with
  | Group _ _ => False
  | Seq r1 r2 | Alt r1 r2 => no_groups r1 /\ no_groups r2
  | Star r1 | Opt r1 => no_groups r1
  | _ => True
  end.

(** Two continuations that agree on the states a match can reach from
    index [lo] of [input]. *)
Definition agree_from (input : jsstring) (lo : nat) (c c' : Continuation) : Prop :=
  forall y, (lo <= endIndex y <= length input)%nat -> c y = c' y.

(** A matcher that looks at its continuation on such states only. *)
Definition extensional (input : jsstring)
           (m : MState -> Continuation -> option MState) : Prop :=
  forall x c c',
    (endIndex x <= length input)%nat ->
    agree_from input (endIndex x) c c' -> m x c = m x c'.

(** The patterns the scanning loops of the two analyzers run. *)
Definition scanned_patterns : list RegExp :=
  [PythonAnalyzer.FUNCTION_DEF; PythonAnalyzer.CLASS_DEF;
   PythonAnalyzer.VARIABLE_ASSIGNMENT; PythonAnalyzer.IMPORT_FROM;
   PythonAnalyzer.IMPORT_SIMPLE;
   TypeScriptAnalyzer.FUNCTION_DECL; TypeScriptAnalyzer.ARROW_FUNCTION;
   TypeScriptAnalyzer.CLASS_DECL; TypeScriptAnalyzer.INTERFACE_DECL;
   TypeScriptAnalyzer.TYPE_DECL; TypeScriptAnalyzer.VARIABLE_DECL;
   TypeScriptAnalyzer.IMPORT_NAMED; TypeScriptAnalyzer.IMPORT_DEFAULT;
   TypeScriptAnalyzer.IMPORT_NAMESPACE].

(** ** Spans *)

(** The last line of a text. *)
Definition last_line (s : jsstring) : jsstring := List.last (split NL s) [].

(** The text under a span. The spans of this system lie on one line; the
    text of a span that does not, or that leaves its line, is undefined. *)
Definition span_text (source : jsstring) (d : SymbolDefinition)
  : option jsstring :=
  let lines := split NL source in
  if (startLine d =? endLine d) && (1 <=? startLine d)
     && (startLine d <=? Z.of_nat (length lines))
  then
    let lineText := nth (Z.to_nat (startLine d - 1)) lines [] in
    if (1 <=? startColumn d) && (startColumn d <=? endColumn d)
       && (endColumn d <=? Z.of_nat (length lineText) + 1)
    then Some (substring (Z.to_nat (startColumn d - 1))
                         (Z.to_nat (endColumn d - 1)) lineText)
    else None
  else None.

(** The definitions either built-in scanner emits for a text. *)
Definition emitted (source : jsstring) (d : SymbolDefinition) : Prop :=
  In d (PythonAnalyzer.findDefinitions source)
  \/ In d (TypeScriptAnalyzer.findDefinitions source).

(** The shape of an emitted span: on one line; as wide as the name unless
    the definition is an import; from column 1 to the length of the line
    (or 1) when it is an import. *)
Definition span_shape (lines : list jsstring) (d : SymbolDefinition) : Prop :=
  startLine d = endLine d
  /\ (kind d <> import ->
      endColumn d - startColumn d = Z.of_nat (length (name d)))
  /\ (kind d = import ->
      startColumn d = 1 /\ endColumn d = line_length_or_1 lines (startLine d)).

(** ** Deduplication, as the specification words it *)

(** The pair (indentation depth, name) of a binding. *)
Definition binding_key (m : RegExpMatch) : nat * jsstring :=
  (length (grp m 1), grp m 2).

(** Of the bindings of each (indentation depth, name) keep the first. *)
Fixpoint first_by_key (l : list RegExpMatch) : list RegExpMatch :=
  match l with
  | [] => []
  | m :: l' =>
      m :: List.filter (fun m' => negb (bool_decide (binding_key m' = binding_key m)))
                       (first_by_key l')
  end.

(** The bindings the plain-variable scan of the TypeScript analyzer
    considers: no [=>] in the matched text, captured indentation of at
    most four code units. *)
Definition ts_variable_binding (m : RegExpMatch) : bool :=
  negb (includes (js "=>") (grp m 0)) && negb (4 <? length (grp m 1))%nat.

(** The definition a TypeScript declaration scan makes of a match. *)
Definition ts_definition (k : SymbolKind) (source : jsstring) (m : RegExpMatch)
  : SymbolDefinition :=
  let position := getLineColumn source (index m) in
  let nameIndex := indexOf (grp m 2) (grp m 0) in
  mkDef (grp m 2) (fst position) (nameIndex + 1) (fst position)
        (nameIndex + 1 + Z.of_nat (length (grp m 2))) k.

(** ** Import statements *)

(** The vocabulary of an import statement, read off a text by index.

    The code unit at [a] is in the class [p]. *)
Definition char_is (p : char -> bool) (source : jsstring) (a : nat) : bool :=
  match char_at source a with
  | Some c => p c
  | None => false
  end.

(** The code units from [a] up to [b] are a non-empty run of the class. *)
Definition run (p : char -> bool) (source : jsstring) (a b : nat) : bool :=
  (a <? b)%nat && (b <=? length source)%nat
  && forallb p (substring a b source).

(** The same, or nothing at all. *)
Definition all_in (p : char -> bool) (source : jsstring) (a b : nat) : bool :=
  (a =? b)%nat || run p source a b.

(** The text [s] stands at index [a]. *)
Definition text_at (s source : jsstring) (a : nat) : bool :=
  jsstring_eqb (substring a (a + length s) source) s.

(** Some index of the text, its end included, satisfies [f]. *)
Definition somewhere (source : jsstring) (f : nat -> bool) : bool :=
  existsb f (seq 0 (S (length source))).

Definition spaces : jsstring -> nat -> nat -> bool := run is_space.

(** A module path of Python: word characters and dots. *)
Definition module_path : jsstring -> nat -> nat -> bool := run word_or_dot.

(** The rest of a line: no line terminator. *)
Definition on_the_line : jsstring -> nat -> nat -> bool :=
  all_in (fun c => negb (is_line_terminator c)).

(** No word character stands before index [j], or at index [k]. *)
Definition no_word_before (source : jsstring) (j : nat) : bool :=
  match j with
  | O => true
  | S j' => negb (is_word_at source j')
  end.

Definition no_word_at (source : jsstring) (k : nat) : bool :=
  negb (is_word_at source k).

(** The name stands at [j] as a word of its own. *)
Definition whole_word (source symbolName : jsstring) (j : nat) : bool :=
  no_word_before source j && text_at symbolName source j
  && no_word_at source (j + length symbolName).

(** [a andthen b]: [b] is looked at only when [a] holds. *)
#[local] Notation "a 'andthen' b" := (if a then b else false)
  (at level 41, right associativity).

(** ** The import statements of Python that mention a name

    [from M import ... name ...] at the start [i] of a line: the name is
    a word of its own on the line of the import list, whether it is an
    imported name, its alias or neither. *)
Definition py_from_import (source symbolName : jsstring) (i : nat) : bool :=
  at_bol source true i && text_at (js "from") source i
  andthen somewhere source (fun a =>
       spaces source (i + 4) a
       andthen somewhere source (fun b =>
            module_path source a b
            andthen somewhere source (fun c =>
                 spaces source b c && text_at (js "import") source c
                 andthen somewhere source (fun e =>
                      spaces source (c + 6) e
                      andthen somewhere source (fun j =>
                           on_the_line source e j
                           && whole_word source symbolName j))))).

(** [import M as name] at the start [i] of a line. *)
Definition py_import_as (source symbolName : jsstring) (i : nat) : bool :=
  at_bol source true i && text_at (js "import") source i
  andthen somewhere source (fun a =>
       spaces source (i + 6) a
       andthen somewhere source (fun b =>
            module_path source a b
            andthen somewhere source (fun c =>
                 spaces source b c && text_at (js "as") source c
                 andthen somewhere source (fun d =>
                      spaces source (c + 2) d
                      && text_at symbolName source d
                      && no_word_at source (d + length symbolName))))).

(** Nothing, or word characters and dots up to a dot before [b]. *)
Definition dotted_prefix (source : jsstring) (a b : nat) : bool :=
  (a =? b)%nat
  || (a <? b)%nat && all_in word_or_dot source a (b - 1)
     && char_is (is_char ".") source (b - 1).

(** [import name] or [import pkg.name] at the start [i] of a line: the
    name is the module path or its last component, and white space or the
    end of the line follows. What follows the white space is not looked
    at: in [import name as alias] the name is mentioned. *)
Definition py_import_module (source symbolName : jsstring) (i : nat) : bool :=
  at_bol source true i && text_at (js "import") source i
  andthen somewhere source (fun a =>
       spaces source (i + 6) a
       andthen somewhere source (fun b =>
            dotted_prefix source a b && text_at symbolName source b
            && (char_is is_space source (b + length symbolName)
                || at_eol source true (b + length symbolName)))).

(** Some import statement of the Python text mentions the name. *)
Definition py_import_mentions (source symbolName : jsstring) : bool :=
  somewhere source (fun i =>
    py_from_import source symbolName i || py_import_as source symbolName i
    || py_import_module source symbolName i).

(** ** The import statements of TypeScript that mention a name

    [from 'path'] with white space before it, after index [k]: the path
    is a non-empty text without quotes between two quotes. *)
Definition ts_from_clause (source : jsstring) (k : nat) : bool :=
  somewhere source (fun a =>
    spaces source k a && text_at (js "from") source a
    andthen somewhere source (fun b =>
         spaces source (a + 4) b && char_is quote source b
         andthen somewhere source (fun c =>
              run (fun ch => negb (quote ch)) source (S b) c
              && char_is quote source c))).

(** [import { ... name ... } from 'path'] at the start [i] of a line: the
    name is a word of its own between the braces, whether it is an
    imported name, its alias or neither. *)
Definition ts_import_named (source symbolName : jsstring) (i : nat) : bool :=
  at_bol source true i && text_at (js "import") source i
  andthen somewhere source (fun a =>
       spaces source (i + 6) a && char_is (is_char "{") source a
       andthen somewhere source (fun j =>
            all_in (not_char "}") source (S a) j
            && whole_word source symbolName j
            andthen somewhere source (fun k =>
                 all_in (not_char "}") source (j + length symbolName) k
                 && char_is (is_char "}") source k
                 andthen ts_from_clause source (S k)))).

(** [import name from 'path'] at the start [i] of a line. *)
Definition ts_import_default (source symbolName : jsstring) (i : nat) : bool :=
  at_bol source true i && text_at (js "import") source i
  andthen somewhere source (fun a =>
       spaces source (i + 6) a && text_at symbolName source a
       andthen ts_from_clause source (a + length symbolName)).

(** [import * as name from 'path'] at the start [i] of a line. *)
Definition ts_import_namespace (source symbolName : jsstring) (i : nat)
  : bool :=
  at_bol source true i && text_at (js "import") source i
  andthen somewhere source (fun a =>
       spaces source (i + 6) a && char_is (is_char "*") source a
       andthen somewhere source (fun b =>
            spaces source (S a) b && text_at (js "as") source b
            andthen somewhere source (fun c =>
                 spaces source (b + 2) c && text_at symbolName source c
                 andthen ts_from_clause source (c + length symbolName)))).

(** Some import statement of the TypeScript text mentions the name. *)
Definition ts_import_mentions (source symbolName : jsstring) : bool :=
  somewhere source (fun i =>
    ts_import_named source symbolName i || ts_import_default source symbolName i
    || ts_import_namespace source symbolName i).

(** ** Imports that rebind a name

    [import name as alias] at the start [i] of a line: the module path is
    the name itself, and the statement binds the alias. *)
Definition py_aliased_import (source symbolName alias : jsstring) (i : nat)
  : bool :=
  at_bol source true i && text_at (js "import") source i
  andthen somewhere source (fun a =>
       spaces source (i + 6) a && text_at symbolName source a
       andthen somewhere source (fun c =>
            spaces source (a + length symbolName) c
            && text_at (js "as") source c
            andthen somewhere source (fun d =>
                 spaces source (c + 2) d && text_at alias source d
                 && no_word_at source (d + length alias)))).

(** [import { ... name as alias ... } from 'path'] at the start [i] of a
    line: the statement binds the alias. *)
Definition ts_aliased_import (source symbolName alias : jsstring) (i : nat)
  : bool :=
  at_bol source true i && text_at (js "import") source i
  andthen somewhere source (fun a =>
       spaces source (i + 6) a && char_is (is_char "{") source a
       andthen somewhere source (fun j =>
            all_in (not_char "}") source (S a) j
            && whole_word source symbolName j
            andthen somewhere source (fun c =>
                 spaces source (j + length symbolName) c
                 && text_at (js "as") source c
                 andthen somewhere source (fun d =>
                      spaces source (c + 2) d && whole_word source alias d
                      andthen somewhere source (fun k =>
                           all_in (not_char "}") source (d + length alias) k
                           && char_is (is_char "}") source k
                           andthen ts_from_clause source (S k)))))).

(** The binding shapes are tried in order; the first pattern that matches
    gives the module path, its group 1. *)
Fixpoint first_shape (shapes : list RegExp) (source : jsstring)
  : option jsstring :=
  match shapes with
  | [] => None
  | re :: shapes' =>
      match exec re source with
      | Some m => group m 1
      | None => first_shape shapes' source
      end
  end.

(** The names of the definitions of one kind. *)
Definition names_of_kind (k : SymbolKind) (l : list SymbolDefinition)
  : list jsstring :=
  List.map name (List.filter (fun d => bool_decide (kind d = k)) l).

(** ** Positions *)

Definition lineCount (source : jsstring) : Z :=
  Z.of_nat (length (split NL source)).

(** The length of the line addressed by a 1-based line number. *)
Definition lineLength (source : jsstring) (line : Z) : Z :=
  Z.of_nat (length (nth (Z.to_nat (line - 1)) (split NL source) [])).

(** ** Resolution *)

(** The location a local match is reported at. *)
Definition local_target (model : ITextModel) (d : SymbolDefinition) : Location :=
  mkLocation (model_uri model)
             (mkRange (startLine d) (startColumn d) (endLine d) (endColumn d)).

(** The event is an invocation of the external-navigation callback. *)
Definition external_call (ev : Event) : bool :=
  match ev with
  | CallExternalNavigation _ _ _ => true
  | _ => false
  end.

(** The event is a call of [findDefinitions]. *)
Definition extraction_call (ev : Event) : bool :=
  match ev with
  | CallFindDefinitions _ => true
  | _ => false
  end.

End Spec.

(* ===================================================================== *)
(** * Vocabulary of the further statements                                *)
(* ===================================================================== *)

Module Cover.
Import JS Types Common DefinitionProvider Spec.

(** The offset in the text of the 1-based position [(line, column)]: the
    lines before it with their line breaks, and the columns before it. *)
Definition offsetAt (source : jsstring) (line column : Z) : Z :=
  Z.of_nat (list_sum (List.map (fun l => S (length l))
                               (firstn (Z.to_nat (line - 1)) (split NL source))))
  + (column - 1).

(** The longest prefix of word characters. *)
Fixpoint word_prefix (l : jsstring) : jsstring :=
  match l with
  | c :: l' => if is_word c then c :: word_prefix l' else []
  | [] => []
  end.

(** The longest suffix of word characters: the first suffix, from the
    left, made of word characters only. *)
Fixpoint word_suffix (l : jsstring) : jsstring :=
  if forallb is_word l then l
  else match l with
       | [] => []
       | _ :: l' => word_suffix l'
       end.

(** A text that does not start, or does not end, with a word character. *)
Definition no_word_at_start (l : jsstring) : Prop :=
  match l with
  | c :: _ => is_word c = false
  | [] => True
  end.

Definition no_word_at_end (l : jsstring) : Prop := no_word_at_start (rev l).

(** What a greedy star over one character class does on the rest [l] of
    the input from index [e]: it hands the continuation the longest run
    first, then the shorter ones. *)
Fixpoint greedy (p : char -> bool) (l : jsstring) (e : nat)
         (caps : list (nat * (nat * nat))) (c : Continuation) : option MState :=
  match l with
  | a :: l' =>
      if p a then
        match greedy p l' (S e) caps c with
        | Some z => Some z
        | None => c (mkState e caps)
        end
      else c (mkState e caps)
  | [] => c (mkState e caps)
  end.

(** The bodies of the capture groups numbered [n] of a pattern. *)
Fixpoint bodies (n : nat) (r : regex) : list regex :=
  match r with
  | Group k r1 => (if (k =? n)%nat then [r1] else []) ++ bodies n r1
  | Seq r1 r2 | Alt r1 r2 => bodies n r1 ++ bodies n r2
  | Star r1 | Opt r1 => bodies n r1
  | _ => []
  end.

(** Every match of the pattern goes through a group numbered [n]. *)
Fixpoint sets_group (n : nat) (r : regex) : bool :=
  match r with
  | Group k r1 => (k =? n)%nat || sets_group n r1
  | Seq r1 r2 => sets_group n r1 || sets_group n r2
  | Alt r1 r2 => sets_group n r1 && sets_group n r2
  | _ => false
  end.

(** A text of [k] code units at least, all of them in the class [Q]. *)
Definition text_of (Q : char -> Prop) (k : nat) (s : jsstring) : Prop :=
  (k <= length s)%nat /\ Forall Q s.

(** What the bodies of the groups [n] of a pattern tell about the text a
    match captures in group [n]. *)
Definition captures_text (n : nat) (r : regex) (Q : char -> Prop) (k : nat) : Prop :=
  Forall (fun r1 => consumes_only Q r1 /\ (k <= min_len r1)%nat) (bodies n r).

(** An identifier: a non-empty text of word characters. *)
Definition identifier (s : jsstring) : Prop :=
  s <> [] /\ Forall (fun c => is_word c = true) s.

(** A non-empty text of word characters and dots that ends with a dot. *)
Definition dotted_to_the_end (s : jsstring) : Prop :=
  s <> [] /\ Forall (fun c => word_or_dot c = true) s
  /\ List.last s 0%N = ch ".".

(** ** The scans as lists *)

(** The bindings the variable scan of the Python analyzer considers:
    captured indentation of at most four code units. *)
Definition py_variable_binding (m : RegExpMatch) : bool :=
  negb (4 <? length (grp m 1))%nat.

(** The names the variable scan of the Python analyzer skips: those that
    start with an underscore, the name [_] apart. *)
Definition py_special (name : jsstring) : bool :=
  startsWith (js "_") name && negb (jsstring_eqb name (js "_")).

(** The definition a Python scan makes of a match whose name starts
    [keyword] code units after the captured indentation. *)
Definition py_definition (k : SymbolKind) (keyword : nat) (source : jsstring)
           (m : RegExpMatch) : SymbolDefinition :=
  let namePosition := getLineColumn source (index m + length (grp m 1) + keyword) in
  mkDef (grp m 2) (fst namePosition) (snd namePosition) (fst namePosition)
        (snd namePosition + Z.of_nat (length (grp m 2))) k.

(** The definitions made of the items of one import list, which is group
    [n] of the match. *)
Definition imported_items (n : nat) (source : jsstring) (m : RegExpMatch)
  : list SymbolDefinition :=
  fold_left (import_item (split NL source) (fst (getLineColumn source (index m))))
            (split (ch ",") (grp m n)) [].

(** The definition made of an import statement that binds one name. *)
Definition imported_name (name : jsstring) (source : jsstring) (m : RegExpMatch)
  : SymbolDefinition :=
  let line := fst (getLineColumn source (index m)) in
  mkDef name line 1 line (line_length_or_1 (split NL source) line) import.

(** The name a plain Python import binds. *)
Definition py_module_name (m : RegExpMatch) : jsstring :=
  default []
    (or_else (or_else (group m 2) (pop (split (ch ".") (grp m 1))))
             (group m 1)).

(** [d => d.name === symbolName]. *)
Definition named (symbolName : jsstring) (d : SymbolDefinition) : bool :=
  jsstring_eqb (name d) symbolName.

(** The match of a scan that declares [symbolName] first. *)
Definition first_declaring (symbolName : jsstring) (l : list RegExpMatch)
  : option RegExpMatch :=
  List.find (fun m => jsstring_eqb (grp m 2) symbolName) l.

(** What comes before the final [=] of [VARIABLE_DECL]. *)
Definition before_equals : list regex :=
  [Bol; Group 1 (Star ws); TypeScriptAnalyzer.export_opt;
   TypeScriptAnalyzer.const_let_var; Plus ws; Group 2 (Plus w); Star ws;
   TypeScriptAnalyzer.annotation_opt; Star ws].

(** ** [provideDefinition] with [monaco.Uri.parse]

    [monaco.Uri.parse] is not code of this repository: it is taken as a
    parameter, a function that turns the text of a uri into a uri (here
    written as its text again) or throws. *)
Definition UriParse : Type := jsstring -> Completion jsstring.

(** [provideDefinition(model, position, token)] with the call of
    [monaco.Uri.parse] written out. In [{ uri: monaco.Uri.parse(...),
    range: new monaco.Range(...) }] the uri is evaluated first, inside
    the [try]. *)
Definition provideDefinition_with (parse : UriParse)
           (self : DefinitionProvider) (model : ITextModel)
           (position : Position) (token : CancellationToken)
  : M (option Location) :=
  let languageId := getLanguageId model in
  match analyzers self !! languageId with
  | None => ret None
  | Some analyzer =>
      let source := getValue model in
      _ ← tell (CallGetSymbolAtPosition source (lineNumber position)
                                        (column position));
      let symbolName :=
        Types.getSymbolAtPosition analyzer source (lineNumber position)
                            (column position) in
      if negb (truthy symbolName) then ret None
      else
        let symbolName := default [] symbolName in
        if isCancellationRequested token then ret None
        else
          _ ← tell (CallFindDefinitions source);
          let definitions := Types.findDefinitions analyzer source in
          match DefinitionProvider.findMatchingDefinition definitions symbolName with
          | Some localDefinition =>
              ret (Some (mkLocation (model_uri model)
                           (mkRange (startLine localDefinition)
                                    (startColumn localDefinition)
                                    (endLine localDefinition)
                                    (endColumn localDefinition))))
          | None =>
              _ ← tell (CallGetImportPath source symbolName);
              let importPath := Types.getImportPath analyzer source symbolName in
              match (if truthy importPath then onExternalNavigation (options self)
                     else None) with
              | None => ret None
              | Some callback =>
                  let importPath := default [] importPath in
                  returned ← try_catch
                    (_ ← tell (CallExternalNavigation symbolName importPath
                                                      (model_uri model));
                     externalDef ← ([], callback symbolName importPath
                                                 (model_uri model));
                     match externalDef with
                     | Some externalDef =>
                         if negb (isCancellationRequested_after_await token)
                         then
                           parsed ← ([], parse (uri externalDef));
                           ret (Some (mkLocation parsed (range externalDef)))
                         else ret None
                     | None => ret None
                     end)
                    (fun error => _ ← tell (ConsoleError error); ret None);
                  match returned with
                  | Some location => ret (Some location)
                  | None => ret None
                  end
              end
          end
  end.

(** The event is a [console.error]. *)
Definition console_error (ev : Event) : bool :=
  match ev with
  | ConsoleError _ => true
  | _ => false
  end.

End Cover.

(* ===================================================================== *)
(** * Resolution: precedence, cancellation, failures, disposal            *)
(* ===================================================================== *)

Section Resolution.
Import JS Types DefinitionProvider Spec.

Implicit Types (self : DefinitionProvider) (model : ITextModel)
         (position : Position) (token : CancellationToken)
         (analyzer : LanguageAnalyzer).

Lemma find_def_some p l d :
  find_def p l = Some d -> In d l /\ p d = true.
Proof. apply find_some. Qed.

Lemma find_def_exists p l x :
  In x l -> p x = true -> exists d, find_def p l = Some d.
Proof.
  intros Hin Hp. destruct (find_def p l) as [d|] eqn:E; [eauto|].
  exfalso. pose proof (find_none p l E x Hin) as Hn. congruence.
Qed.

Lemma jsstring_eqb_eq (a b : jsstring) : jsstring_eqb a b = true <-> a = b.
Proof. unfold jsstring_eqb. apply bool_decide_eq_true. Qed.

Lemma truthy_some (o : option jsstring) :
  truthy o = true <-> exists s, o = Some s /\ s <> [].
Proof.
  destruct o as [[|c s]|]; simpl; split; try discriminate.
  - intros (s & [= <-] & H). congruence.
  - intros _. eexists. split; [reflexivity|discriminate].
  - intros _. reflexivity.
  - intros (s & H & _). discriminate.
Qed.

(** The non-import definition that [findMatchingDefinition] prefers. *)
Lemma findMatchingDefinition_non_import definitions symbolName dn :
  In dn definitions -> name dn = symbolName -> kind dn <> import ->
  exists d,
    findMatchingDefinition definitions symbolName = Some d
    /\ In d definitions /\ name d = symbolName /\ kind d <> import.
Proof.
  intros Hin Hn Hk. unfold findMatchingDefinition.
  destruct (find_def_exists
              (fun d => jsstring_eqb (name d) symbolName
                        && negb (bool_decide (kind d = import)))
              definitions dn Hin) as [d Hd].
  - apply andb_true_intro. split; [by apply jsstring_eqb_eq|].
    apply negb_true_iff, bool_decide_eq_false. exact Hk.
  - rewrite Hd. exists d. split; [reflexivity|].
    apply find_def_some in Hd as [Hd1 Hd2].
    apply andb_prop in Hd2 as [H1 H2].
    apply jsstring_eqb_eq in H1.
    apply negb_true_iff, bool_decide_eq_false in H2. auto.
Qed.

(** C2. When the definitions extracted from a document contain a
    non-import definition and an import definition of the same name, and
    the cursor is on that name with no cancellation requested,
    [provideDefinition] answers with the span of a non-import definition of
    that name (the first one), in the document itself: no import span, no
    external navigation. *)
Theorem local_definition_wins_over_import
        self model position token analyzer symbolName dn di :
  analyzers self !! getLanguageId model = Some analyzer ->
  getSymbolAtPosition analyzer (getValue model) (lineNumber position)
                      (column position) = Some symbolName ->
  symbolName <> [] ->
  isCancellationRequested token = false ->
  In dn (findDefinitions analyzer (getValue model)) ->
  name dn = symbolName -> kind dn <> import ->
  In di (findDefinitions analyzer (getValue model)) ->
  name di = symbolName -> kind di = import ->
  exists d,
    In d (findDefinitions analyzer (getValue model))
    /\ name d = symbolName /\ kind d <> import
    /\ findMatchingDefinition (findDefinitions analyzer (getValue model))
                              symbolName = Some d
    /\ snd (provideDefinition self model position token)
       = Normal (Some (local_target model d))
    /\ existsb external_call
               (fst (provideDefinition self model position token)) = false
    /\ ((forall d', In d' (findDefinitions analyzer (getValue model)) ->
                    name d' = symbolName -> kind d' <> import -> d' = dn) ->
        d = dn).
Proof.
  intros Ha Hs Hne Hc Hin Hn Hk _ _ _.
  destruct (findMatchingDefinition_non_import _ _ _ Hin Hn Hk)
    as (d & Hf & Hd & Hdn & Hdk).
  exists d. repeat split; auto.
  - unfold provideDefinition. rewrite Ha. cbn. rewrite Hs.
    destruct symbolName as [|c s]; [congruence|]. cbn. rewrite Hc. cbn.
    rewrite Hf. reflexivity.
  - unfold provideDefinition. rewrite Ha. cbn. rewrite Hs.
    destruct symbolName as [|c s]; [congruence|]. cbn. rewrite Hc. cbn.
    rewrite Hf. reflexivity.
Qed.

(** C9. With a token that is already cancelled, a registered language and
    a cursor on an identifier, [provideDefinition] returns [null] right
    after the identifier lookup: [findDefinitions] is not called, whatever
    the document defines. *)
Theorem cancelled_before_extraction
        self model position token analyzer :
  analyzers self !! getLanguageId model = Some analyzer ->
  truthy (getSymbolAtPosition analyzer (getValue model) (lineNumber position)
                              (column position)) = true ->
  isCancellationRequested token = true ->
  provideDefinition self model position token
  = ([CallGetSymbolAtPosition (getValue model) (lineNumber position)
                              (column position)], Normal None)
  /\ existsb extraction_call
             (fst (provideDefinition self model position token)) = false.
Proof.
  intros Ha Hs Hc.
  assert (provideDefinition self model position token
          = ([CallGetSymbolAtPosition (getValue model) (lineNumber position)
                                      (column position)], Normal None)) as E.
  { unfold provideDefinition. rewrite Ha. cbn. rewrite Hs. cbn.
    rewrite Hc. reflexivity. }
  split; [exact E|]. rewrite E. reflexivity.
Qed.

(** Every way through [provideDefinition]. *)
Ltac provide_cases :=
  unfold provideDefinition, mbind, M_bind, bind, try_catch, tell, ret, mret,
    M_ret in *;
  repeat (case_match; simplify_eq/=; try discriminate);
  cbn in *.

(** C3. A cancellation requested before the collaborator would be invoked
    makes [provideDefinition] return [null] without invoking it; a
    cancellation requested while the call awaits the collaborator makes it
    return [null] whatever the collaborator answered. *)
Theorem cancellation_discards_external self model position token :
  (isCancellationRequested token = true ->
   snd (provideDefinition self model position token) = Normal None
   /\ existsb external_call
              (fst (provideDefinition self model position token)) = false)
  /\ (isCancellationRequested_after_await token = true ->
      existsb external_call
              (fst (provideDefinition self model position token)) = true ->
      snd (provideDefinition self model position token) = Normal None).
Proof.
  split.
  - intros Hc. split.
    + provide_cases; congruence.
    + provide_cases; congruence.
  - intros Hc Hex. revert Hex.
    provide_cases; intros Hex; try reflexivity; try discriminate.
    all: rewrite Hc in *; discriminate.
Qed.

(** C7. [provideDefinition] never ends by throwing; when the collaborator
    was invoked and failed, the failure is logged and the answer is
    [null]. *)
Theorem collaborator_failure_is_swallowed self model position token :
  (exists v, snd (provideDefinition self model position token) = Normal v)
  /\ forall callback symbolName importPath error,
      onExternalNavigation (options self) = Some callback ->
      In (CallExternalNavigation symbolName importPath (model_uri model))
         (fst (provideDefinition self model position token)) ->
      callback symbolName importPath (model_uri model) = Throw error ->
      snd (provideDefinition self model position token) = Normal None
      /\ In (ConsoleError error)
            (fst (provideDefinition self model position token)).
Proof.
  split.
  - provide_cases; eauto.
  - intros callback symbolName importPath error Hcb Hin Hthrow.
    revert Hin. provide_cases; intros Hin;
      repeat match goal with
             | H : _ \/ _ |- _ => destruct H
             | H : False |- _ => destruct H
             | H : _ = _ |- _ => progress simplify_eq
             end; try congruence; auto.
  all: split; [reflexivity|]; simpl.
  all: repeat match goal with
              | H1 : ?c = Throw _, H2 : ?c = Throw _ |- _ =>
                  rewrite H1 in H2; injection H2 as ->
              end; tauto.
Qed.

Lemma dispose_loop (l : list IDisposable) (t : list Event) :
  fold_left (fun (m : M unit) d => _ ← m; tell (MonacoDispose d)) l
            (t, Normal tt)
  = (t ++ List.map MonacoDispose l, Normal tt).
Proof.
  revert t. induction l as [|d l IH]; intros t; simpl.
  - by rewrite app_nil_r.
  - change (fold_left (fun (m : M unit) d0 => _ ← m; tell (MonacoDispose d0)) l
                      (t ++ [MonacoDispose d], Normal tt)
            = (t ++ MonacoDispose d :: List.map MonacoDispose l, Normal tt)).
    rewrite IH. by rewrite <- app_assoc.
Qed.

(** C10. [dispose()] disposes of every registration, leaves the analyzer
    registry and the list of disposables empty and throws nothing; a second
    [dispose()] changes nothing and does nothing; and from then on
    [provideDefinition] returns [null] for every model, position and
    token. *)
Theorem dispose_clears_and_is_idempotent self :
  exists self',
    dispose self = (List.map MonacoDispose (disposables self), Normal self')
    /\ analyzers self' = ∅
    /\ disposables self' = []
    /\ dispose self' = ([], Normal self')
    /\ forall model position token,
        provideDefinition self' model position token = ([], Normal None).
Proof.
  exists (mkProvider (options self) ∅ []).
  split; [|split; [reflexivity|split; [reflexivity|split; [reflexivity|]]]].
  - unfold dispose, ret. rewrite dispose_loop. cbn. by rewrite app_nil_r.
  - intros model position token. unfold provideDefinition. cbn.
    by rewrite lookup_empty.
Qed.

End Resolution.

(* ===================================================================== *)
(** * The matcher is sound for the declarative reading                    *)
(* ===================================================================== *)

Section MatcherFacts.
Import JS Spec.
Variable input : jsstring.
Variable multiline : bool.

#[local] Abbreviation Matches := (Spec.Matches input multiline).
#[local] Abbreviation matcher := (JS.matcher input multiline).
#[local] Abbreviation repeat := (JS.repeat).

Create HintDb regex.
#[local] Hint Constructors Spec.Matches : regex.

Lemma repeat_sound r m :
  (forall x c z, m x c = Some z -> exists y, Matches r x y /\ c y = Some z) ->
  forall fuel x c z,
    repeat fuel m x c = Some z ->
    exists y, Matches (Star r) x y /\ c y = Some z.
Proof.
  intros Hm fuel. induction fuel as [|fuel IH]; intros x c z H; simpl in H.
  - eauto with regex.
  - destruct (m x _) as [z'|] eqn:E.
    + injection H as ->. apply Hm in E as (y & Hy & Hc).
      destruct (endIndex y =? endIndex x)%nat eqn:Heq; [discriminate|].
      apply Nat.eqb_neq in Heq.
      apply IH in Hc as (y' & Hy' & Hc'). eauto with regex.
    + eauto with regex.
Qed.

Lemma matcher_sound r :
  forall x c z,
    matcher r x c = Some z -> exists y, Matches r x y /\ c y = Some z.
Proof.
  induction r as [|p|r1 IH1 r2 IH2|r1 IH1 r2 IH2|r IH|r IH|n r IH| | |];
    intros x c z H; cbn [JS.matcher] in H.
  - eauto with regex.
  - destruct (char_at input (endIndex x)) as [a|] eqn:Ea; [|discriminate].
    destruct (p a) eqn:Ep; [|discriminate]. eauto with regex.
  - apply IH1 in H as (y & Hy & H). apply IH2 in H as (y' & Hy' & H).
    eauto with regex.
  - destruct (matcher r1 x c) as [z'|] eqn:E.
    + injection H as ->. apply IH1 in E as (y & Hy & Hc). eauto with regex.
    + apply IH2 in H as (y & Hy & Hc). eauto with regex.
  - eapply repeat_sound; [exact IH|exact H].
  - destruct (matcher r x _) as [z'|] eqn:E.
    + injection H as ->. apply IH in E as (y & Hy & Hc).
      destruct (endIndex y =? endIndex x)%nat eqn:Heq; [discriminate|].
      apply Nat.eqb_neq in Heq. eauto with regex.
    + eauto with regex.
  - apply IH in H as (y & Hy & Hc). eauto with regex.
  - destruct (at_bol input multiline (endIndex x)) eqn:E; [|discriminate].
    eauto with regex.
  - destruct (at_eol input multiline (endIndex x)) eqn:E; [|discriminate].
    eauto with regex.
  - destruct (at_word_boundary input (endIndex x)) eqn:E; [|discriminate].
    eauto with regex.
Qed.

(** A match consumes at least [min_len] code units and stays inside the
    input. *)
Lemma Matches_min_len r x y :
  Matches r x y -> (endIndex x + min_len r <= endIndex y)%nat.
Proof. induction 1; simpl in *; lia. Qed.

Lemma Matches_le r x y : Matches r x y -> (endIndex x <= endIndex y)%nat.
Proof. intros H. apply Matches_min_len in H. lia. Qed.

Lemma char_at_lt i a : char_at input i = Some a -> (i < length input)%nat.
Proof. unfold char_at. intros H. apply nth_error_Some. congruence. Qed.

Lemma Matches_bound r x y :
  Matches r x y -> (endIndex x <= length input)%nat ->
  (endIndex y <= length input)%nat.
Proof.
  induction 1; simpl in *; auto.
  intros _. match goal with H : char_at _ _ = Some _ |- _ =>
                      apply char_at_lt in H end. lia.
Qed.

(** The code units a match consumes are among those its classes admit. *)
Lemma Matches_consumes (Q : char -> Prop) r x y :
  Matches r x y -> consumes_only Q r ->
  forall i, (endIndex x <= i < endIndex y)%nat ->
            exists a, char_at input i = Some a /\ Q a.
Proof.
  induction 1 as [x|p x a Ha Hp|r1 r2 x y z H1 IH1 H2 IH2|r1 r2 x y H IH
                  |r1 r2 x y H IH|r x|r x y z H1 IH1 Hne H2 IH2|r x
                  |r x y H IH Hne|n r x y H IH|x Hb|x He|x Hw];
    simpl; intros HQ i Hi; try lia.
  - assert (i = endIndex x) as -> by lia. eauto.
  - destruct HQ as [HQ1 HQ2].
    destruct (Nat.lt_ge_cases i (endIndex y)); [apply IH1|apply IH2]; auto; lia.
  - apply IH; tauto.
  - apply IH; tauto.
  - destruct (Nat.lt_ge_cases i (endIndex y)); [apply IH1|apply IH2]; auto; lia.
  - apply IH; auto.
  - apply IH; auto.
Qed.

Lemma skipn_char_at (s : jsstring) i a :
  nth_error s i = Some a -> skipn i s = a :: skipn (S i) s.
Proof.
  revert i. induction s as [|b s IH]; intros i H.
  - destruct i; discriminate.
  - destruct i; simpl in *; [by injection H as ->|]. by apply IH.
Qed.

Lemma substring_step i j a :
  char_at input i = Some a -> (i <= j)%nat ->
  substring i (S j) input = a :: substring (S i) (S j) input.
Proof.
  unfold char_at, substring. intros Ha Hij.
  rewrite (skipn_char_at _ _ _ Ha).
  replace (S j - i)%nat with (S (j - i)) by lia.
  replace (S j - S i)%nat with (j - i)%nat by lia.
  reflexivity.
Qed.

(** A literal matches exactly its own text. *)
Lemma Matches_Lit s x y :
  Matches (Lit s) x y ->
  endIndex y = (endIndex x + length s)%nat
  /\ substring (endIndex x) (endIndex y) input = s.
Proof.
  revert x. induction s as [|c s IH]; intros x H; simpl in H.
  - inversion H; subst. split; [simpl; lia|].
    unfold substring. by rewrite Nat.sub_diag.
  - inversion H as [| | ? ? ? y1 ? H1 H2| | | | | | | | | |]; subst.
    inversion H1 as [|? ? a Ha Hp| | | | | | | | | | |]; subst.
    apply N.eqb_eq in Hp as <-.
    apply IH in H2 as [E1 E2]. simpl in *. split; [lia|].
    rewrite E1 in *. rewrite (substring_step _ _ c Ha) by lia.
    f_equal. exact E2.
Qed.

End MatcherFacts.

(* ===================================================================== *)
(** * [exec], the scanning loops and their fuel                           *)
(* ===================================================================== *)

Section ExecFacts.
Import JS Spec.

Lemma search_sound input ml r fuel i j y :
  search input ml r fuel i = Some (j, y) ->
  (i <= j <= i + fuel)%nat /\ match_at input ml r j = Some y.
Proof.
  revert i. induction fuel as [|fuel IH]; intros i H; simpl in H.
  - destruct (match_at input ml r i) eqn:E; [|discriminate].
    injection H as <- <-. split; [lia|exact E].
  - destruct (match_at input ml r i) eqn:E.
    + injection H as <- <-. split; [lia|exact E].
    + apply IH in H as [H1 H2]. split; [lia|exact H2].
Qed.

(** What a successful [exec] tells: the pattern matches from [index] to
    [lastIndex]. *)
Lemma exec_from_sound re input from m :
  exec_from re input from = Some m ->
  exists y,
    Matches input (multiline re) (pattern re) (mkState (index m) []) y
    /\ m = mk_match input (index m) y
    /\ (from <= index m <= length input)%nat
    /\ lastIndex m = endIndex y
    /\ (endIndex y <= length input)%nat.
Proof.
  unfold exec_from. intros H.
  destruct (length input <? from)%nat eqn:Hlt; [discriminate|].
  apply Nat.ltb_ge in Hlt.
  destruct (search _ _ _ _ _) as [[i y]|] eqn:Hs; [|discriminate].
  injection H as <-. apply search_sound in Hs as [Hi Hm].
  unfold match_at in Hm. apply matcher_sound in Hm as (y' & Hy & [= ->]).
  exists y. simpl. repeat split; auto; try lia.
  apply (Matches_bound _ _ _ _ _ Hy). simpl. lia.
Qed.

Lemma exec_from_advances re input from m :
  exec_from re input from = Some m ->
  (from + min_len (pattern re) <= lastIndex m <= length input)%nat.
Proof.
  intros H. apply exec_from_sound in H as (y & Hy & _ & Hi & -> & Hb).
  apply Matches_min_len in Hy. simpl in Hy. lia.
Qed.

(** A scanning loop over a pattern that cannot match the empty string
    ends by itself: any fuel beyond the length of the input gives the same
    matches. *)
Lemma exec_loop_fuel re input :
  (1 <= min_len (pattern re))%nat ->
  forall fuel1 fuel2 from,
    (length input - from < fuel1)%nat -> (length input - from < fuel2)%nat ->
    exec_loop fuel1 re input from = exec_loop fuel2 re input from.
Proof.
  intros Hmin fuel1. induction fuel1 as [|fuel1 IH]; intros fuel2 from H1 H2.
  - lia.
  - destruct fuel2 as [|fuel2]; [lia|]. simpl.
    destruct (exec_from re input from) as [m|] eqn:E; [|reflexivity].
    f_equal. pose proof (exec_from_advances _ _ _ _ E) as Ha.
    apply IH; lia.
Qed.

Lemma exec_all_fuel re input fuel :
  (1 <= min_len (pattern re))%nat -> (length input < fuel)%nat ->
  exec_loop fuel re input 0 = exec_all re input.
Proof.
  intros Hmin Hf. unfold exec_all. apply exec_loop_fuel; auto; lia.
Qed.

Lemma match_at_advances input ml r q y :
  match_at input ml r q = Some y -> (q + min_len r <= endIndex y)%nat.
Proof.
  unfold match_at. intros H.
  apply matcher_sound in H as (y' & Hy & [= ->]).
  apply Matches_min_len in Hy. exact Hy.
Qed.

(** The same for [split] with a pattern that cannot match the empty
    string: the fuel [length s] is never exhausted before the end of the
    text is reached. *)
Lemma split_loop_fuel re s :
  (1 <= min_len (pattern re))%nat ->
  forall fuel1 fuel2 p q,
    (length s - q <= fuel1)%nat -> (length s - q <= fuel2)%nat ->
    split_loop fuel1 re s p q = split_loop fuel2 re s p q.
Proof.
  intros Hmin fuel1.
  induction fuel1 as [|fuel1 IH]; intros fuel2 p q H1 H2.
  - destruct fuel2 as [|fuel2]; [reflexivity|]. simpl.
    destruct (Nat.ltb_spec q (length s)); [lia|reflexivity].
  - destruct fuel2 as [|fuel2]; simpl.
    + destruct (Nat.ltb_spec q (length s)); [lia|reflexivity].
    + destruct (Nat.ltb_spec q (length s)) as [Hq|Hq]; [|reflexivity].
      destruct (match_at s (multiline re) (pattern re) q) as [y|] eqn:E.
      * apply match_at_advances in E.
        destruct (Nat.min (endIndex y) (length s) =? p)%nat.
        -- apply IH; lia.
        -- f_equal. apply IH; lia.
      * apply IH; lia.
Qed.

Lemma scanned_patterns_consume :
  Forall (fun re => (1 <= min_len (pattern re))%nat) scanned_patterns.
Proof. repeat constructor; vm_compute; lia. Qed.

(** So [exec_all] is the whole loop of each scan: more fuel finds no more
    matches. *)
Lemma scanning_loops_end re input fuel :
  In re scanned_patterns -> (length input < fuel)%nat ->
  exec_loop fuel re input 0 = exec_all re input.
Proof.
  intros Hin. apply exec_all_fuel.
  pose proof scanned_patterns_consume as HF.
  rewrite List.Forall_forall in HF. by apply HF.
Qed.

Lemma exec_loop_In re input m :
  forall fuel from,
    In m (exec_loop fuel re input from) ->
    exists from', exec_from re input from' = Some m.
Proof.
  intros fuel. induction fuel as [|fuel IH]; intros from H; simpl in H; [tauto|].
  destruct (exec_from re input from) as [m'|] eqn:E; [|destruct H].
  destruct H as [->|H]; eauto.
Qed.

Lemma exec_all_In re input m :
  In m (exec_all re input) -> exists from, exec_from re input from = Some m.
Proof. apply exec_loop_In. Qed.

Lemma char_at_substring s a b i c :
  char_at (substring a b s) i = Some c ->
  char_at s (a + i) = Some c /\ (a + i < b)%nat.
Proof.
  unfold char_at, substring. intros H.
  assert (i < b - a)%nat as Hi.
  { destruct (Nat.lt_ge_cases i (b - a)) as [Hlt|Hge]; [exact Hlt|].
    rewrite nth_error_firstn in H.
    destruct (Nat.ltb_spec i (b - a)); [lia|discriminate]. }
  rewrite nth_error_firstn in H.
  destruct (Nat.ltb_spec i (b - a)); [|lia].
  rewrite nth_error_skipn in H. split; [exact H|lia].
Qed.

End ExecFacts.

Section RepeatFuel.
Import JS Spec.
Variable input : jsstring.
Variable multiline : bool.

#[local] Abbreviation agree_from := (Spec.agree_from input).
#[local] Abbreviation extensional := (Spec.extensional input).

Lemma agree_from_weaken lo lo' c c' :
  (lo <= lo')%nat -> agree_from lo c c' -> agree_from lo' c c'.
Proof. intros Hle H y Hy. apply H. lia. Qed.

Lemma repeat_ext m :
  extensional m -> forall fuel, extensional (JS.repeat fuel m).
Proof.
  intros Hm fuel. induction fuel as [|fuel IH]; intros x c c' Hx Hc; simpl.
  - apply Hc. lia.
  - rewrite (Hm x _ (fun y => if (endIndex y =? endIndex x)%nat then None
                              else JS.repeat fuel m y c')).
    + rewrite (Hc x) by lia. reflexivity.
    + exact Hx.
    + intros y Hy. destruct (endIndex y =? endIndex x)%nat; [reflexivity|].
      apply IH; [lia|]. eapply agree_from_weaken; [|exact Hc]. lia.
Qed.

Lemma matcher_ext r : extensional (JS.matcher input multiline r).
Proof.
  induction r as [|p|r1 IH1 r2 IH2|r1 IH1 r2 IH2|r IH|r IH|n r IH| | |];
    intros x c c' Hx Hc; cbn [JS.matcher].
  - apply Hc. lia.
  - destruct (char_at input (endIndex x)) as [a|] eqn:Ea; [|reflexivity].
    destruct (p a); [|reflexivity]. apply Hc. simpl.
    apply char_at_lt in Ea. lia.
  - apply IH1; [exact Hx|]. intros y Hy. apply IH2; [lia|].
    eapply agree_from_weaken; [|exact Hc]. lia.
  - rewrite (IH1 x c c' Hx Hc), (IH2 x c c' Hx Hc). reflexivity.
  - apply repeat_ext; auto.
  - rewrite (IH x _ (fun y => if (endIndex y =? endIndex x)%nat then None
                              else c' y)).
    + rewrite (Hc x) by lia. reflexivity.
    + exact Hx.
    + intros y Hy. destruct (endIndex y =? endIndex x)%nat; [reflexivity|].
      apply Hc. lia.
  - apply IH; [exact Hx|]. intros y Hy. apply Hc. simpl. lia.
  - rewrite (Hc x) by lia. reflexivity.
  - rewrite (Hc x) by lia. reflexivity.
  - rewrite (Hc x) by lia. reflexivity.
Qed.

(** The fuel [matcher] gives a star is never exhausted: any larger fuel
    yields the same result. *)
Lemma repeat_fuel m :
  extensional m ->
  forall fuel x c,
    (endIndex x <= length input)%nat ->
    (length input - endIndex x < fuel)%nat ->
    JS.repeat (S fuel) m x c = JS.repeat fuel m x c.
Proof.
  intros Hm fuel. induction fuel as [|fuel IH]; intros x c Hx Hf; [lia|].
  cbn [JS.repeat].
  rewrite (Hm x _ (fun y => if (endIndex y =? endIndex x)%nat then None
                            else JS.repeat fuel m y c)); [reflexivity|exact Hx|].
  intros y Hy. destruct (endIndex y =? endIndex x)%nat eqn:E; [reflexivity|].
  apply Nat.eqb_neq in E. apply IH; lia.
Qed.

Lemma star_fuel r x c extra :
  (endIndex x <= length input)%nat ->
  JS.repeat (S (length input - endIndex x) + extra)
            (JS.matcher input multiline r) x c
  = JS.matcher input multiline (Star r) x c.
Proof.
  intros Hx. simpl JS.matcher. induction extra as [|extra IH].
  - by rewrite Nat.add_0_r.
  - rewrite <- IH. replace (S (length input - endIndex x) + S extra)%nat
      with (S (S (length input - endIndex x) + extra)) by lia.
    apply repeat_fuel; [apply matcher_ext|exact Hx|lia].
Qed.

End RepeatFuel.

(* ===================================================================== *)
(** * The identifier at a position                                        *)
(* ===================================================================== *)

Section Position.
Import JS Types Common Spec.

Lemma getSymbolAtPosition_line_out_of_range source line column :
  line < 1 \/ lineCount source < line ->
  Common.getSymbolAtPosition source line column = None.
Proof.
  unfold Common.getSymbolAtPosition, lineCount. intros H.
  destruct (line <? 1) eqn:E1; [reflexivity|].
  destruct (Z.of_nat (length (split NL source)) <? line) eqn:E2; [reflexivity|].
  apply Z.ltb_ge in E1, E2. lia.
Qed.

Lemma getSymbolAtPosition_column_out_of_range source line column :
  column < 1 \/ lineLength source line + 1 < column ->
  Common.getSymbolAtPosition source line column = None.
Proof.
  unfold Common.getSymbolAtPosition, lineLength. intros H.
  destruct (_ || _); [reflexivity|]. cbv zeta.
  destruct (column <? 1) eqn:E1; [reflexivity|].
  destruct (_ <? column) eqn:E2; [reflexivity|].
  apply Z.ltb_ge in E1, E2. lia.
Qed.

(** C8. [getSymbolAtPosition] of either analyzer returns [null] at line 0,
    at the line after the last, at column 0 and at the column two past the
    length of the addressed line; being a total function it does so
    without raising. *)
Theorem symbol_at_position_out_of_range (source : jsstring) (line column : Z) :
  Forall (fun getSymbolAtPosition =>
            getSymbolAtPosition source 0 column = None
            /\ getSymbolAtPosition source (lineCount source + 1) column = None
            /\ getSymbolAtPosition source line 0 = None
            /\ getSymbolAtPosition source line (lineLength source line + 2)
               = None)
         [PythonAnalyzer.getSymbolAtPosition;
          TypeScriptAnalyzer.getSymbolAtPosition].
Proof.
  assert (Common.getSymbolAtPosition source 0 column = None
          /\ Common.getSymbolAtPosition source (lineCount source + 1) column = None
          /\ Common.getSymbolAtPosition source line 0 = None
          /\ Common.getSymbolAtPosition source line (lineLength source line + 2)
             = None) as H.
  { split; [|split; [|split]].
    - apply getSymbolAtPosition_line_out_of_range. lia.
    - apply getSymbolAtPosition_line_out_of_range. lia.
    - apply getSymbolAtPosition_column_out_of_range. lia.
    - apply getSymbolAtPosition_column_out_of_range. lia. }
  repeat constructor; apply H.
Qed.

End Position.

(* ===================================================================== *)
(** * Spans of the emitted definitions                                    *)
(* ===================================================================== *)

Section Spans.
Import JS Types Common Spec.

Lemma Forall_push {A} (P : A -> Prop) l x :
  Forall P l -> P x -> Forall P (push l x).
Proof. intros Hl Hx. apply Forall_app. split; [exact Hl|by constructor]. Qed.

(** A loop whose body keeps an invariant of the [definitions] array keeps
    it overall. *)
Lemma loop_preserves {A B} (P : A -> Prop) (f : list A -> B -> list A) l :
  (forall acc b, Forall P acc -> Forall P (f acc b)) ->
  forall acc, Forall P acc -> Forall P (fold_left f l acc).
Proof.
  intros Hf. induction l as [|b l IH]; intros acc Hacc; simpl; auto.
Qed.

(** The same for a loop that carries another piece of state along. *)
Lemma loop_preserves_snd {A B S} (P : A -> Prop) (f : S * list A -> B -> S * list A) l :
  (forall st b, Forall P (snd st) -> Forall P (snd (f st b))) ->
  forall st, Forall P (snd st) -> Forall P (snd (fold_left f l st)).
Proof.
  intros Hf. induction l as [|b l IH]; intros st Hst; simpl; auto.
Qed.

Lemma loop_preserves_In {A B} (P : A -> Prop) (f : list A -> B -> list A) l :
  (forall acc b, In b l -> Forall P acc -> Forall P (f acc b)) ->
  forall acc, Forall P acc -> Forall P (fold_left f l acc).
Proof.
  induction l as [|b l IH]; intros Hf acc Hacc; simpl; [exact Hacc|].
  apply IH.
  - intros acc' b' Hin. apply Hf. by right.
  - apply Hf; [by left|exact Hacc].
Qed.

Variable source : jsstring.
#[local] Abbreviation lines := (split NL source).
#[local] Abbreviation shape := (span_shape lines).

Create HintDb spans.
#[local] Hint Extern 1 (span_shape _ _) =>
  (split; [reflexivity|split; simpl; intros; try congruence; try lia; auto]) : spans.

Lemma import_item_shape line defs imp :
  Forall shape defs -> Forall shape (import_item lines line defs imp).
Proof.
  intros H. unfold import_item. case_match; [|exact H].
  apply Forall_push; auto with spans.
Qed.

Lemma py_findParameters_shape funcDef funcLine defs :
  Forall shape defs ->
  Forall shape (PythonAnalyzer.findParameters funcDef funcLine defs).
Proof.
  intros H. unfold PythonAnalyzer.findParameters. case_match; [|exact H].
  apply (loop_preserves_snd shape); [|exact H].
  intros [colOffset acc] param Hacc. unfold PythonAnalyzer.parameter_step.
  repeat case_match; simpl in *; auto.
  apply Forall_push; auto with spans.
Qed.

Lemma py_findFunctions_shape defs :
  Forall shape defs ->
  Forall shape (PythonAnalyzer.findFunctions source lines defs).
Proof.
  apply loop_preserves. intros acc m Hacc.
  unfold PythonAnalyzer.function_step.
  apply py_findParameters_shape, Forall_push; auto with spans.
Qed.

Lemma py_findClasses_shape defs :
  Forall shape defs ->
  Forall shape (PythonAnalyzer.findClasses source lines defs).
Proof.
  apply loop_preserves. intros acc m Hacc.
  unfold PythonAnalyzer.class_step. apply Forall_push; auto with spans.
Qed.

Lemma py_findVariables_shape defs :
  Forall shape defs ->
  Forall shape (PythonAnalyzer.findVariables source lines defs).
Proof.
  intros H. apply (loop_preserves_snd shape); [|exact H].
  intros [seen acc] m Hacc. unfold PythonAnalyzer.variable_step.
  repeat case_match; simpl in *; auto.
  apply Forall_push; auto with spans.
Qed.

Lemma py_findImports_shape defs :
  Forall shape defs ->
  Forall shape (PythonAnalyzer.findImports source lines defs).
Proof.
  intros H. unfold PythonAnalyzer.findImports.
  apply loop_preserves.
  { intros acc m Hacc. unfold PythonAnalyzer.import_simple_step.
    apply Forall_push; auto with spans. }
  apply loop_preserves; [|exact H].
  intros acc m Hacc. unfold PythonAnalyzer.import_from_step.
  apply loop_preserves; [|exact Hacc].
  intros acc' imp Hacc'. by apply import_item_shape.
Qed.

Lemma ts_declaration_step_shape k defs m :
  k <> import ->
  Forall shape defs ->
  Forall shape (TypeScriptAnalyzer.declaration_step k source defs m).
Proof.
  intros Hk H. unfold TypeScriptAnalyzer.declaration_step.
  apply Forall_push; auto with spans.
Qed.

Lemma ts_findVariables_shape defs :
  Forall shape defs ->
  Forall shape (TypeScriptAnalyzer.findVariables source lines defs).
Proof.
  intros H. apply (loop_preserves_snd shape); [|exact H].
  intros [seen acc] m Hacc. unfold TypeScriptAnalyzer.variable_step.
  repeat case_match; simpl in *; auto.
  by apply ts_declaration_step_shape.
Qed.

Lemma ts_findImports_shape defs :
  Forall shape defs ->
  Forall shape (TypeScriptAnalyzer.findImports source lines defs).
Proof.
  intros H. unfold TypeScriptAnalyzer.findImports.
  assert (forall acc m, Forall shape acc ->
            Forall shape (TypeScriptAnalyzer.import_single_step source lines acc m))
    as Hsingle.
  { intros acc m Hacc. unfold TypeScriptAnalyzer.import_single_step.
    apply Forall_push; auto with spans. }
  apply loop_preserves; [exact Hsingle|].
  apply loop_preserves; [exact Hsingle|].
  apply loop_preserves; [|exact H].
  intros acc m Hacc. unfold TypeScriptAnalyzer.import_named_step.
  apply loop_preserves; [|exact Hacc].
  intros acc' imp Hacc'. by apply import_item_shape.
Qed.

Lemma py_findDefinitions_shape :
  Forall shape (PythonAnalyzer.findDefinitions source).
Proof.
  unfold PythonAnalyzer.findDefinitions.
  apply py_findImports_shape, py_findVariables_shape, py_findClasses_shape,
    py_findFunctions_shape. constructor.
Qed.

Lemma ts_findDefinitions_shape :
  Forall shape (TypeScriptAnalyzer.findDefinitions source).
Proof.
  unfold TypeScriptAnalyzer.findDefinitions.
  apply ts_findImports_shape, ts_findVariables_shape.
  unfold TypeScriptAnalyzer.findTypes, TypeScriptAnalyzer.findInterfaces,
    TypeScriptAnalyzer.findClasses, TypeScriptAnalyzer.findArrowFunctions,
    TypeScriptAnalyzer.findFunctions.
  repeat (apply loop_preserves;
          [intros acc m Hacc; by apply ts_declaration_step_shape|]).
  constructor.
Qed.

End Spans.

(* ===================================================================== *)
(** * The text under the span of a Python variable                        *)
(* ===================================================================== *)

Section Lines.
Import JS Types Common Spec.

Lemma split_not_nil sep s : split sep s <> [].
Proof.
  destruct s as [|c s]; simpl; [discriminate|].
  destruct (c =? sep)%N; [discriminate|]. destruct (split sep s); discriminate.
Qed.

Lemma split_cons_nl s : split NL (NL :: s) = [] :: split NL s.
Proof. reflexivity. Qed.

Lemma split_cons_other c s :
  c <> NL ->
  exists l ls, split NL s = l :: ls /\ split NL (c :: s) = (c :: l) :: ls.
Proof.
  intros Hc. simpl. destruct (N.eqb_spec c NL) as [->|_]; [congruence|].
  destruct (split NL s) as [|l ls] eqn:E; [by apply split_not_nil in E|eauto].
Qed.

(** A piece without line break stays on the line it starts. *)
Lemma split_app_line (mid after : jsstring) :
  Forall (fun c => c <> NL) mid ->
  exists l ls,
    split NL after = l :: ls /\ split NL (mid ++ after) = (mid ++ l) :: ls.
Proof.
  induction 1 as [|c mid Hc _ IH].
  - destruct (split NL after) as [|l ls] eqn:E; [by apply split_not_nil in E|].
    eauto.
  - destruct IH as (l & ls & E1 & E2). rewrite <- !app_comm_cons.
    destruct (split_cons_other c (mid ++ after) Hc) as (l' & ls' & E3 & E4).
    rewrite E2 in E3. injection E3 as <- <-. exists l, ls. by rewrite E4.
Qed.

(** The lines of a text cut at any point: the complete lines before the
    cut, the line of the cut, the lines after it. *)
Lemma split_app (a b : jsstring) :
  exists l ls,
    split NL b = l :: ls
    /\ split NL (a ++ b) = removelast (split NL a) ++ (last_line a ++ l) :: ls.
Proof.
  unfold last_line. induction a as [|c a IH].
  - destruct (split NL b) as [|l ls] eqn:E; [by apply split_not_nil in E|].
    exists l, ls. split; [reflexivity|]. simpl. exact E.
  - destruct IH as (l & ls & E1 & E2). exists l, ls. split; [exact E1|].
    rewrite <- app_comm_cons.
    destruct (N.eq_dec c NL) as [->|Hc].
    + rewrite !split_cons_nl, E2.
      destruct (split NL a) as [|x xs] eqn:E; [by apply split_not_nil in E|].
      reflexivity.
    + destruct (split_cons_other c a Hc) as (x & xs & E3 & E4).
      destruct (split_cons_other c (a ++ b) Hc) as (x' & xs' & E5 & E6).
      rewrite E4, E6. rewrite E3 in E2. rewrite E2 in E5.
      destruct xs as [|x2 xs]; simpl in *.
      * injection E5 as <- <-. reflexivity.
      * injection E5 as <- <-. reflexivity.
Qed.

Lemma length_removelast {A} (l : list A) :
  length (removelast l) = (length l - 1)%nat.
Proof.
  induction l as [|x l IH]; [reflexivity|].
  destruct l; [reflexivity|]. simpl in *. lia.
Qed.

Lemma length_last (l : list jsstring) :
  match last l with Some x => length x | None => 0%nat end
  = length (List.last l []).
Proof.
  induction l as [|x l IH]; [reflexivity|].
  destruct l; [reflexivity|]. exact IH.
Qed.

Lemma getLineColumn_eq source i :
  getLineColumn source i
  = (Z.of_nat (length (split NL (firstn i source))),
     Z.of_nat (length (last_line (firstn i source))) + 1).
Proof.
  unfold getLineColumn, last_line, substring.
  rewrite Nat.sub_0_r, length_last. reflexivity.
Qed.

Lemma substring_whole_middle (a mid b : jsstring) :
  substring (length a) (length a + length mid) (a ++ mid ++ b) = mid.
Proof.
  unfold substring.
  replace (length a + length mid - length a)%nat with (length mid) by lia.
  rewrite List.skipn_app, List.skipn_all, Nat.sub_diag. cbn [skipn app].
  change (drop 0 (mid ++ b)) with (mid ++ b).
  rewrite List.firstn_app, List.firstn_all, Nat.sub_diag. cbn [firstn].
  apply app_nil_r.
Qed.

(** The span [getLineColumn] places at an identifier, as wide as the
    identifier, has the identifier as its text. *)
Lemma span_text_at_offset source a b k :
  (a <= b <= length source)%nat ->
  Forall (fun c => c <> NL) (substring a b source) ->
  let position := getLineColumn source a in
  let nm := substring a b source in
  span_text source
            (mkDef nm (fst position) (snd position) (fst position)
                   (snd position + Z.of_nat (length nm)) k)
  = Some nm.
Proof.
  intros Hab Hnl position nm.
  assert (source = firstn a source ++ nm ++ skipn b source) as Hsrc.
  { unfold nm, substring.
    rewrite <- (firstn_skipn a source) at 1. f_equal.
    rewrite <- (firstn_skipn (b - a) (skipn a source)) at 1. f_equal.
    rewrite skipn_skipn. f_equal. lia. }
  destruct (split_app_line nm (skipn b source) Hnl) as (l & ls & E1 & E2).
  destruct (split_app (firstn a source) (nm ++ skipn b source))
    as (l' & ls' & E3 & E4).
  rewrite E2 in E3. injection E3 as <- <-. rewrite <- Hsrc in E4.
  subst position. rewrite getLineColumn_eq. unfold span_text. cbn [fst snd].
  cbn [startLine endLine startColumn endColumn].
  set (before := firstn a source) in *.
  set (n := length (split NL before)).
  assert (1 <= n)%nat as Hn.
  { unfold n. pose proof (split_not_nil NL before).
    destruct (split NL before); [congruence|simpl; lia]. }
  assert (length (split NL source) = (n + length ls)%nat) as Hlen.
  { rewrite E4, length_app, length_removelast. simpl. fold n. lia. }
  assert (nth (Z.to_nat (Z.of_nat n - 1)) (split NL source) []
          = last_line before ++ nm ++ l) as Hline.
  { rewrite E4. replace (Z.to_nat (Z.of_nat n - 1)) with
      (length (removelast (split NL before)))
      by (rewrite length_removelast; fold n; lia).
    by rewrite nth_middle. }
  rewrite Hline, Hlen, Z.eqb_refl.
  replace (1 <=? Z.of_nat n) with true by (symmetry; apply Z.leb_le; lia).
  replace (Z.of_nat n <=? Z.of_nat (n + length ls)) with true
    by (symmetry; apply Z.leb_le; lia).
  cbn [andb].
  replace (1 <=? Z.of_nat (length (last_line before)) + 1) with true
    by (symmetry; apply Z.leb_le; lia).
  replace (Z.of_nat (length (last_line before)) + 1
           <=? Z.of_nat (length (last_line before)) + 1 + Z.of_nat (length nm))
    with true by (symmetry; apply Z.leb_le; lia).
  replace (Z.of_nat (length (last_line before)) + 1 + Z.of_nat (length nm)
           <=? Z.of_nat (length (last_line before ++ nm ++ l)) + 1)
    with true by (symmetry; apply Z.leb_le; rewrite !length_app; lia).
  cbn [andb]. f_equal.
  replace (Z.to_nat (Z.of_nat (length (last_line before)) + 1 - 1))
    with (length (last_line before)) by lia.
  replace (Z.to_nat (Z.of_nat (length (last_line before)) + 1
                     + Z.of_nat (length nm) - 1))
    with (length (last_line before) + length nm)%nat by lia.
  apply substring_whole_middle.
Qed.

End Lines.

Section VariableText.
Import JS Types Common Spec.

Lemma Matches_no_groups input ml r x y :
  Matches input ml r x y -> no_groups r -> captures y = captures x.
Proof.
  induction 1; simpl; intros Hn; try reflexivity; try tauto.
  - destruct Hn as [H1 H2]. rewrite IHMatches2, IHMatches1; auto.
  - rewrite IHMatches2, IHMatches1; auto.
Qed.

Lemma length_substring (s : jsstring) a b :
  (a <= b <= length s)%nat -> length (substring a b s) = (b - a)%nat.
Proof.
  intros H. unfold substring. rewrite length_firstn, length_skipn. lia.
Qed.

Lemma Forall_substring (Q : char -> Prop) (s : jsstring) a b :
  (forall i, (a <= i < b)%nat -> exists c, char_at s i = Some c /\ Q c) ->
  Forall Q (substring a b s).
Proof.
  intros H. apply List.Forall_forall. intros c Hin.
  apply In_nth_error in Hin as [i Hi].
  apply char_at_substring in Hi as [Hc Hlt].
  destruct (H (a + i)%nat) as (c' & Hc' & HQ); [lia|].
  unfold char_at in *. congruence.
Qed.

(** The shape of a match of a pattern [^(\s* )(name)rest]: the first group
    is the text from the start of the match to the name, the second is the
    name, and the name is made of the code units its pattern admits. *)
Lemma indent_name_match re source from m r2 rest :
  pattern re = cat (Bol :: Group 1 (Star ws) :: Group 2 r2 :: rest) ->
  no_groups r2 -> no_groups (cat rest) ->
  exec_from re source from = Some m ->
  exists e1 e2,
    (index m <= e1 <= e2)%nat /\ (e2 <= length source)%nat
    /\ grp m 1 = substring (index m) e1 source
    /\ grp m 2 = substring e1 e2 source
    /\ forall Q : char -> Prop,
        consumes_only Q r2 -> Forall Q (substring e1 e2 source).
Proof.
  intros Hp Hn2 Hnr H.
  apply exec_from_sound in H as (y & Hy & Hm & Hi & _ & Hb).
  rewrite Hp in Hy. cbn [cat foldr] in Hy.
  inversion Hy as [| |? ? ? x1 ? Hbol H1| | | | | | | | | |]; subst.
  inversion Hbol; subst.
  inversion H1 as [| |? ? ? x2 ? Hg1 H2| | | | | | | | | |]; subst.
  inversion Hg1 as [| | | | | | | | |? ? ? y1 Hws| | |]; subst.
  inversion H2 as [| |? ? ? x3 ? Hg2 H3| | | | | | | | | |]; subst.
  inversion Hg2 as [| | | | | | | | |? ? ? y2 Hname| | |]; subst.
  pose proof (Matches_no_groups _ _ _ _ _ Hws I) as C1.
  pose proof (Matches_no_groups _ _ _ _ _ Hname Hn2) as C2.
  pose proof (Matches_no_groups _ _ _ _ _ H3 Hnr) as C3.
  pose proof (Matches_le _ _ _ _ _ Hws) as L1.
  pose proof (Matches_le _ _ _ _ _ Hname) as L2.
  pose proof (Matches_le _ _ _ _ _ H3) as L3.
  simpl in *. exists (endIndex y1), (endIndex y2).
  repeat split; try lia.
  - rewrite Hm. unfold grp, mk_match. cbn [group]. rewrite C3, C2, C1.
    reflexivity.
  - rewrite Hm. unfold grp, mk_match. cbn [group]. rewrite C3, C2, C1.
    reflexivity.
  - intros Q HQ. apply Forall_substring. intros i Hi'.
    apply (Matches_consumes _ _ Q _ _ _ Hname HQ). simpl. lia.
Qed.

(** A loop that carries other state along and keeps an invariant of the
    [definitions] array for the items it is run on. *)
Lemma loop_preserves_snd_In {A B S} (P : A -> Prop)
      (f : S * list A -> B -> S * list A) l :
  (forall st b, In b l -> Forall P (snd st) -> Forall P (snd (f st b))) ->
  forall st, Forall P (snd st) -> Forall P (snd (fold_left f l st)).
Proof.
  induction l as [|b l IH]; intros Hf st Hst; simpl; [exact Hst|].
  apply IH.
  - intros st' b' Hin. apply Hf. by right.
  - apply Hf; [by left|exact Hst].
Qed.

(** Every [variable] definition of the Python scanner has its name under
    its span. *)
Lemma py_variable_span_text source :
  Forall (fun d => kind d = variable -> span_text source d = Some (name d))
         (PythonAnalyzer.findDefinitions source).
Proof.
  unfold PythonAnalyzer.findDefinitions, PythonAnalyzer.findImports.
  apply loop_preserves.
  { intros acc m Hacc. unfold PythonAnalyzer.import_simple_step.
    by apply Forall_push. }
  apply loop_preserves.
  { intros acc m Hacc. unfold PythonAnalyzer.import_from_step.
    apply loop_preserves; [|exact Hacc].
    intros acc' imp Hacc'. unfold import_item. case_match; [|exact Hacc'].
    by apply Forall_push. }
  apply (loop_preserves_snd_In
           (fun d => kind d = variable -> span_text source d = Some (name d))).
  { intros [seen acc] m Hin Hacc. apply exec_all_In in Hin as [from Hm].
    unfold PythonAnalyzer.variable_step.
    repeat case_match; simpl in *; auto.
    apply Forall_push; [exact Hacc|]. intros _.
    destruct (indent_name_match
                PythonAnalyzer.VARIABLE_ASSIGNMENT source from m (Plus w)
                [Star ws; Opt (cat [lit ":"; Star ws; Plus w]); Star ws; lit "="]
                eq_refl)
      as (e1 & e2 & He & Hb & G1 & G2 & HQ);
      [simpl; tauto|simpl; tauto|exact Hm|].
    rewrite G1, G2, length_substring by lia.
    replace (index m + (e1 - index m))%nat with e1 by lia.
    apply span_text_at_offset; [lia|].
    apply (HQ (fun c => c <> NL)). simpl.
    split; intros a Ha ->; vm_compute in Ha; discriminate. }
  apply loop_preserves.
  { intros acc m Hacc. unfold PythonAnalyzer.class_step. by apply Forall_push. }
  unfold PythonAnalyzer.findFunctions.
  apply loop_preserves; [|constructor].
  intros acc m Hacc. unfold PythonAnalyzer.function_step.
  assert (forall funcDef funcLine defs,
            Forall (fun d => kind d = variable ->
                             span_text source d = Some (name d)) defs ->
            Forall (fun d => kind d = variable ->
                             span_text source d = Some (name d))
                   (PythonAnalyzer.findParameters funcDef funcLine defs)) as Hp.
  { intros funcDef funcLine defs H. unfold PythonAnalyzer.findParameters.
    case_match; [|exact H].
    apply (loop_preserves_snd
             (fun d => kind d = variable -> span_text source d = Some (name d)));
      [|exact H].
    intros [colOffset acc'] param Hacc'. unfold PythonAnalyzer.parameter_step.
    repeat case_match; simpl in *; auto. by apply Forall_push. }
  apply Hp. by apply Forall_push.
Qed.

End VariableText.

Section SpanClaim.
Import JS Types Common Spec.

Lemma line_length_or_1_pos lines line : 1 <= line_length_or_1 lines line.
Proof.
  unfold line_length_or_1. repeat case_match; try lia.
  all: match goal with
       | H : (_ =? 0)%nat = false |- _ => apply Nat.eqb_neq in H
       end; lia.
Qed.

(** C1, as stated, fails: for [import os] the Python scanner emits the
    definition [os] with the span of the whole line, (1,1)..(1,9); the text
    under it is [import o], not [os], and its width is 8, not 2. *)
Lemma import_span_is_not_the_name :
  (let source := js "import os" in
   let d := mkDef (js "os") 1 1 1 9 import in
   PythonAnalyzer.findDefinitions source = [d]
   /\ span_text source d = Some (js "import o")
   /\ endColumn d - startColumn d = 8
   /\ Z.of_nat (length (name d)) = 2)
  /\ ~ (forall source d,
          emitted source d ->
          span_text source d = Some (name d)
          /\ endColumn d - startColumn d = Z.of_nat (length (name d))).
Proof.
  split; [vm_compute; auto|].
  intros H.
  destruct (H (js "import os") (mkDef (js "os") 1 1 1 9 import)) as [_ H2].
  - left. vm_compute. auto.
  - vm_compute in H2. discriminate.
Qed.

(** Where the text under a non-import span is not the name: a [def]
    followed by two spaces, and a TypeScript declaration after an empty
    line (the pattern's leading [\s*] takes the line break, the line is
    counted from the start of the match). *)
Example span_text_off_the_name :
  (let source := js "def  foo():" in
   let d := mkDef (js "foo") 1 5 1 8 function in
   PythonAnalyzer.findDefinitions source = [d]
   /\ span_text source d = Some (js " fo"))
  /\ (let source := js "
function hello() {}" in
      let d := mkDef (js "hello") 1 11 1 16 function in
      TypeScriptAnalyzer.findDefinitions source = [d]
      /\ span_text source d = None).
Proof. vm_compute. auto. Qed.

(** C1, amended. Every definition a built-in scanner emits has a span on
    one line with [startColumn <= endColumn]; unless it is an import, the
    span is as wide as the name ([endColumn - startColumn = length name]);
    an import has the span of its line, from column 1 to the length of the
    line (1 for an empty line); and the text under the span of a [variable]
    definition of the Python scanner is its name. *)
Theorem emitted_span_shape source d :
  emitted source d ->
  startLine d = endLine d
  /\ startColumn d <= endColumn d
  /\ (kind d <> import ->
      endColumn d - startColumn d = Z.of_nat (length (name d)))
  /\ (kind d = import ->
      startColumn d = 1
      /\ endColumn d = line_length_or_1 (split NL source) (startLine d))
  /\ (In d (PythonAnalyzer.findDefinitions source) -> kind d = variable ->
      span_text source d = Some (name d)).
Proof.
  intros H.
  assert (span_shape (split NL source) d) as (H1 & H2 & H3).
  { destruct H as [H|H].
    - pose proof (py_findDefinitions_shape source) as HF.
      rewrite List.Forall_forall in HF. exact (HF d H).
    - pose proof (ts_findDefinitions_shape source) as HF.
      rewrite List.Forall_forall in HF. exact (HF d H). }
  split; [exact H1|]. split; [|split; [exact H2|split; [exact H3|]]].
  - destruct (decide (kind d = import)) as [Hk|Hk].
    + destruct (H3 Hk) as [-> ->]. apply line_length_or_1_pos.
    + specialize (H2 Hk). lia.
  - intros Hin. pose proof (py_variable_span_text source) as HF.
    rewrite List.Forall_forall in HF. exact (HF d Hin).
Qed.

Lemma emitted_span_shape_witness :
  let source := js "import os
x = 1" in
  let d := mkDef (js "x") 2 1 2 2 variable in
  endColumn d - startColumn d = Z.of_nat (length (name d))
  /\ span_text source d = Some (name d).
Proof.
  intros source d.
  destruct (emitted_span_shape source d) as (_ & _ & H2 & _ & H4).
  - left. vm_compute. auto.
  - split.
    + apply H2. discriminate.
    + apply H4; [vm_compute; auto|reflexivity].
Defined.

End SpanClaim.

(* ===================================================================== *)
(** * Deduplication in the TypeScript scans                               *)
(* ===================================================================== *)

Section Dedup.
Import JS Types Common Spec.

#[local] Abbreviation keep := (fun (seen : gset (nat * jsstring)) (m : RegExpMatch) =>
                    negb (bool_decide (binding_key m ∈ seen))).

Lemma filter_filter_andb {A} (f g : A -> bool) l :
  List.filter f (List.filter g l) = List.filter (fun x => g x && f x) l.
Proof.
  induction l as [|a l IH]; simpl; [reflexivity|].
  destruct (g a); simpl; [destruct (f a)|]; by rewrite IH.
Qed.

(** Bindings whose key was seen before the loop never come back. *)
Lemma keep_seen_key (seen : gset (nat * jsstring)) m l :
  binding_key m ∈ seen ->
  List.filter (keep seen)
    (List.filter (fun m' => negb (bool_decide (binding_key m' = binding_key m))) l)
  = List.filter (keep seen) l.
Proof.
  intros Hin. rewrite filter_filter_andb. apply filter_ext. intros m'.
  apply eq_true_iff_eq.
  rewrite andb_true_iff, !negb_true_iff, !bool_decide_eq_false.
  split; [tauto|]. intros Hm'. split; [|exact Hm']. congruence.
Qed.

Lemma keep_added_key (seen : gset (nat * jsstring)) m l :
  List.filter (keep (seen ∪ {[binding_key m]})) l
  = List.filter (keep seen)
      (List.filter (fun m' => negb (bool_decide (binding_key m' = binding_key m))) l).
Proof.
  rewrite filter_filter_andb. apply filter_ext. intros m'.
  apply eq_true_iff_eq.
  rewrite andb_true_iff, !negb_true_iff, !bool_decide_eq_false.
  rewrite not_elem_of_union, not_elem_of_singleton. tauto.
Qed.

(** One turn of the loop of [findVariables]. *)
Lemma ts_variable_step_cases source seen definitions m :
  TypeScriptAnalyzer.variable_step source (seen, definitions) m
  = if ts_variable_binding m then
      if bool_decide (binding_key m ∈ seen) then (seen, definitions)
      else (seen ∪ {[binding_key m]},
            definitions ++ [ts_definition variable source m])
    else (seen, definitions).
Proof.
  unfold TypeScriptAnalyzer.variable_step, ts_variable_binding, binding_key.
  destruct (includes (js "=>") (grp m 0)); simpl; [reflexivity|].
  destruct (4 <? length (grp m 1))%nat; reflexivity.
Qed.

(** The loop of [findVariables] with its set [seenNames], against the
    first binding of each key. *)
Lemma ts_variable_loop source l :
  forall seen definitions,
    snd (fold_left (TypeScriptAnalyzer.variable_step source) l (seen, definitions))
    = definitions
      ++ List.map (ts_definition variable source)
           (List.filter (keep seen)
              (first_by_key (List.filter ts_variable_binding l))).
Proof.
  induction l as [|m l IH]; intros seen definitions.
  - simpl. by rewrite app_nil_r.
  - cbn [fold_left List.filter]. rewrite ts_variable_step_cases.
    destruct (ts_variable_binding m) eqn:E1; [|apply IH].
    cbn [first_by_key List.filter].
    destruct (bool_decide (binding_key m ∈ seen)) eqn:E3; cbn beta.
    + apply bool_decide_eq_true in E3.
      rewrite (bool_decide_eq_true_2 _ E3). cbn [negb].
      rewrite IH. by rewrite keep_seen_key.
    + apply bool_decide_eq_false in E3.
      rewrite (bool_decide_eq_false_2 _ E3). cbn [negb].
      rewrite IH. rewrite <- app_assoc. cbn [List.map app].
      f_equal. f_equal. f_equal. apply keep_added_key.
Qed.

Lemma keep_nothing_seen l : List.filter (keep ∅) l = l.
Proof.
  induction l as [|m l IH]; simpl; [reflexivity|].
  rewrite bool_decide_eq_false_2 by apply not_elem_of_empty. simpl.
  by rewrite IH.
Qed.

Lemma first_by_key_In l m : In m (first_by_key l) -> In m l.
Proof.
  revert m. induction l as [|a l IH]; intros m; simpl; [tauto|].
  intros [->|H]; [by left|]. apply filter_In in H as [H _]. right. by apply IH.
Qed.

(** The kept bindings have pairwise different keys... *)
Lemma first_by_key_NoDup l : NoDup (List.map binding_key (first_by_key l)).
Proof.
  induction l as [|m l IH]; simpl; constructor.
  - rewrite list_elem_of_In, in_map_iff. intros (m' & Hk & Hin).
    apply filter_In in Hin as [_ Hne].
    apply negb_true_iff, bool_decide_eq_false in Hne. congruence.
  - revert IH. generalize (first_by_key l). intros k.
    induction k as [|a k IHk]; simpl; intros Hnd; [constructor|].
    apply NoDup_cons in Hnd as [Ha Hk].
    destruct (negb _); simpl; [|by apply IHk].
    constructor; [|by apply IHk].
    rewrite list_elem_of_In, in_map_iff. intros (m' & Hk' & Hin).
    apply filter_In in Hin as [Hin _]. apply Ha.
    rewrite list_elem_of_In, in_map_iff. eauto.
Qed.

(** ... and every key of the list is the key of a kept binding. *)
Lemma first_by_key_complete l m :
  In m l -> In (binding_key m) (List.map binding_key (first_by_key l)).
Proof.
  induction l as [|a l IH]; simpl; [tauto|].
  intros [->|Hin]; [by left|].
  destruct (decide (binding_key m = binding_key a)) as [E|E]; [by left|].
  right. apply IH in Hin. apply in_map_iff in Hin as (m' & Hk & Hin).
  apply in_map_iff. exists m'. split; [exact Hk|].
  apply filter_In. split; [exact Hin|].
  apply negb_true_iff, bool_decide_eq_false. congruence.
Qed.

Lemma ts_declaration_loop k source l :
  forall definitions,
    fold_left (TypeScriptAnalyzer.declaration_step k source) l definitions
    = definitions ++ List.map (ts_definition k source) l.
Proof.
  induction l as [|m l IH]; intros definitions; simpl.
  - by rewrite app_nil_r.
  - rewrite IH. unfold TypeScriptAnalyzer.declaration_step at 1, push.
    by rewrite <- app_assoc.
Qed.

(** C6, as stated, fails for the arrow-function scan: two bindings of [f]
    at indentation depth 0 yield two definitions. *)
Lemma arrow_scan_keeps_duplicates :
  let source := js "const f = () => 1
const f = () => 2" in
  List.map binding_key (exec_all TypeScriptAnalyzer.ARROW_FUNCTION source)
  = [(0%nat, js "f"); (0%nat, js "f")]
  /\ TypeScriptAnalyzer.findArrowFunctions source (split NL source) []
     = [mkDef (js "f") 1 7 1 8 function; mkDef (js "f") 2 7 2 8 function].
Proof. split; vm_compute; reflexivity. Qed.

(** C6, amended. The plain-variable scan of the TypeScript analyzer
    deduplicates by the pair (length of the whitespace captured before the
    binding, name): of the bindings it considers, it defines the first of
    each pair and no other, and it excludes no name, with or without a
    leading underscore. The arrow-function scan does not deduplicate: it
    defines every binding it matches. *)
Theorem ts_variable_scan_deduplicates source lines definitions :
  let bindings :=
    List.filter ts_variable_binding
                (exec_all TypeScriptAnalyzer.VARIABLE_DECL source) in
  TypeScriptAnalyzer.findVariables source lines definitions
  = definitions
    ++ List.map (ts_definition variable source) (first_by_key bindings)
  /\ NoDup (List.map binding_key (first_by_key bindings))
  /\ (forall m, In m (first_by_key bindings) -> In m bindings)
  /\ (forall m, In m bindings ->
        In (binding_key m) (List.map binding_key (first_by_key bindings))
        /\ exists d,
            In d (TypeScriptAnalyzer.findVariables source lines definitions)
            /\ name d = grp m 2 /\ kind d = variable)
  /\ TypeScriptAnalyzer.findArrowFunctions source lines definitions
     = definitions
       ++ List.map (ts_definition function source)
            (exec_all TypeScriptAnalyzer.ARROW_FUNCTION source).
Proof.
  intros bindings.
  assert (TypeScriptAnalyzer.findVariables source lines definitions
          = definitions
            ++ List.map (ts_definition variable source) (first_by_key bindings))
    as E.
  { unfold TypeScriptAnalyzer.findVariables. rewrite ts_variable_loop.
    by rewrite keep_nothing_seen. }
  split; [exact E|]. split; [apply first_by_key_NoDup|].
  split; [apply first_by_key_In|]. split.
  - intros m Hm. pose proof (first_by_key_complete _ _ Hm) as Hk.
    split; [exact Hk|].
    apply in_map_iff in Hk as (m' & Hk & Hin).
    exists (ts_definition variable source m'). rewrite E. split.
    + apply in_or_app. right. by apply in_map.
    + injection Hk as _ Hn. simpl. auto.
  - apply ts_declaration_loop.
Qed.

End Dedup.

(* ===================================================================== *)
(** * Parameters in the Python scan                                       *)
(* ===================================================================== *)

Section Parameters.
Import JS Types Common Spec.

(** The text [match[0]] of a match of [FUNCTION_DEF] stops at the opening
    parenthesis: it has no closing one. *)
Lemma function_def_has_no_closing_paren source from m :
  exec_from PythonAnalyzer.FUNCTION_DEF source from = Some m ->
  forall i, char_at (grp m 0) i <> Some (ch ")").
Proof.
  intros H i Hi.
  apply exec_from_sound in H as (y & Hy & Hm & _ & _ & _).
  assert (grp m 0 = substring (index m) (endIndex y) source) as E.
  { rewrite Hm at 1. reflexivity. }
  rewrite E in Hi. apply char_at_substring in Hi as [Hc Hlt].
  assert (consumes_only (fun a => a <> ch ")")
                        (pattern PythonAnalyzer.FUNCTION_DEF)) as HQ.
  { simpl. repeat split; intros a Ea ->; vm_compute in Ea; discriminate. }
  destruct (Matches_consumes source true _ _ _ _ Hy HQ (index m + i)%nat)
    as (a & Ha & Hne); [simpl; lia|].
  rewrite Hc in Ha. injection Ha as <-. by apply Hne.
Qed.

(** [/\(([^)]* )\)/] matches only a text with a closing parenthesis. *)
Lemma param_list_needs_closing_paren s pm :
  exec PythonAnalyzer.PARAM_LIST s = Some pm ->
  exists i, char_at s i = Some (ch ")").
Proof.
  intros H. apply exec_from_sound in H as (y & Hy & _).
  cbn in Hy. unfold lit in Hy.
  repeat match goal with
         | H : Matches _ _ (Seq _ _) _ _ |- _ => inversion H; clear H; subst
         | H : Matches _ _ (Group _ _) _ _ |- _ => inversion H; clear H; subst
         | H : Matches _ _ Eps _ _ |- _ => inversion H; clear H; subst
         end.
  match goal with
  | H : Matches _ _ (Chr (is_char ")")) _ _ |- _ =>
      inversion H as [|? ? a Ha Hp| | | | | | | | | | |]; subst
  end.
  apply N.eqb_eq in Hp. subst a. eauto.
Qed.

Lemma findParameters_of_function_match source from m funcLine definitions :
  exec_from PythonAnalyzer.FUNCTION_DEF source from = Some m ->
  PythonAnalyzer.findParameters (grp m 0) funcLine definitions = definitions.
Proof.
  intros H. unfold PythonAnalyzer.findParameters.
  destruct (exec PythonAnalyzer.PARAM_LIST (grp m 0)) as [pm|] eqn:E;
    [|reflexivity].
  apply param_list_needs_closing_paren in E as [i Hi].
  by apply (function_def_has_no_closing_paren _ _ _ H) in Hi.
Qed.

Lemma py_findDefinitions_no_parameter source :
  Forall (fun d => kind d <> parameter) (PythonAnalyzer.findDefinitions source).
Proof.
  unfold PythonAnalyzer.findDefinitions, PythonAnalyzer.findImports.
  apply loop_preserves.
  { intros acc m Hacc. unfold PythonAnalyzer.import_simple_step.
    by apply Forall_push. }
  apply loop_preserves.
  { intros acc m Hacc. unfold PythonAnalyzer.import_from_step.
    apply loop_preserves; [|exact Hacc].
    intros acc' imp Hacc'. unfold import_item. case_match; [|exact Hacc'].
    by apply Forall_push. }
  apply (loop_preserves_snd (fun d => kind d <> parameter)).
  { intros [seen acc] m Hacc. unfold PythonAnalyzer.variable_step.
    repeat case_match; simpl in *; auto. by apply Forall_push. }
  apply loop_preserves.
  { intros acc m Hacc. unfold PythonAnalyzer.class_step. by apply Forall_push. }
  apply loop_preserves_In; [|constructor].
  intros acc m Hin Hacc. apply exec_all_In in Hin as [from Hm].
  unfold PythonAnalyzer.function_step.
  rewrite (findParameters_of_function_match _ _ _ _ _ Hm).
  by apply Forall_push.
Qed.

(** C4 does not hold of the code: [findParameters] receives [match[0]],
    which ends at the opening parenthesis, so its pattern for the
    parameter list never matches and the Python scanner emits no
    [parameter] definition at all, for example none for [name] in
    [def greet(name):]. *)
Theorem python_scan_emits_no_parameter :
  (forall source d,
      In d (PythonAnalyzer.findDefinitions source) -> kind d <> parameter)
  /\ PythonAnalyzer.findDefinitions (js "def greet(name):
    print(name)")
     = [mkDef (js "greet") 1 5 1 10 function].
Proof.
  split.
  - intros source d Hin.
    pose proof (py_findDefinitions_no_parameter source) as HF.
    rewrite List.Forall_forall in HF. by apply HF.
  - vm_compute. reflexivity.
Qed.

End Parameters.

(* ===================================================================== *)
(** * Import paths                                                        *)
(* ===================================================================== *)

Section ImportPaths.
Import JS Types Common Spec.


End ImportPaths.

(* ===================================================================== *)
(** * The repository's own tests and the scenarios of the specification  *)
(* ===================================================================== *)

Section Examples.
Import JS Types Common Spec DefinitionProvider.

(** [python.test.ts] (the string of the third test is written with single
    quotes here). *)
Example py_test_functions :
  names_of_kind function (PythonAnalyzer.findDefinitions (js "
def hello():
    pass

def greet(name):
    print(name)
")) = [js "hello"; js "greet"].
Proof. vm_compute. reflexivity. Qed.

Example py_test_classes :
  names_of_kind class (PythonAnalyzer.findDefinitions (js "
class MyClass:
    pass

class AnotherClass(BaseClass):
    def method(self):
        pass
")) = [js "MyClass"; js "AnotherClass"].
Proof. vm_compute. reflexivity. Qed.

Example py_test_variables :
  names_of_kind variable (PythonAnalyzer.findDefinitions (js "
x = 10
y: int = 20
name = 'hello'
")) = [js "x"; js "y"; js "name"].
Proof. vm_compute. reflexivity. Qed.

Example py_test_imports :
  names_of_kind import (PythonAnalyzer.findDefinitions (js "
from os import path
from typing import List, Dict
import json
import numpy as np
")) = [js "path"; js "List"; js "Dict"; js "json"; js "np"].
Proof. vm_compute. reflexivity. Qed.

Example py_test_symbol_at_position :
  let source := js "def hello():
    pass" in
  PythonAnalyzer.getSymbolAtPosition source 1 5 = Some (js "hello")
  /\ PythonAnalyzer.getSymbolAtPosition source 1 3 = Some (js "def")
  /\ PythonAnalyzer.getSymbolAtPosition (js "variable_name = 10") 1 8
     = Some (js "variable_name").
Proof. vm_compute. auto. Qed.

Example py_test_import_path :
  PythonAnalyzer.getImportPath (js "from os.path import join") (js "join")
  = Some (js "os.path")
  /\ PythonAnalyzer.getImportPath (js "import numpy as np") (js "np")
     = Some (js "numpy")
  /\ PythonAnalyzer.getImportPath (js "
def local_func():
    pass
") (js "local_func") = None.
Proof. vm_compute. auto. Qed.

(** [typescript.test.ts] *)
Example ts_test_functions :
  names_of_kind function (TypeScriptAnalyzer.findDefinitions (js "
function hello() {
  return 'hello';
}

async function greet(name: string) {
  console.log(name);
}
")) = [js "hello"; js "greet"].
Proof. vm_compute. reflexivity. Qed.

Example ts_test_arrow_functions :
  names_of_kind function (TypeScriptAnalyzer.findDefinitions (js "
const add = (a: number, b: number) => a + b;
const multiply = (x, y) => x * y;
export const subtract = async (a: number, b: number) => a - b;
")) = [js "add"; js "multiply"; js "subtract"].
Proof. vm_compute. reflexivity. Qed.

Example ts_test_classes :
  names_of_kind class (TypeScriptAnalyzer.findDefinitions (js "
class MyClass {
  constructor() {}
}

export class AnotherClass extends BaseClass {
  method() {}
}

abstract class AbstractClass {}
")) = [js "MyClass"; js "AnotherClass"; js "AbstractClass"].
Proof. vm_compute. reflexivity. Qed.

Example ts_test_interfaces_and_types :
  List.map name (TypeScriptAnalyzer.findDefinitions (js "
interface User {
  name: string;
  age: number;
}

export interface Config {
  port: number;
}
")) = [js "User"; js "Config"]
  /\ List.map name (TypeScriptAnalyzer.findDefinitions (js "
type StringOrNumber = string | number;
export type Handler = (event: Event) => void;
")) = [js "StringOrNumber"; js "Handler"].
Proof. vm_compute. auto. Qed.

Example ts_test_imports :
  names_of_kind import (TypeScriptAnalyzer.findDefinitions (js "
import { readFile, writeFile } from 'fs';
import path from 'path';
import * as utils from './utils';
")) = [js "readFile"; js "writeFile"; js "path"; js "utils"].
Proof. vm_compute. reflexivity. Qed.

Example ts_test_symbol_at_position :
  TypeScriptAnalyzer.getSymbolAtPosition (js "function hello() {}") 1 12
  = Some (js "hello")
  /\ TypeScriptAnalyzer.getSymbolAtPosition (js "const variableName = 10") 1 10
     = Some (js "variableName").
Proof. vm_compute. auto. Qed.

Example ts_test_import_path :
  TypeScriptAnalyzer.getImportPath (js "import { readFile } from 'fs'")
                                   (js "readFile") = Some (js "fs")
  /\ TypeScriptAnalyzer.getImportPath (js "import path from 'path'") (js "path")
     = Some (js "path")
  /\ TypeScriptAnalyzer.getImportPath (js "import * as utils from './utils'")
                                      (js "utils") = Some (js "./utils")
  /\ TypeScriptAnalyzer.getImportPath (js "
function localFunc() {}
") (js "localFunc") = None.
Proof. vm_compute. auto. Qed.

(** Scenario A of the specification. *)
Example scenario_python_function :
  PythonAnalyzer.findDefinitions (js "def hello():
    pass") = [mkDef (js "hello") 1 5 1 10 function].
Proof. vm_compute. reflexivity. Qed.

(** Scenarios B, C and E of the specification. *)
Example scenario_import_paths :
  PythonAnalyzer.getImportPath (js "import numpy as np") (js "np")
  = Some (js "numpy")
  /\ TypeScriptAnalyzer.getImportPath (js "import { readFile } from 'fs'")
                                      (js "readFile") = Some (js "fs").
Proof. vm_compute. auto. Qed.

Example scenario_unregistered_language source position token :
  provideDefinition (new (mkOptions None None))
                    (mkModel (js "ruby") source (js "file:///a.rb"))
                    position token
  = ([], Normal None).
Proof. reflexivity. Qed.

(** A name that a named import binds has an import definition, which is a
    local match: the answer is the import line and the collaborator is not
    asked. *)
Example scenario_named_import :
  let callback : ExternalNavigationCallback :=
    fun _ importPath _ => Normal (Some (mkResult importPath (mkRange 1 1 1 1))) in
  let source := js "import { format } from './utils'" in
  provideDefinition (new (mkOptions (Some callback) None))
                    (mkModel (js "typescript") source (js "file:///a.ts"))
                    (mkPosition 1 11) (mkToken false false)
  = ([CallGetSymbolAtPosition source 1 11; CallFindDefinitions source],
     Normal (Some (mkLocation (js "file:///a.ts") (mkRange 1 1 1 32)))).
Proof. vm_compute. reflexivity. Qed.

End Examples.

(* ===================================================================== *)
(** * The theorems at work on concrete documents                          *)
(* ===================================================================== *)

Section Witnesses.
Import JS Types Spec DefinitionProvider.

(** A Python document that defines [np] and also imports it. *)
Lemma local_definition_wins_over_import_witness :
  let self := new (mkOptions None None) in
  let model := mkModel (js "python") (js "def np():
    pass
import numpy as np") (js "file:///a.py") in
  snd (provideDefinition self model (mkPosition 1 5) (mkToken false false))
  = Normal (Some (mkLocation (js "file:///a.py") (mkRange 1 5 1 7))).
Proof.
  intros self model.
  destruct (local_definition_wins_over_import
              self model (mkPosition 1 5) (mkToken false false)
              PythonAnalyzer.analyzer (js "np")
              (mkDef (js "np") 1 5 1 7 function)
              (mkDef (js "np") 3 1 3 18 import))
    as (d & _ & _ & _ & _ & Hr & _ & Hd).
  - reflexivity.
  - vm_compute. reflexivity.
  - discriminate.
  - reflexivity.
  - vm_compute. auto.
  - reflexivity.
  - discriminate.
  - vm_compute. auto.
  - reflexivity.
  - reflexivity.
  - rewrite Hr. rewrite Hd; [reflexivity|].
    intros d' Hin Hn Hk. vm_compute in Hin.
    destruct Hin as [<-|[<-|[]]]; [reflexivity|]. by destruct Hk.
Defined.

(** [import numpy as np] with the cursor on [numpy]: no definition is
    called [numpy], the import path is [numpy], the collaborator is
    invoked. Cancelled beforehand, or while the collaborator is awaited,
    the call returns [null]. *)
Lemma cancellation_discards_external_witness :
  let callback : ExternalNavigationCallback :=
    fun _ importPath _ => Normal (Some (mkResult importPath (mkRange 1 1 1 1))) in
  let self := new (mkOptions (Some callback) None) in
  let model := mkModel (js "python") (js "import numpy as np") (js "file:///a.py") in
  provideDefinition self model (mkPosition 1 9) (mkToken false false)
  = ([CallGetSymbolAtPosition (js "import numpy as np") 1 9;
      CallFindDefinitions (js "import numpy as np");
      CallGetImportPath (js "import numpy as np") (js "numpy");
      CallExternalNavigation (js "numpy") (js "numpy") (js "file:///a.py")],
     Normal (Some (mkLocation (js "numpy") (mkRange 1 1 1 1))))
  /\ snd (provideDefinition self model (mkPosition 1 9) (mkToken true true))
     = Normal None
  /\ snd (provideDefinition self model (mkPosition 1 9) (mkToken false true))
     = Normal None.
Proof.
  intros callback self model. split; [vm_compute; reflexivity|]. split.
  - apply (proj1 (cancellation_discards_external
                    self model (mkPosition 1 9) (mkToken true true))).
    reflexivity.
  - apply (proj2 (cancellation_discards_external
                    self model (mkPosition 1 9) (mkToken false true))).
    + reflexivity.
    + vm_compute. reflexivity.
Defined.

(** The same document with a collaborator that fails. *)
Lemma collaborator_failure_is_swallowed_witness :
  let callback : ExternalNavigationCallback := fun _ _ _ => Throw (js "boom") in
  let self := new (mkOptions (Some callback) None) in
  let model := mkModel (js "python") (js "import numpy as np") (js "file:///a.py") in
  let result := provideDefinition self model (mkPosition 1 9) (mkToken false false) in
  snd result = Normal None /\ In (ConsoleError (js "boom")) (fst result).
Proof.
  intros callback self model result.
  apply (proj2 (collaborator_failure_is_swallowed
                  self model (mkPosition 1 9) (mkToken false false))
               callback (js "numpy") (js "numpy") (js "boom")).
  - reflexivity.
  - vm_compute. auto 10.
  - reflexivity.
Defined.

(** A cancelled token on a document that defines the identifier under the
    cursor. *)
Lemma cancelled_before_extraction_witness :
  let self := new (mkOptions None None) in
  let model := mkModel (js "python") (js "def hello():
    pass") (js "file:///a.py") in
  snd (provideDefinition self model (mkPosition 1 5) (mkToken true true))
  = Normal None
  /\ snd (provideDefinition self model (mkPosition 1 5) (mkToken false false))
     = Normal (Some (mkLocation (js "file:///a.py") (mkRange 1 5 1 10))).
Proof.
  intros self model. split; [|vm_compute; reflexivity].
  destruct (cancelled_before_extraction
              self model (mkPosition 1 5) (mkToken true true)
              PythonAnalyzer.analyzer) as [E _].
  - reflexivity.
  - vm_compute. reflexivity.
  - reflexivity.
  - rewrite E. reflexivity.
Defined.

(** Two bindings of [_v] at depth 0: one [variable] definition, and the
    underscore does not exclude it. *)
Lemma ts_variable_scan_deduplicates_witness :
  let source := js "const _v = 1;
const _v = 2;" in
  TypeScriptAnalyzer.findVariables source (JS.split Common.NL source) []
  = [mkDef (js "_v") 1 7 1 9 variable]
  /\ exists d,
      In d (TypeScriptAnalyzer.findVariables source (JS.split Common.NL source) [])
      /\ name d = js "_v" /\ kind d = variable.
Proof.
  intros source.
  destruct (ts_variable_scan_deduplicates source (JS.split Common.NL source) [])
    as (E & _ & _ & Hall & _).
  split.
  - rewrite E. vm_compute. reflexivity.
  - destruct (Hall (nth 1 (exec_all TypeScriptAnalyzer.VARIABLE_DECL source)
                        (mkMatch 0 0 (fun _ => None)))) as (_ & d & Hd).
    + vm_compute. auto.
    + exists d. exact Hd.
Defined.

Lemma python_scan_emits_no_parameter_witness :
  kind (mkDef (js "greet") 1 5 1 10 function) <> parameter.
Proof.
  apply (proj1 python_scan_emits_no_parameter (js "def greet(name):
    print(name)")).
  vm_compute. auto.
Defined.

End Witnesses.

(* ===================================================================== *)
(** * More of [DefinitionProvider]                                        *)
(* ===================================================================== *)

Section Provider.
Import JS Types DefinitionProvider Spec Cover.

Implicit Types (self : DefinitionProvider) (model : ITextModel)
         (position : Position) (token : CancellationToken)
         (analyzer : LanguageAnalyzer).

Lemma find_def_none p l :
  find_def p l = None <-> forall d, In d l -> p d = false.
Proof.
  split.
  - intros H d Hin. exact (find_none p l H d Hin).
  - intros H. destruct (find_def p l) as [d|] eqn:E; [|reflexivity].
    apply find_def_some in E as [Hin Hp]. rewrite (H d Hin) in Hp. discriminate.
Qed.

Lemma jsstring_eqb_false (a b : jsstring) : jsstring_eqb a b = false <-> a <> b.
Proof. unfold jsstring_eqb. apply bool_decide_eq_false. Qed.

(** What [findMatchingDefinition] finds. *)
Lemma findMatchingDefinition_some definitions symbolName d :
  findMatchingDefinition definitions symbolName = Some d ->
  In d definitions /\ name d = symbolName
  /\ (kind d = import ->
      forall d', In d' definitions -> name d' = symbolName -> kind d' = import).
Proof.
  unfold findMatchingDefinition.
  destruct (find_def _ definitions) as [d1|] eqn:E1.
  - intros [= ->]. apply find_def_some in E1 as [Hin Hp].
    apply andb_prop in Hp as [Hn Hk]. apply jsstring_eqb_eq in Hn.
    apply negb_true_iff, bool_decide_eq_false in Hk. repeat split; auto.
    intros Hk'. contradiction.
  - intros E2. apply find_def_some in E2 as [Hin Hn].
    apply jsstring_eqb_eq in Hn. repeat split; auto.
    intros _ d' Hin' Hn'.
    pose proof (proj1 (find_def_none _ _) E1 d' Hin') as Hp.
    apply andb_false_iff in Hp as [Hp|Hp].
    + apply jsstring_eqb_false in Hp. contradiction.
    + apply negb_false_iff, bool_decide_eq_true in Hp. exact Hp.
Qed.

Lemma findMatchingDefinition_none definitions symbolName :
  findMatchingDefinition definitions symbolName = None
  <-> forall d, In d definitions -> name d <> symbolName.
Proof.
  unfold findMatchingDefinition. split.
  - destruct (find_def _ definitions) as [d1|] eqn:E1; [discriminate|].
    intros E2 d Hin. apply jsstring_eqb_false.
    exact (proj1 (find_def_none _ _) E2 d Hin).
  - intros H.
    destruct (find_def _ definitions) as [d1|] eqn:E1.
    + apply find_def_some in E1 as [Hin Hp]. apply andb_prop in Hp as [Hn _].
      apply jsstring_eqb_eq in Hn. by apply H in Hin.
    + apply find_def_none. intros d Hin. apply jsstring_eqb_false. by apply H.
Qed.

Lemma findMatchingDefinition_exists definitions symbolName d0 :
  In d0 definitions -> name d0 = symbolName ->
  exists d, findMatchingDefinition definitions symbolName = Some d.
Proof.
  intros Hin Hn.
  destruct (findMatchingDefinition definitions symbolName) as [d|] eqn:E;
    [eauto|].
  exfalso. exact (proj1 (findMatchingDefinition_none _ _) E d0 Hin Hn).
Qed.

(** X1. [findMatchingDefinition] returns [null] exactly when no definition
    has the name; a definition it returns is one of the list and has the
    name, and it is an import only when every definition of that name is
    an import. *)
Theorem matching_definition_has_the_name definitions symbolName :
  (findMatchingDefinition definitions symbolName = None
   <-> forall d, In d definitions -> name d <> symbolName)
  /\ forall d,
      findMatchingDefinition definitions symbolName = Some d ->
      In d definitions /\ name d = symbolName
      /\ (kind d = import ->
          forall d', In d' definitions -> name d' = symbolName ->
                     kind d' = import).
Proof.
  split; [apply findMatchingDefinition_none|].
  intros d. apply findMatchingDefinition_some.
Qed.

(** The run of [provideDefinition] up to the local lookup. *)
Lemma provideDefinition_local self model position token analyzer symbolName d :
  analyzers self !! getLanguageId model = Some analyzer ->
  getSymbolAtPosition analyzer (getValue model) (lineNumber position)
                      (column position) = Some symbolName ->
  symbolName <> [] ->
  isCancellationRequested token = false ->
  findMatchingDefinition (findDefinitions analyzer (getValue model)) symbolName
  = Some d ->
  provideDefinition self model position token
  = ([CallGetSymbolAtPosition (getValue model) (lineNumber position)
                              (column position);
      CallFindDefinitions (getValue model)],
     Normal (Some (local_target model d))).
Proof.
  intros Ha Hs Hne Hc Hf. unfold provideDefinition. rewrite Ha. cbn. rewrite Hs.
  destruct symbolName as [|c s]; [congruence|]. cbn. rewrite Hc. cbn.
  rewrite Hf. reflexivity.
Qed.

(** X2. Whenever some extracted definition, import or not, has the name
    under the cursor, [provideDefinition] answers with the span of a
    definition of that name in the model's own document, after the two
    calls [getSymbolAtPosition] and [findDefinitions]: [getImportPath] and
    the collaborator are not reached. *)
Theorem any_definition_resolves_locally
        self model position token analyzer symbolName d0 :
  analyzers self !! getLanguageId model = Some analyzer ->
  getSymbolAtPosition analyzer (getValue model) (lineNumber position)
                      (column position) = Some symbolName ->
  symbolName <> [] ->
  isCancellationRequested token = false ->
  In d0 (findDefinitions analyzer (getValue model)) ->
  name d0 = symbolName ->
  exists d,
    In d (findDefinitions analyzer (getValue model))
    /\ name d = symbolName
    /\ provideDefinition self model position token
       = ([CallGetSymbolAtPosition (getValue model) (lineNumber position)
                                   (column position);
           CallFindDefinitions (getValue model)],
          Normal (Some (local_target model d))).
Proof.
  intros Ha Hs Hne Hc Hin Hn.
  destruct (findMatchingDefinition_exists _ _ _ Hin Hn) as [d Hf].
  exists d. destruct (findMatchingDefinition_some _ _ _ Hf) as (H1 & H2 & _).
  repeat split; auto. by eapply provideDefinition_local.
Qed.

(** Every way through [provideDefinition]. *)
Ltac provide_paths :=
  unfold provideDefinition, mbind, M_bind, bind, try_catch, tell, ret, mret,
    M_ret in *;
  repeat (case_match; simplify_eq/=; try discriminate);
  cbn in *.

(** With a [monaco.Uri.parse] that never throws and uris written as their
    text, [provideDefinition_with] is [provideDefinition]. *)
Lemma provideDefinition_with_total self model position token :
  provideDefinition_with (fun u => Normal u) self model position token
  = provideDefinition self model position token.
Proof. reflexivity. Qed.

(** X3. Whatever [monaco.Uri.parse] does, the collaborator is invoked at
    most once in a call. When it is, the language is registered, no
    cancellation was requested, no extracted definition has the
    identifier under the cursor, and the arguments are that identifier,
    its non-empty import path and the model's uri. The call then returns
    the collaborator's target, its uri parsed, unless the collaborator
    failed, found nothing, cancellation was requested in the meantime or
    [monaco.Uri.parse] failed: then it returns [null]. It never rejects,
    and it logs an error exactly when the collaborator or
    [monaco.Uri.parse] failed. *)
Theorem collaborator_protocol parse self model position token :
  let call := provideDefinition_with parse self model position token in
  (length (List.filter external_call (fst call)) <= 1)%nat
  /\ (exists result, snd call = Normal result)
  /\ forall symbolName importPath currentUri,
      In (CallExternalNavigation symbolName importPath currentUri) (fst call) ->
      exists analyzer callback,
        analyzers self !! getLanguageId model = Some analyzer
        /\ onExternalNavigation (options self) = Some callback
        /\ isCancellationRequested token = false
        /\ getSymbolAtPosition analyzer (getValue model) (lineNumber position)
                               (column position) = Some symbolName
        /\ symbolName <> []
        /\ findMatchingDefinition (findDefinitions analyzer (getValue model))
                                  symbolName = None
        /\ getImportPath analyzer (getValue model) symbolName = Some importPath
        /\ importPath <> []
        /\ currentUri = model_uri model
        /\ call
           = ([CallGetSymbolAtPosition (getValue model) (lineNumber position)
                                       (column position);
               CallFindDefinitions (getValue model);
               CallGetImportPath (getValue model) symbolName;
               CallExternalNavigation symbolName importPath currentUri]
              ++ match callback symbolName importPath currentUri with
                 | Normal (Some externalDef) =>
                     if isCancellationRequested_after_await token then []
                     else match parse (uri externalDef) with
                          | Normal _ => []
                          | Throw error => [ConsoleError error]
                          end
                 | Normal None => []
                 | Throw error => [ConsoleError error]
                 end,
              Normal
                match callback symbolName importPath currentUri with
                | Normal (Some externalDef) =>
                    if isCancellationRequested_after_await token then None
                    else match parse (uri externalDef) with
                         | Normal parsed =>
                             Some (mkLocation parsed (range externalDef))
                         | Throw _ => None
                         end
                | _ => None
                end).
Proof.
  intros call. subst call. unfold provideDefinition_with.
  destruct (analyzers self !! getLanguageId model) as [analyzer|] eqn:Ha;
    [|cbn; split; [lia|split; [eauto|intros ? ? ? []]]].
  cbn.
  destruct (getSymbolAtPosition analyzer (getValue model)
              (lineNumber position) (column position)) as [s|] eqn:Hs;
    cbn; [|split; [lia|split; [eauto|intros ? ? ? [|[]]; discriminate]]].
  destruct s as [|c s]; cbn;
    [split; [lia|split; [eauto|intros ? ? ? [|[]]; discriminate]]|].
  destruct (isCancellationRequested token) eqn:Hc; cbn;
    [split; [lia|split; [eauto|intros ? ? ? [|[]]; discriminate]]|].
  destruct (findMatchingDefinition _ _) as [d|] eqn:Hf; cbn;
    [split; [lia|split; [eauto|intros ? ? ? [|[|[]]]; discriminate]]|].
  destruct (getImportPath analyzer (getValue model) (c :: s)) as [p|] eqn:Hp;
    cbn; [|split; [lia|split; [eauto|intros ? ? ? [|[|[|[]]]]; discriminate]]].
  destruct p as [|c' p]; cbn;
    [split; [lia|split; [eauto|intros ? ? ? [|[|[|[]]]]; discriminate]]|].
  destruct (onExternalNavigation (options self)) as [callback|] eqn:Hcb;
    cbn; [|split; [lia|split; [eauto|intros ? ? ? [|[|[|[]]]]; discriminate]]].
  split; [|split].
  - destruct (callback (c :: s) (c' :: p) (model_uri model)) as [[r|]|e];
      cbn; try lia.
    destruct (isCancellationRequested_after_await token); cbn; [lia|].
    destruct (parse (uri r)); cbn; lia.
  - destruct (callback (c :: s) (c' :: p) (model_uri model)) as [[r|]|e];
      cbn; eauto.
    destruct (isCancellationRequested_after_await token); cbn; eauto.
    destruct (parse (uri r)); cbn; eauto.
  - intros symbolName importPath currentUri Hin.
    exists analyzer, callback.
    assert (CallExternalNavigation symbolName importPath currentUri
            = CallExternalNavigation (c :: s) (c' :: p) (model_uri model)) as E.
    { destruct (callback (c :: s) (c' :: p) (model_uri model)) as [[r|]|e];
        cbn in Hin;
        try destruct (isCancellationRequested_after_await token); cbn in Hin;
        try destruct (parse (uri r)); cbn in Hin;
        intuition congruence. }
    injection E as -> -> ->.
    repeat split; auto; try discriminate.
    destruct (callback (c :: s) (c' :: p) (model_uri model)) as [[r|]|e];
      cbn; try reflexivity.
    destruct (isCancellationRequested_after_await token); cbn; [reflexivity|].
    destruct (parse (uri r)); reflexivity.
Qed.

(** X4. Without a configured collaborator a call invokes none, and what it
    returns is [null] or the span, in the model's own document, of an
    extracted definition named as the identifier under the cursor. *)
Theorem without_collaborator_only_local self model position token :
  onExternalNavigation (options self) = None ->
  existsb external_call (fst (provideDefinition self model position token))
  = false
  /\ (snd (provideDefinition self model position token) = Normal None
      \/ exists analyzer symbolName d,
          analyzers self !! getLanguageId model = Some analyzer
          /\ getSymbolAtPosition analyzer (getValue model)
                                 (lineNumber position) (column position)
             = Some symbolName
          /\ In d (findDefinitions analyzer (getValue model))
          /\ name d = symbolName
          /\ snd (provideDefinition self model position token)
             = Normal (Some (local_target model d))).
Proof.
  intros Hcb. unfold provideDefinition.
  destruct (analyzers self !! getLanguageId model) as [analyzer|] eqn:Ha;
    [|split; [reflexivity|by left]].
  cbn.
  destruct (getSymbolAtPosition analyzer (getValue model)
              (lineNumber position) (column position)) as [s|] eqn:Hs;
    cbn; [|split; [reflexivity|by left]].
  destruct s as [|c s]; cbn; [split; [reflexivity|by left]|].
  destruct (isCancellationRequested token) eqn:Hc; cbn;
    [split; [reflexivity|by left]|].
  destruct (findMatchingDefinition _ _) as [d|] eqn:Hf; cbn.
  - split; [reflexivity|]. right. exists analyzer, (c :: s), d.
    destruct (findMatchingDefinition_some _ _ _ Hf) as (H1 & H2 & _).
    repeat split; auto.
  - rewrite Hcb. destruct (truthy _); cbn; split; try reflexivity; by left.
Qed.

(** [registerAnalyzer] and the registry. *)
Lemma provideDefinition_same_analyzers self self' model position token :
  options self' = options self ->
  analyzers self' !! getLanguageId model = analyzers self !! getLanguageId model ->
  provideDefinition self' model position token
  = provideDefinition self model position token.
Proof.
  intros Ho Ha. unfold provideDefinition. rewrite Ha, Ho. reflexivity.
Qed.

(** X5. [registerAnalyzer(id, a)] makes [a] the analyzer of [id], replacing
    the one registered before (a built-in one too); registering twice
    keeps the last; the analyzers of other languages, the options and the
    registrations are untouched, and so is every call for a model of
    another language. *)
Theorem registerAnalyzer_overrides self languageId analyzer :
  analyzers (registerAnalyzer self languageId analyzer) !! languageId
  = Some analyzer
  /\ (forall analyzer',
        registerAnalyzer (registerAnalyzer self languageId analyzer')
                         languageId analyzer
        = registerAnalyzer self languageId analyzer)
  /\ options (registerAnalyzer self languageId analyzer) = options self
  /\ disposables (registerAnalyzer self languageId analyzer) = disposables self
  /\ (forall other,
        other <> languageId ->
        analyzers (registerAnalyzer self languageId analyzer) !! other
        = analyzers self !! other)
  /\ (forall model position token,
        getLanguageId model <> languageId ->
        provideDefinition (registerAnalyzer self languageId analyzer)
                          model position token
        = provideDefinition self model position token).
Proof.
  split; [apply lookup_insert_eq|]. split.
  { intros analyzer'. unfold registerAnalyzer. cbn.
    by rewrite insert_insert_eq. }
  split; [reflexivity|]. split; [reflexivity|]. split.
  - intros other Hne. by apply lookup_insert_ne.
  - intros model position token Hne.
    apply provideDefinition_same_analyzers; [reflexivity|].
    by apply lookup_insert_ne.
Qed.

(** The registry the constructor builds. *)
Lemma new_analyzers options languageId :
  analyzers (new options) !! languageId
  = if bool_decide (languageId = js "javascript")
    then Some TypeScriptAnalyzer.analyzer
    else if bool_decide (languageId = js "typescript")
         then Some TypeScriptAnalyzer.analyzer
         else if bool_decide (languageId = js "python")
              then Some PythonAnalyzer.analyzer
              else None.
Proof.
  unfold new. cbn [analyzers].
  repeat (case_bool_decide; [subst; by rewrite ?lookup_insert_eq|
                             rewrite lookup_insert_ne by done]).
  apply lookup_empty.
Qed.

(** X6. A new provider knows exactly the languages [python], [typescript]
    and [javascript], the last two with the same analyzer; for a model of
    any other language every call returns [null] at once, without calling
    anything. *)
Theorem constructor_registers_three_languages options :
  analyzers (new options) !! js "python" = Some PythonAnalyzer.analyzer
  /\ analyzers (new options) !! js "typescript" = Some TypeScriptAnalyzer.analyzer
  /\ analyzers (new options) !! js "javascript" = Some TypeScriptAnalyzer.analyzer
  /\ disposables (new options) = []
  /\ forall model position token,
      getLanguageId model <> js "python" ->
      getLanguageId model <> js "typescript" ->
      getLanguageId model <> js "javascript" ->
      analyzers (new options) !! getLanguageId model = None
      /\ provideDefinition (new options) model position token
         = ([], Normal None).
Proof.
  split; [by rewrite new_analyzers|]. split; [by rewrite new_analyzers|].
  split; [by rewrite new_analyzers|]. split; [reflexivity|].
  intros model position token H1 H2 H3.
  assert (analyzers (new options) !! getLanguageId model = None) as E.
  { rewrite new_analyzers. by rewrite !bool_decide_eq_false_2. }
  split; [exact E|]. unfold provideDefinition. by rewrite E.
Qed.

Lemma register_run self languageId :
  register self languageId
  = ([MonacoRegister languageId],
     Normal (mkProvider (options self) (analyzers self)
                        (disposables self ++ [mkDisposable languageId]),
             mkDisposable languageId)).
Proof. reflexivity. Qed.

Lemma create_loop (languages : list jsstring) :
  forall t self,
    fold_left (fun (m : M DefinitionProvider) lang =>
                 provider ← m; r ← register provider lang; ret (fst r))
              languages (t, Normal self)
    = (t ++ List.map MonacoRegister languages,
       Normal (mkProvider (DefinitionProvider.options self) (analyzers self)
                          (disposables self
                           ++ List.map mkDisposable languages))).
Proof.
  induction languages as [|lang languages IH]; intros t self.
  - simpl. rewrite !app_nil_r. by destruct self.
  - cbn [fold_left List.map].
    change (fold_left
              (fun (m : M DefinitionProvider) lang0 =>
                 provider ← m; r ← register provider lang0; ret (fst r))
              languages
              (t ++ [MonacoRegister lang],
               Normal (mkProvider (DefinitionProvider.options self)
                                  (analyzers self)
                                  (disposables self ++ [mkDisposable lang])))
            = (t ++ MonacoRegister lang :: List.map MonacoRegister languages,
               Normal (mkProvider (DefinitionProvider.options self)
                                  (analyzers self)
                                  (disposables self
                                   ++ mkDisposable lang
                                      :: List.map mkDisposable languages)))).
    rewrite IH. cbn. by rewrite <- !app_assoc.
Qed.

(** X7. [createDefinitionProvider(languages, options)] registers the
    provider with the editor once for each language, in order, and keeps
    one registration per language; a later [dispose()] disposes of exactly
    these registrations, in the same order. Registering changes no
    analyzer. *)
Theorem create_then_dispose languages options :
  exists provider,
    createDefinitionProvider languages options
    = (List.map MonacoRegister languages, Normal provider)
    /\ disposables provider = List.map mkDisposable languages
    /\ analyzers provider = analyzers (new options)
    /\ DefinitionProvider.options provider = options
    /\ fst (dispose provider)
       = List.map (fun languageId => MonacoDispose (mkDisposable languageId))
                  languages.
Proof.
  exists (mkProvider options (analyzers (new options))
                     (List.map mkDisposable languages)).
  assert (createDefinitionProvider languages options
          = (List.map MonacoRegister languages,
             Normal (mkProvider options (analyzers (new options))
                                (List.map mkDisposable languages)))) as E.
  { unfold createDefinitionProvider, ret. rewrite create_loop. reflexivity. }
  split; [exact E|]. repeat split.
  unfold dispose, ret. rewrite dispose_loop. cbn.
  rewrite app_nil_r. by rewrite List.map_map.
Qed.

End Provider.

(* ===================================================================== *)
(** * [getLineColumn]                                                     *)
(* ===================================================================== *)

Section LineColumn.
Import JS Types Common Spec Cover.

Lemma split_total_length (s : jsstring) :
  list_sum (List.map (fun l => S (length l)) (split NL s)) = S (length s).
Proof.
  induction s as [|c s IH]; [reflexivity|].
  destruct (N.eq_dec c NL) as [->|Hc].
  - rewrite split_cons_nl. simpl in *. lia.
  - destruct (split_cons_other c s Hc) as (l & ls & E1 & E2).
    rewrite E2. rewrite E1 in IH. simpl in *. lia.
Qed.

Lemma removelast_last (l : list jsstring) :
  l <> [] -> l = removelast l ++ [List.last l []].
Proof. intros H. by apply app_removelast_last. Qed.

Lemma list_sum_snoc {A} (f : A -> nat) l x :
  list_sum (List.map f (l ++ [x])) = (list_sum (List.map f l) + f x)%nat.
Proof. induction l as [|a l IH]; simpl; lia. Qed.

Lemma split_length_before_last (s : jsstring) :
  (list_sum (List.map (fun l => S (length l)) (removelast (split NL s)))
   + length (last_line s) = length s)%nat.
Proof.
  pose proof (split_total_length s) as H.
  rewrite (removelast_last (split NL s) (split_not_nil NL s)) in H.
  rewrite list_sum_snoc in H. unfold last_line. lia.
Qed.

(** X8. [getLineColumn(source, index)] is the position of the offset
    [index] (of the end of the text when [index] is beyond it): a line of
    the text, a column between 1 and one past the length of that line, and
    as many code units before that position as [index] says. *)
Theorem getLineColumn_is_the_position_of_the_offset source index :
  let position := getLineColumn source index in
  1 <= fst position <= lineCount source
  /\ 1 <= snd position <= lineLength source (fst position) + 1
  /\ offsetAt source (fst position) (snd position)
     = Z.of_nat (Nat.min index (length source)).
Proof.
  intros position. subst position. rewrite getLineColumn_eq. cbn [fst snd].
  set (before := firstn index source).
  destruct (split_app before (skipn index source)) as (l & ls & E1 & E2).
  unfold before in E2 at 1. rewrite firstn_skipn in E2.
  set (n := length (split NL before)).
  assert (1 <= n)%nat as Hn.
  { unfold n. pose proof (split_not_nil NL before).
    destruct (split NL before); [congruence|simpl; lia]. }
  assert (length (removelast (split NL before)) = (n - 1)%nat) as Hr
    by apply length_removelast.
  unfold lineCount, lineLength, offsetAt. rewrite E2.
  replace (Z.to_nat (Z.of_nat n - 1)) with
    (length (removelast (split NL before))) by lia.
  rewrite nth_middle, List.firstn_app, Nat.sub_diag, List.firstn_all.
  cbn [firstn]. rewrite app_nil_r, !length_app. cbn [length].
  pose proof (split_length_before_last before) as Hsum.
  assert (length before = Nat.min index (length source)) as Hb
    by apply length_firstn.
  repeat split; lia.
Qed.

End LineColumn.

(* ===================================================================== *)
(** * [getSymbolAtPosition] inside the text                               *)
(* ===================================================================== *)

Section SymbolAtPosition.
Import JS Types Common Spec Cover.

Lemma skipn_nil_at (s : jsstring) e : nth_error s e = None -> skipn e s = [].
Proof. intros H. apply List.skipn_all2. by apply nth_error_None. Qed.

(** A star over a character class is [greedy]. *)
Lemma repeat_chr s ml p c :
  forall fuel e caps,
    (length (skipn e s) < fuel)%nat ->
    JS.repeat fuel (JS.matcher s ml (Chr p)) (mkState e caps) c
    = greedy p (skipn e s) e caps c.
Proof.
  induction fuel as [|fuel IH]; intros e caps Hf; [lia|].
  cbn [JS.repeat JS.matcher endIndex captures]. unfold char_at.
  destruct (nth_error s e) as [a|] eqn:Ea.
  - rewrite (skipn_char_at _ _ _ Ea) in *. cbn [greedy].
    destruct (p a); [|reflexivity].
    cbn [endIndex]. replace (S e =? e)%nat with false
      by (symmetry; apply Nat.eqb_neq; lia).
    rewrite IH; [reflexivity|]. simpl in Hf. lia.
  - rewrite (skipn_nil_at _ _ Ea). reflexivity.
Qed.

(** With a continuation that always succeeds, the longest run is taken. *)
Lemma greedy_total (g : MState -> MState) :
  forall l e caps,
    greedy is_word l e caps (fun y => Some (g y))
    = Some (g (mkState (e + length (word_prefix l)) caps)).
Proof.
  induction l as [|a l IH]; intros e caps; simpl.
  - do 3 f_equal. lia.
  - destruct (is_word a); simpl.
    + rewrite IH. do 3 f_equal. lia.
    + do 3 f_equal. lia.
Qed.

(** With a continuation that asks for the end of the input, the star
    succeeds exactly when the whole rest is a run. *)
Lemma at_eol_end (s : jsstring) e :
  (length s <= e)%nat -> at_eol s false e = true.
Proof.
  intros H. unfold at_eol, char_at.
  by rewrite (proj2 (nth_error_None s e) H).
Qed.

Lemma at_eol_inside (s : jsstring) e :
  (e < length s)%nat -> at_eol s false e = false.
Proof.
  intros H. unfold at_eol, char_at.
  destruct (nth_error s e) eqn:E; [reflexivity|].
  apply nth_error_None in E. lia.
Qed.

Lemma greedy_to_the_end s (g : MState -> MState) :
  forall l e caps,
    (e + length l = length s)%nat ->
    greedy is_word l e caps
      (fun y => if at_eol s false (endIndex y) then Some (g y) else None)
    = if forallb is_word l then Some (g (mkState (length s) caps)) else None.
Proof.
  induction l as [|a l IH]; intros e caps He; simpl in *.
  - rewrite at_eol_end by lia. do 3 f_equal. lia.
  - assert (Hne : at_eol s false e = false) by (apply at_eol_inside; lia).
    destruct (is_word a); simpl.
    + rewrite IH by lia. destruct (forallb is_word l); [reflexivity|].
      by rewrite Hne.
    + by rewrite Hne.
Qed.

(** [/(\w* )$/] at index [i]: a match exactly when the rest of the text
    is made of word characters. *)
Lemma match_at_WORD_BEFORE (s : jsstring) i :
  (i <= length s)%nat ->
  match_at s false (pattern WORD_BEFORE) i
  = if forallb is_word (skipn i s)
    then Some (mkState (length s) [(1%nat, (i, length s))]) else None.
Proof.
  intros Hi. unfold match_at, WORD_BEFORE, w.
  cbn [pattern cat foldr JS.matcher endIndex captures].
  etrans; [apply (repeat_chr s false is_word); rewrite length_skipn; lia|].
  rewrite (greedy_to_the_end s
             (fun y => mkState (endIndex y) ((1%nat, (i, endIndex y)) :: captures y)))
    by (rewrite length_skipn; lia).
  reflexivity.
Qed.

Lemma search_WORD_BEFORE (s : jsstring) :
  forall fuel i,
    (i + fuel = length s)%nat ->
    exists j,
      search s false (pattern WORD_BEFORE) fuel i
      = Some (j, mkState (length s) [(1%nat, (j, length s))])
      /\ (j <= length s)%nat
      /\ skipn j s = word_suffix (skipn i s).
Proof.
  induction fuel as [|fuel IH]; intros i Hi.
  - cbn [search]. rewrite match_at_WORD_BEFORE by lia.
    assert (E : skipn i s = []) by (apply List.skipn_all2; lia).
    rewrite E. simpl. exists i. rewrite E. repeat split; [lia].
  - cbn [search]. rewrite match_at_WORD_BEFORE by lia.
    destruct (forallb is_word (skipn i s)) eqn:Ew.
    + exists i. split; [reflexivity|]. split; [lia|].
      destruct (skipn i s); simpl in *; by rewrite ?Ew.
    + destruct (IH (S i)) as (j & E & Hj & Hs); [lia|].
      exists j. split; [exact E|]. split; [exact Hj|].
      rewrite Hs. destruct (nth_error s i) as [a|] eqn:Ea.
      * rewrite (skipn_char_at _ _ _ Ea) in *.
        change (word_suffix (a :: skipn (S i) s))
          with (if forallb is_word (a :: skipn (S i) s)
                then a :: skipn (S i) s else word_suffix (skipn (S i) s)).
        by rewrite Ew.
      * apply nth_error_None in Ea. lia.
Qed.

(** [before.match(/(\w* )$/)] always succeeds; its group is the longest
    suffix of word characters. *)
Lemma exec_WORD_BEFORE (s : jsstring) :
  exists m, exec WORD_BEFORE s = Some m /\ group m 1 = Some (word_suffix s).
Proof.
  unfold exec, exec_from. simpl (_ <? 0)%nat.
  replace (length s <? 0)%nat with false by (symmetry; apply Nat.ltb_ge; lia).
  destruct (search_WORD_BEFORE s (length s - 0) 0) as (j & E & Hj & Hs); [lia|].
  change (multiline WORD_BEFORE) with false. rewrite E.
  eexists. split; [reflexivity|].
  cbn [mk_match group capture captures Nat.eqb]. f_equal.
  change (skipn 0 s) with s in Hs. rewrite <- Hs. unfold substring.
  apply List.firstn_all2. rewrite length_skipn. lia.
Qed.

Lemma firstn_word_prefix (s : jsstring) :
  firstn (length (word_prefix s)) s = word_prefix s.
Proof.
  induction s as [|a s IH]; simpl; [reflexivity|].
  destruct (is_word a); simpl; [by rewrite IH|reflexivity].
Qed.

(** [after.match(/^(\w* )/)] always succeeds; its group is the longest
    prefix of word characters. *)
Lemma exec_WORD_AFTER (s : jsstring) :
  exists m, exec WORD_AFTER s = Some m /\ group m 1 = Some (word_prefix s).
Proof.
  unfold exec, exec_from.
  replace (length s <? 0)%nat with false by (symmetry; apply Nat.ltb_ge; lia).
  change (multiline WORD_AFTER) with false.
  assert (E : match_at s false (pattern WORD_AFTER) 0
              = Some (mkState (length (word_prefix s))
                              [(1%nat, (0%nat, length (word_prefix s)))])).
  { unfold match_at, WORD_AFTER, w.
    cbn [pattern cat foldr JS.matcher endIndex captures at_bol].
    etrans; [apply (repeat_chr s false is_word); rewrite length_skipn; lia|].
    change (skipn 0 s) with s.
    rewrite (greedy_total
               (fun y => mkState (endIndex y) ((1%nat, (0%nat, endIndex y)) :: captures y))).
    reflexivity. }
  destruct (length s - 0)%nat; cbn [search]; rewrite E;
    (eexists; split; [reflexivity|]);
    cbn [mk_match group capture captures Nat.eqb endIndex]; f_equal;
    unfold substring; change (skipn 0 s) with s; rewrite Nat.sub_0_r;
    apply firstn_word_prefix.
Qed.

Lemma word_prefix_spec (l : jsstring) :
  exists rest,
    l = word_prefix l ++ rest
    /\ Forall (fun c => is_word c = true) (word_prefix l)
    /\ no_word_at_start rest.
Proof.
  induction l as [|a l (rest & E & Hw & Hr)]; simpl.
  - exists []. repeat split. constructor.
  - destruct (is_word a) eqn:Ea.
    + exists rest. split; [simpl; congruence|]. split; [by constructor|exact Hr].
    + exists (a :: l). split; [reflexivity|]. split; [constructor|exact Ea].
Qed.

Lemma no_word_at_start_app (l l' : jsstring) :
  l <> [] -> no_word_at_start l -> no_word_at_start (l ++ l').
Proof. destruct l; [congruence|]. intros _ H. exact H. Qed.

Lemma word_suffix_spec (l : jsstring) :
  exists pre,
    l = pre ++ word_suffix l
    /\ Forall (fun c => is_word c = true) (word_suffix l)
    /\ no_word_at_end pre.
Proof.
  induction l as [|a l (pre & E & Hw & Hp)].
  - exists []. repeat split. constructor.
  - change (word_suffix (a :: l))
      with (if forallb is_word (a :: l) then a :: l else word_suffix l).
    destruct (forallb is_word (a :: l)) eqn:Ea.
    + exists []. split; [reflexivity|]. split; [|exact I].
      apply List.Forall_forall. intros c Hc.
      exact (proj1 (forallb_forall _ _) Ea c Hc).
    + exists (a :: pre). split; [simpl; congruence|]. split; [exact Hw|].
      unfold no_word_at_end in *. cbn [rev].
      destruct pre as [|b pre].
      * simpl in E. rewrite <- E in Hw. simpl in Ea.
        destruct (is_word a) eqn:Ew; [|exact Ew].
        simpl in Ea. apply not_true_iff_false in Ea. exfalso. apply Ea.
        apply forallb_forall. intros c Hc.
        exact (proj1 (List.Forall_forall _ _) Hw c Hc).
      * apply no_word_at_start_app; [|exact Hp].
        simpl. intros Hn. apply app_eq_nil in Hn. destruct Hn; discriminate.
Qed.

(** What [getSymbolAtPosition] computes inside the text: the word
    characters that end at the cursor followed by those that start at it. *)
Lemma getSymbolAtPosition_in_range source line column :
  1 <= line <= lineCount source ->
  1 <= column <= lineLength source line + 1 ->
  Common.getSymbolAtPosition source line column
  = let lineText := nth (Z.to_nat (line - 1)) (split NL source) [] in
    let k := Z.to_nat (column - 1) in
    match word_suffix (firstn k lineText) ++ word_prefix (skipn k lineText) with
    | [] => None
    | word => Some word
    end.
Proof.
  unfold Common.getSymbolAtPosition, lineCount, lineLength. intros Hl Hc.
  cbv zeta.
  replace (line <? 1) with false by (symmetry; apply Z.ltb_ge; lia).
  replace (Z.of_nat (length (split NL source)) <? line) with false
    by (symmetry; apply Z.ltb_ge; lia).
  replace (column <? 1) with false by (symmetry; apply Z.ltb_ge; lia).
  match goal with
  | |- context [?a + 1 <? column] =>
      replace (a + 1 <? column) with false by (symmetry; apply Z.ltb_ge; lia)
  end.
  cbn [orb].
  set (lineText := nth (Z.to_nat (line - 1)) (split NL source) []).
  set (k := Z.to_nat (column - 1)).
  unfold substring, substring_from. change (skipn 0 lineText) with lineText.
  rewrite Nat.sub_0_r.
  destruct (exec_WORD_BEFORE (firstn k lineText)) as (mb & Eb & Gb).
  destruct (exec_WORD_AFTER (skipn k lineText)) as (ma & Ea & Ga).
  rewrite Eb, Ea. cbn [mbind option_bind]. rewrite Gb, Ga.
  assert (P : forall l : jsstring, default [] (or_else (Some l) (Some [])) = l).
  { intros [|c l]; reflexivity. }
  rewrite !P.
  destruct (word_suffix (firstn k lineText) ++ word_prefix (skipn k lineText));
    reflexivity.
Qed.

Lemma getSymbolAtPosition_some_in_range source line column word :
  Common.getSymbolAtPosition source line column = Some word ->
  1 <= line <= lineCount source /\ 1 <= column <= lineLength source line + 1.
Proof.
  intros H.
  destruct (Z_lt_le_dec line 1) as [L1|L1];
    [rewrite getSymbolAtPosition_line_out_of_range in H by lia; discriminate|].
  destruct (Z_lt_le_dec (lineCount source) line) as [L2|L2];
    [rewrite getSymbolAtPosition_line_out_of_range in H by lia; discriminate|].
  destruct (Z_lt_le_dec column 1) as [C1|C1];
    [rewrite getSymbolAtPosition_column_out_of_range in H by lia; discriminate|].
  destruct (Z_lt_le_dec (lineLength source line + 1) column) as [C2|C2];
    [rewrite getSymbolAtPosition_column_out_of_range in H by lia; discriminate|].
  lia.
Qed.

(** X9. The identifier that [getSymbolAtPosition] of either analyzer
    returns is the maximal run of word characters of the addressed line
    that touches the cursor: it is not empty, lies in the line with the
    cursor inside it or at one of its two ends, and is neither preceded
    nor followed by a word character. It returns [null] inside the text
    only where neither the character before the cursor nor the one at the
    cursor is a word character. *)
Theorem symbol_at_position_is_the_word_at_the_cursor
        (source : jsstring) (line column : Z) :
  let lineText := nth (Z.to_nat (line - 1)) (split NL source) [] in
  let k := Z.to_nat (column - 1) in
  Forall (fun getSymbolAtPosition =>
            match getSymbolAtPosition source line column with
            | Some word =>
                1 <= line <= lineCount source
                /\ word <> []
                /\ Forall (fun c => is_word c = true) word
                /\ exists pre post,
                     lineText = pre ++ word ++ post
                     /\ Z.of_nat (length pre) <= column - 1
                        <= Z.of_nat (length pre + length word)
                     /\ no_word_at_end pre
                     /\ no_word_at_start post
            | None =>
                1 <= line <= lineCount source ->
                1 <= column <= lineLength source line + 1 ->
                no_word_at_end (firstn k lineText)
                /\ no_word_at_start (skipn k lineText)
            end)
         [PythonAnalyzer.getSymbolAtPosition;
          TypeScriptAnalyzer.getSymbolAtPosition].
Proof.
  intros lineText k.
  assert (H : match Common.getSymbolAtPosition source line column with
              | Some word =>
                  1 <= line <= lineCount source
                  /\ word <> []
                  /\ Forall (fun c => is_word c = true) word
                  /\ exists pre post,
                       lineText = pre ++ word ++ post
                       /\ Z.of_nat (length pre) <= column - 1
                          <= Z.of_nat (length pre + length word)
                       /\ no_word_at_end pre
                       /\ no_word_at_start post
              | None =>
                  1 <= line <= lineCount source ->
                  1 <= column <= lineLength source line + 1 ->
                  no_word_at_end (firstn k lineText)
                  /\ no_word_at_start (skipn k lineText)
              end).
  { destruct (word_suffix_spec (firstn k lineText)) as (pre & Eb & Wb & Nb).
    destruct (word_prefix_spec (skipn k lineText)) as (post & Ea & Wa & Na).
    destruct (Common.getSymbolAtPosition source line column) as [word|] eqn:E.
    - destruct (getSymbolAtPosition_some_in_range _ _ _ _ E) as [Hl Hc].
      rewrite (getSymbolAtPosition_in_range _ _ _ Hl Hc) in E. cbv zeta in E.
      fold lineText k in E.
      assert (Hw : word = word_suffix (firstn k lineText)
                          ++ word_prefix (skipn k lineText)
                   /\ word <> []).
      { destruct (_ ++ _) as [|c l] eqn:Ew in E; [discriminate|].
        injection E as <-. split; [symmetry; exact Ew|discriminate]. }
      destruct Hw as [Hw Hne].
      split; [exact Hl|]. split; [exact Hne|].
      split; [rewrite Hw; apply Forall_app; by split|].
      exists pre, post. split.
      + rewrite <- (firstn_skipn k lineText) at 1.
        rewrite Eb at 1. rewrite Ea at 1. rewrite Hw.
        by rewrite <- !app_assoc.
      + split; [|by split].
        assert (Hk : length (firstn k lineText) = k).
        { apply firstn_length_le. unfold lineLength in Hc. fold lineText in Hc.
          lia. }
        rewrite Eb, length_app in Hk. rewrite Hw, length_app. lia.
    - intros Hl Hc.
      rewrite (getSymbolAtPosition_in_range _ _ _ Hl Hc) in E. cbv zeta in E.
      fold lineText k in E.
      destruct (word_suffix (firstn k lineText)) eqn:E1; [|discriminate].
      destruct (word_prefix (skipn k lineText)) eqn:E2; [|discriminate].
      rewrite app_nil_r in Eb. simpl in Ea. rewrite Eb, Ea. by split. }
  repeat constructor; exact H.
Qed.

End SymbolAtPosition.

(* ===================================================================== *)
(** * What the capture groups hold                                        *)
(* ===================================================================== *)

Section Captures.
Import JS Types Common Spec Cover.

Variable input : jsstring.
Variable ml : bool.

(** A match either leaves group [n] as it was, through a pattern that
    does not force the group, or sets it to a span that a body of the
    group matched. *)
Lemma Matches_capture n r x y :
  Matches input ml r x y ->
  (capture n (captures y) = capture n (captures x) /\ sets_group n r = false)
  \/ exists r1 x1 y1,
       In r1 (bodies n r) /\ Matches input ml r1 x1 y1
       /\ (endIndex x <= endIndex x1)%nat /\ (endIndex y1 <= endIndex y)%nat
       /\ capture n (captures y) = Some (endIndex x1, endIndex y1).
Proof.
  induction 1 as [x|p x a Ha Hp|r1 r2 x y z H1 IH1 H2 IH2|r1 r2 x y H IH
                  |r1 r2 x y H IH|r x|r x y z H1 IH1 Hne H2 IH2|r x
                  |r x y H IH Hne|k r x y H IH|x Hb|x He|x Hw];
    cbn [bodies sets_group captures]; try (left; split; reflexivity).
  - pose proof (Matches_le _ _ _ _ _ H1). pose proof (Matches_le _ _ _ _ _ H2).
    destruct IH2 as [[E2 S2]|(r' & x1 & y1 & Hin & Hm & L1 & L2 & E)].
    + destruct IH1 as [[E1 S1]|(r' & x1 & y1 & Hin & Hm & L1 & L2 & E)].
      * left. rewrite E2, E1, S1, S2. by split.
      * right. exists r', x1, y1. rewrite E2.
        split; [apply in_or_app; by left|]. repeat split; auto; lia.
    + right. exists r', x1, y1. split; [apply in_or_app; by right|].
      repeat split; auto; lia.
  - destruct IH as [[E S]|(r' & x1 & y1 & Hin & Hm & L1 & L2 & E)].
    + left. rewrite E, S. by split.
    + right. exists r', x1, y1. split; [apply in_or_app; by left|by repeat split].
  - destruct IH as [[E S]|(r' & x1 & y1 & Hin & Hm & L1 & L2 & E)].
    + left. rewrite E, S, andb_false_r. by split.
    + right. exists r', x1, y1. split; [apply in_or_app; by right|by repeat split].
  - pose proof (Matches_le _ _ _ _ _ H1). pose proof (Matches_le _ _ _ _ _ H2).
    destruct IH2 as [[E2 _]|(r' & x1 & y1 & Hin & Hm & L1 & L2 & E)].
    + destruct IH1 as [[E1 _]|(r' & x1 & y1 & Hin & Hm & L1 & L2 & E)].
      * left. rewrite E2, E1. by split.
      * right. exists r', x1, y1. rewrite E2. repeat split; auto; lia.
    + right. exists r', x1, y1. repeat split; auto; lia.
  - destruct IH as [[E _]|(r' & x1 & y1 & Hin & Hm & L1 & L2 & E)].
    + left. by split.
    + right. exists r', x1, y1. by repeat split.
  - cbn [capture endIndex]. destruct (k =? n)%nat eqn:Ek.
    + right. exists r, x, y. split; [by left|]. repeat split; auto.
    + destruct IH as [[E S]|(r' & x1 & y1 & Hin & Hm & L1 & L2 & E)].
      * left. rewrite E, S. by split.
      * right. exists r', x1, y1. by repeat split.
Qed.

End Captures.

Section Groups.
Import JS Types Common Spec Cover.

(** Group [n] of a successful [exec]: when defined it is a text that a
    body of the group matched; it is undefined only for a pattern that
    does not force the group. *)
Lemma exec_group re input from m n :
  exec_from re input from = Some m ->
  match n, group m n with
  | O, _ => True
  | _, Some s =>
      forall Q k, captures_text n (pattern re) Q k -> text_of Q k s
  | _, None => sets_group n (pattern re) = false
  end.
Proof.
  intros H. destruct n as [|n]; [exact I|].
  apply exec_from_sound in H as (y & Hy & -> & Hi & _ & Hb).
  cbn [mk_match group].
  destruct (Matches_capture input (multiline re) (S n) _ _ _ Hy)
    as [[E S]|(r1 & x1 & y1 & Hin & Hm & L1 & L2 & E)].
  - cbn [captures capture] in E. rewrite E. exact S.
  - rewrite E. intros Q k HF. unfold captures_text in HF.
    rewrite List.Forall_forall in HF. destruct (HF _ Hin) as [HQ Hk].
    pose proof (Matches_min_len _ _ _ _ _ Hm) as Hlen.
    pose proof (Matches_consumes _ _ Q _ _ _ Hm HQ) as Hc.
    split.
    + simpl in L1. rewrite length_substring; lia.
    + by apply Forall_substring.
Qed.

End Groups.

(* ===================================================================== *)
(** * The names of the emitted definitions                                *)
(* ===================================================================== *)

Section Names.
Import JS Types Common Spec Cover.

#[local] Abbreviation word := (fun c : char => is_word c = true).

Lemma forced_group re input from m n Q k :
  exec_from re input from = Some m ->
  sets_group (S n) (pattern re) = true ->
  captures_text (S n) (pattern re) Q k ->
  group m (S n) = Some (grp m (S n)) /\ text_of Q k (grp m (S n)).
Proof.
  intros H Hs Hc. pose proof (exec_group _ _ _ _ (S n) H) as G.
  cbv beta iota in G. revert G. unfold grp.
  destruct (group m (S n)) as [s|]; intros G; [|congruence].
  split; [reflexivity|by apply G].
Qed.

Lemma optional_group re input from m n s Q k :
  exec_from re input from = Some m ->
  group m (S n) = Some s ->
  captures_text (S n) (pattern re) Q k ->
  text_of Q k s.
Proof.
  intros H Hs Hc. pose proof (exec_group _ _ _ _ (S n) H) as G.
  cbv beta iota in G. rewrite Hs in G. by apply G.
Qed.

Lemma text_of_identifier s : text_of word 1 s -> identifier s.
Proof. intros [Hl HF]. split; [|exact HF]. destruct s; simpl in *; [lia|discriminate]. Qed.

(** [/^\w+$/.test(name)] holds of texts of word characters only. *)
Lemma test_WORD_ONLY name :
  test WORD_ONLY name = true -> Forall word name.
Proof.
  unfold test, exec. destruct (exec_from WORD_ONLY name 0) as [m|] eqn:E; [|discriminate].
  intros _. apply exec_from_sound in E as (y & Hy & _ & Hi & _ & Hb).
  unfold WORD_ONLY in Hy. cbn [pattern multiline cat foldr] in Hy.
  inversion Hy as [| |? ? ? y1 ? H1 H2| | | | | | | | | |]; subst.
  inversion H1 as [| | | | | | | | | |? Hbol| |]; subst.
  inversion H2 as [| |? ? ? y2 ? H3 H4| | | | | | | | | |]; subst.
  inversion H4 as [| |? ? ? y3 ? H5 H6| | | | | | | | | |]; subst.
  inversion H5 as [| | | | | | | | | | |? Heol|]; subst.
  cbn [endIndex] in Hbol. destruct (index m) as [|i] eqn:Ei; [|discriminate].
  unfold at_eol in Heol. destruct (char_at name (endIndex y3)) eqn:Ec; [discriminate|].
  apply nth_error_None in Ec.
  pose proof (Matches_consumes _ _ word _ _ _ H3) as Hc.
  assert (Es : substring 0 (length name) name = name).
  { unfold substring. change (skipn 0 name) with name.
    rewrite Nat.sub_0_r. apply List.firstn_all. }
  rewrite <- Es. apply Forall_substring. intros j Hj. apply Hc.
  - simpl. split; auto.
  - simpl. lia.
Qed.

Lemma import_item_identifier lines line defs imp (P : SymbolDefinition -> Prop) :
  (forall d, identifier (name d) -> kind d = import -> P d) ->
  Forall P defs -> Forall P (import_item lines line defs imp).
Proof.
  intros HP H. unfold import_item.
  destruct (truthy _ && test WORD_ONLY _) eqn:E; [|exact H].
  apply andb_true_iff in E as [Et Ew].
  apply Forall_push; [exact H|]. apply HP; [|reflexivity]. cbn [name].
  split; [|by apply test_WORD_ONLY].
  destruct (trim _); [discriminate|discriminate].
Qed.

(** The last piece of [s.split(sep)]: the text after the last separator. *)
Lemma split_last_piece sep (s : jsstring) :
  exists pre seg,
    pop (split sep s) = Some seg
    /\ s = pre ++ seg
    /\ Forall (fun c => c <> sep) seg
    /\ (pre = [] \/ List.last pre 0%N = sep)
    /\ (pre = [] <-> tail (split sep s) = []).
Proof.
  unfold pop. induction s as [|c s (pre & seg & El & Es & Hseg & Hpre & Hiff)].
  - exists [], []. repeat split; auto.
  - cbn [split]. destruct (N.eqb_spec c sep) as [->|Hc].
    + exists (sep :: pre), seg. split.
      { destruct (split sep s) eqn:E; [by apply split_not_nil in E|exact El]. }
      split; [simpl; congruence|]. split; [exact Hseg|]. split.
      * right. destruct Hpre as [->|Hl]; [reflexivity|].
        destruct pre; [reflexivity|exact Hl].
      * split; [discriminate|]. simpl. intros E. by apply split_not_nil in E.
    + destruct (split sep s) as [|hd tl] eqn:E; [by apply split_not_nil in E|].
      destruct tl as [|t tl].
      * simpl in El. injection El as <-.
        assert (pre = []) as -> by (apply Hiff; reflexivity).
        exists [], (c :: hd). simpl in Es. subst s.
        repeat split; auto.
      * exists (c :: pre), seg. split; [exact El|].
        split; [simpl; congruence|]. split; [exact Hseg|].
        assert (pre <> []) as Hne.
        { intros Hp. apply Hiff in Hp. discriminate. }
        split; [|split; [discriminate|simpl; discriminate]].
        right. destruct Hpre as [?|Hl]; [contradiction|].
        destruct pre; [contradiction|exact Hl].
Qed.

#[local] Abbreviation py_name := (fun d : SymbolDefinition =>
  identifier (name d) \/ (kind d = import /\ dotted_to_the_end (name d))).

Ltac group_is_word H n :=
  let G := fresh "G" in
  let T := fresh "T" in
  destruct (forced_group _ _ _ _ n (fun c => is_word c = true) 1%nat H)
    as [G T];
  [vm_compute; reflexivity
  |unfold captures_text; simpl; repeat constructor; simpl; auto
  |apply text_of_identifier in T].

Lemma py_import_simple_name source from m :
  exec_from PythonAnalyzer.IMPORT_SIMPLE source from = Some m ->
  let moduleName :=
    default []
      (or_else (or_else (group m 2) (pop (split (ch ".") (grp m 1))))
               (group m 1)) in
  identifier moduleName \/ dotted_to_the_end moduleName.
Proof.
  intros H.
  destruct (forced_group _ _ _ _ 0 (fun c => word_or_dot c = true) 1%nat H)
    as [G1 [L1 F1]];
    [vm_compute; reflexivity
    |unfold captures_text; simpl; repeat constructor; simpl; auto|].
  destruct (group m 2) as [s2|] eqn:G2.
  - left.
    assert (I2 : identifier s2).
    { apply text_of_identifier.
      apply (optional_group _ _ _ _ 1 s2 _ 1%nat H G2).
      unfold captures_text; simpl; repeat constructor; simpl; auto. }
    destruct s2 as [|c s2]; [destruct I2; congruence|]. exact I2.
  - destruct (split_last_piece (ch ".") (grp m 1))
      as (pre & seg & El & Es & Hseg & Hpre & _).
    rewrite El, G1. unfold or_else at 2. cbn [truthy].
    destruct seg as [|c seg].
    + right. cbn [or_else truthy default].
      rewrite app_nil_r in Es. subst pre.
      assert (Hne : grp m 1 <> []) by (destruct (grp m 1); simpl in *; [lia|discriminate]).
      destruct (grp m 1) eqn:E; [congruence|]. cbn [truthy default].
      rewrite <- E in *. split; [exact Hne|]. split; [exact F1|].
      destruct Hpre as [?|Hl]; [congruence|exact Hl].
    + left. cbn [or_else truthy default]. split; [discriminate|].
      rewrite Es in F1. apply Forall_app in F1 as [_ F1].
      rewrite List.Forall_forall in *. intros a Ha.
      specialize (F1 a Ha). specialize (Hseg a Ha). cbv beta in *.
      unfold word_or_dot, is_char in F1.
      apply orb_true_iff in F1 as [F1|F1]; [exact F1|].
      apply N.eqb_eq in F1. contradiction.
Qed.

Lemma py_findDefinitions_names source :
  Forall py_name (PythonAnalyzer.findDefinitions source).
Proof.
  unfold PythonAnalyzer.findDefinitions, PythonAnalyzer.findImports.
  apply loop_preserves_In.
  { intros acc m Hin Hacc. apply exec_all_In in Hin as [from Hm].
    unfold PythonAnalyzer.import_simple_step.
    apply Forall_push; [exact Hacc|]. cbn [name kind].
    destruct (py_import_simple_name _ _ _ Hm); auto. }
  apply loop_preserves.
  { intros acc m Hacc. unfold PythonAnalyzer.import_from_step.
    apply loop_preserves; [|exact Hacc].
    intros acc' imp Hacc'. apply import_item_identifier; auto. }
  apply (loop_preserves_snd_In py_name).
  { intros [seen acc] m Hin Hacc. apply exec_all_In in Hin as [from Hm].
    group_is_word Hm 1%nat.
    unfold PythonAnalyzer.variable_step.
    repeat case_match; simpl in *; auto. apply Forall_push; auto. }
  apply loop_preserves_In.
  { intros acc m Hin Hacc. apply exec_all_In in Hin as [from Hm].
    group_is_word Hm 1%nat.
    unfold PythonAnalyzer.class_step. apply Forall_push; auto. }
  apply loop_preserves_In; [|constructor].
  intros acc m Hin Hacc. apply exec_all_In in Hin as [from Hm].
  unfold PythonAnalyzer.function_step.
  rewrite (findParameters_of_function_match _ _ _ _ _ Hm).
  group_is_word Hm 1%nat.
  apply Forall_push; auto.
Qed.

Lemma ts_findDefinitions_names source :
  Forall (fun d => identifier (name d)) (TypeScriptAnalyzer.findDefinitions source).
Proof.
  unfold TypeScriptAnalyzer.findDefinitions, TypeScriptAnalyzer.findImports.
  assert (Hdecl : forall re k acc m,
             sets_group 2 (pattern re) = true ->
             captures_text 2 (pattern re) (fun c => is_word c = true) 1 ->
             In m (exec_all re source) ->
             Forall (fun d => identifier (name d)) acc ->
             Forall (fun d => identifier (name d))
                    (TypeScriptAnalyzer.declaration_step k source acc m)).
  { intros re k acc m Hs Hc Hin Hacc. apply exec_all_In in Hin as [from Hm].
    destruct (forced_group _ _ _ _ 1 _ _ Hm Hs Hc) as [_ T%text_of_identifier].
    unfold TypeScriptAnalyzer.declaration_step. by apply Forall_push. }
  assert (Hsingle : forall re acc m,
             sets_group 1 (pattern re) = true ->
             captures_text 1 (pattern re) (fun c => is_word c = true) 1 ->
             In m (exec_all re source) ->
             Forall (fun d => identifier (name d)) acc ->
             Forall (fun d => identifier (name d))
                    (TypeScriptAnalyzer.import_single_step source (split NL source) acc m)).
  { intros re acc m Hs Hc Hin Hacc. apply exec_all_In in Hin as [from Hm].
    destruct (forced_group _ _ _ _ 0 _ _ Hm Hs Hc) as [_ T%text_of_identifier].
    unfold TypeScriptAnalyzer.import_single_step. by apply Forall_push. }
  apply loop_preserves_In.
  { intros acc m. apply Hsingle; [vm_compute; reflexivity|].
    unfold captures_text; simpl; repeat constructor; simpl; auto. }
  apply loop_preserves_In.
  { intros acc m. apply Hsingle; [vm_compute; reflexivity|].
    unfold captures_text; simpl; repeat constructor; simpl; auto. }
  apply loop_preserves.
  { intros acc m Hacc. unfold TypeScriptAnalyzer.import_named_step.
    apply loop_preserves; [|exact Hacc].
    intros acc' imp Hacc'. apply import_item_identifier; auto. }
  apply (loop_preserves_snd_In (fun d => identifier (name d))).
  { intros [seen acc] m Hin Hacc.
    unfold TypeScriptAnalyzer.variable_step.
    repeat case_match; simpl in *; auto.
    eapply Hdecl; [| |exact Hin|exact Hacc]; [vm_compute; reflexivity|].
    unfold captures_text; simpl; repeat constructor; simpl; auto. }
  unfold TypeScriptAnalyzer.findTypes, TypeScriptAnalyzer.findInterfaces,
    TypeScriptAnalyzer.findClasses, TypeScriptAnalyzer.findArrowFunctions,
    TypeScriptAnalyzer.findFunctions.
  repeat (apply loop_preserves_In;
          [intros acc m; apply Hdecl; [vm_compute; reflexivity|];
           unfold captures_text; simpl; repeat constructor; simpl; auto|]).
  constructor.
Qed.

(** X10. Every definition the TypeScript scanner emits is named by an
    identifier, a non-empty text of word characters. So is every
    definition of the Python scanner but the plain import of a dotted
    path that ends with a dot, which is named by the whole path, as in
    [import os.]. *)
Theorem emitted_names_are_identifiers source d :
  (In d (PythonAnalyzer.findDefinitions source) ->
   identifier (name d) \/ (kind d = import /\ dotted_to_the_end (name d)))
  /\ (In d (TypeScriptAnalyzer.findDefinitions source) -> identifier (name d))
  /\ PythonAnalyzer.findDefinitions (js "import os.")
     = [mkDef (js "os.") 1 1 1 10 import].
Proof.
  split; [|split].
  - intros Hin. pose proof (py_findDefinitions_names source) as HF.
    rewrite List.Forall_forall in HF. by apply HF.
  - intros Hin. pose proof (ts_findDefinitions_names source) as HF.
    rewrite List.Forall_forall in HF. by apply HF.
  - vm_compute. reflexivity.
Qed.

End Names.

(* ===================================================================== *)
(** * The paths [getImportPath] returns                                   *)
(* ===================================================================== *)

Section Paths.
Import JS Types Common Spec Cover.

Lemma bodies_Lit n s : bodies n (Lit s) = [].
Proof. induction s as [|c s IH]; simpl; [reflexivity|exact IH]. Qed.

Lemma sets_group_Lit n s : sets_group n (Lit s) = false.
Proof. induction s as [|c s IH]; simpl; [reflexivity|exact IH]. Qed.

Lemma min_len_Lit s : min_len (Lit s) = length s.
Proof. induction s as [|c s IH]; simpl; [reflexivity|by rewrite IH]. Qed.

Lemma consumes_only_Lit (Q : char -> Prop) s :
  Forall Q s -> consumes_only Q (Lit s).
Proof.
  induction 1 as [|c s Hc _ IH]; simpl; [exact I|].
  split; [|exact IH]. intros a Ha. apply N.eqb_eq in Ha. by subst.
Qed.

Ltac forced := cbn [pattern cat foldr sets_group Nat.eqb orb andb TypeScriptAnalyzer.quoted];
               rewrite ?sets_group_Lit; reflexivity.

Ltac bodies_of :=
  unfold captures_text, kw;
  cbn [pattern cat foldr bodies Nat.eqb app TypeScriptAnalyzer.quoted Plus];
  rewrite ?bodies_Lit; cbn [app];
  repeat constructor.

Lemma path_of_match re source m (Q : char -> Prop) :
  exec re source = Some m ->
  sets_group 1 (pattern re) = true ->
  captures_text 1 (pattern re) Q 1 ->
  exists p, group m 1 = Some p /\ p <> [] /\ Forall Q p.
Proof.
  intros H Hs Hc.
  destruct (forced_group _ _ _ _ 0 Q 1%nat H Hs Hc) as [G [L F]].
  exists (grp m 1). split; [exact G|]. split; [|exact F].
  destruct (grp m 1); simpl in *; [lia|discriminate].
Qed.

Lemma word_is_word_or_dot a : is_word a = true -> word_or_dot a = true.
Proof. unfold word_or_dot. by intros ->. Qed.

Lemma py_path_patterns symbolName :
  identifier symbolName ->
  Forall (fun re => sets_group 1 (pattern re) = true
                    /\ captures_text 1 (pattern re)
                                     (fun c => word_or_dot c = true) 1)
         [PythonAnalyzer.fromPattern symbolName;
          PythonAnalyzer.asPattern symbolName;
          PythonAnalyzer.directPattern symbolName].
Proof.
  intros [Hne Hw].
  constructor; [split|constructor; [split|constructor; [split|constructor]]].
  - unfold PythonAnalyzer.fromPattern, kw. forced.
  - unfold PythonAnalyzer.fromPattern. bodies_of; simpl; auto.
  - unfold PythonAnalyzer.asPattern, kw. forced.
  - unfold PythonAnalyzer.asPattern. bodies_of; simpl; auto.
  - unfold PythonAnalyzer.directPattern, kw. forced.
  - unfold PythonAnalyzer.directPattern. bodies_of.
    + simpl. auto.
    + simpl. intros a Ha. unfold word_or_dot. by rewrite Ha, orb_true_r.
    + apply consumes_only_Lit. apply List.Forall_forall. intros a Ha.
      apply word_is_word_or_dot.
      rewrite List.Forall_forall in Hw. by apply Hw.
    + cbn [min_len]. rewrite min_len_Lit.
      destruct symbolName; simpl; [congruence|lia].
Qed.

Lemma ts_path_patterns symbolName :
  Forall (fun re => sets_group 1 (pattern re) = true
                    /\ captures_text 1 (pattern re)
                                     (fun c => quote c = false) 1)
         [TypeScriptAnalyzer.namedPattern symbolName;
          TypeScriptAnalyzer.defaultPattern symbolName;
          TypeScriptAnalyzer.namespacePattern symbolName].
Proof.
  assert (Hq : forall a, negb (quote a) = true -> quote a = false).
  { intros a. by destruct (quote a). }
  constructor; [split|constructor; [split|constructor; [split|constructor]]].
  - unfold TypeScriptAnalyzer.namedPattern, kw. forced.
  - unfold TypeScriptAnalyzer.namedPattern. bodies_of; simpl; auto.
  - unfold TypeScriptAnalyzer.defaultPattern, kw. forced.
  - unfold TypeScriptAnalyzer.defaultPattern. bodies_of; simpl; auto.
  - unfold TypeScriptAnalyzer.namespacePattern, kw. forced.
  - unfold TypeScriptAnalyzer.namespacePattern. bodies_of; simpl; auto.
Qed.

(** The first of three patterns that matches gives the path. *)
Lemma first_of_three (Q : char -> Prop) re1 re2 re3 source :
  Forall (fun re => sets_group 1 (pattern re) = true
                    /\ captures_text 1 (pattern re) Q 1) [re1; re2; re3] ->
  let result :=
    match exec re1 source with
    | Some m => group m 1
    | None =>
        match exec re2 source with
        | Some m => group m 1
        | None =>
            match exec re3 source with
            | Some m => group m 1
            | None => None
            end
        end
    end in
  (forall p, result = Some p -> p <> [] /\ Forall Q p)
  /\ (result = None <->
      exec re1 source = None /\ exec re2 source = None
      /\ exec re3 source = None).
Proof.
  intros HF. inversion_clear HF as [|? ? [S1 C1] HF2].
  inversion_clear HF2 as [|? ? [S2 C2] HF3].
  inversion_clear HF3 as [|? ? [S3 C3] _].
  cbv zeta.
  destruct (exec re1 source) as [m1|] eqn:E1.
  { destruct (path_of_match _ _ _ Q E1 S1 C1) as (p & -> & Hp).
    split; [by intros ? [= <-]|]. split; [discriminate|]. by intros [? _]. }
  destruct (exec re2 source) as [m2|] eqn:E2.
  { destruct (path_of_match _ _ _ Q E2 S2 C2) as (p & -> & Hp).
    split; [by intros ? [= <-]|]. split; [discriminate|]. by intros (_ & ? & _). }
  destruct (exec re3 source) as [m3|] eqn:E3.
  { destruct (path_of_match _ _ _ Q E3 S3 C3) as (p & -> & Hp).
    split; [by intros ? [= <-]|]. split; [discriminate|]. by intros (_ & _ & ?). }
  split; [discriminate|]. by split.
Qed.

(** X11. For an identifier, [getImportPath] of the Python analyzer
    returns either [null], exactly when none of its three patterns
    matches the text, or a non-empty path of word characters and dots;
    [getImportPath] of the TypeScript analyzer returns either [null], on
    the same condition, or a non-empty path without a quote character.
    Neither returns the empty string or [undefined]. *)
Theorem import_path_is_a_path source symbolName :
  identifier symbolName ->
  (forall p, PythonAnalyzer.getImportPath source symbolName = Some p ->
             p <> [] /\ Forall (fun c => word_or_dot c = true) p)
  /\ (PythonAnalyzer.getImportPath source symbolName = None <->
      exec (PythonAnalyzer.fromPattern symbolName) source = None
      /\ exec (PythonAnalyzer.asPattern symbolName) source = None
      /\ exec (PythonAnalyzer.directPattern symbolName) source = None)
  /\ (forall p, TypeScriptAnalyzer.getImportPath source symbolName = Some p ->
                p <> [] /\ Forall (fun c => quote c = false) p)
  /\ (TypeScriptAnalyzer.getImportPath source symbolName = None <->
      exec (TypeScriptAnalyzer.namedPattern symbolName) source = None
      /\ exec (TypeScriptAnalyzer.defaultPattern symbolName) source = None
      /\ exec (TypeScriptAnalyzer.namespacePattern symbolName) source = None).
Proof.
  intros Hid.
  destruct (first_of_three _ _ _ _ source (py_path_patterns symbolName Hid))
    as [P1 P2].
  destruct (first_of_three _ _ _ _ source (ts_path_patterns symbolName))
    as [T1 T2].
  split; [exact P1|]. split; [exact P2|]. split; [exact T1|exact T2].
Qed.

End Paths.

(* ===================================================================== *)
(** * The scans, loop by loop                                             *)
(* ===================================================================== *)

Section Scans.
Import JS Types Common Spec Cover.

#[local] Abbreviation kept := (fun (seen : gset (nat * jsstring)) (m : RegExpMatch) =>
                    negb (bool_decide (binding_key m ∈ seen))).
#[local] Abbreviation ordinary := (fun m : RegExpMatch => negb (py_special (grp m 2))).

(** One turn of the loop of the Python [findVariables]: the key is
    recorded before the name is looked at. *)
Lemma py_variable_step_cases source seen definitions m :
  PythonAnalyzer.variable_step source (seen, definitions) m
  = if py_variable_binding m then
      if bool_decide (binding_key m ∈ seen) then (seen, definitions)
      else (seen ∪ {[binding_key m]},
            if py_special (grp m 2) then definitions
            else definitions ++ [py_definition variable 0 source m])
    else (seen, definitions).
Proof.
  unfold PythonAnalyzer.variable_step, py_variable_binding, binding_key,
    py_special, py_definition.
  cbv beta iota zeta.
  destruct (4 <? length (grp m 1))%nat; cbn [negb]; [reflexivity|].
  destruct (bool_decide _); [reflexivity|].
  rewrite Nat.add_0_r.
  destruct (startsWith (js "_") (grp m 2)
            && negb (jsstring_eqb (grp m 2) (js "_"))); reflexivity.
Qed.

Lemma py_variable_loop source l :
  forall seen definitions,
    snd (fold_left (PythonAnalyzer.variable_step source) l (seen, definitions))
    = definitions
      ++ List.map (py_definition variable 0 source)
           (List.filter ordinary
              (List.filter (kept seen)
                 (first_by_key (List.filter py_variable_binding l)))).
Proof.
  induction l as [|m l IH]; intros seen definitions.
  - simpl. by rewrite app_nil_r.
  - cbn [fold_left List.filter]. rewrite py_variable_step_cases.
    destruct (py_variable_binding m) eqn:E1; [|apply IH].
    cbn [first_by_key List.filter].
    destruct (bool_decide (binding_key m ∈ seen)) eqn:E3; cbn beta.
    + apply bool_decide_eq_true in E3.
      rewrite (bool_decide_eq_true_2 _ E3). cbn [negb].
      rewrite IH. by rewrite keep_seen_key.
    + apply bool_decide_eq_false in E3.
      rewrite (bool_decide_eq_false_2 _ E3). cbn [negb List.filter].
      rewrite IH, keep_added_key.
      destruct (py_special (grp m 2)); cbn [negb List.map]; [reflexivity|].
      by rewrite <- app_assoc.
Qed.

(** A loop that only pushes is a [flat_map]. *)
Lemma pushing_loop {A B} (f : list A -> B -> list A) (g : B -> list A) l :
  (forall acc b, In b l -> f acc b = acc ++ g b) ->
  forall acc, fold_left f l acc = acc ++ flat_map g l.
Proof.
  induction l as [|b l IH]; intros Hf acc; simpl.
  - by rewrite app_nil_r.
  - rewrite IH by (intros; apply Hf; by right).
    rewrite Hf by (by left). by rewrite <- app_assoc.
Qed.

Lemma flat_map_singleton {A B} (g : B -> A) l :
  flat_map (fun b => [g b]) l = List.map g l.
Proof. induction l as [|b l IH]; simpl; [reflexivity|by rewrite IH]. Qed.

Lemma pushing_loop_map {A B} (f : list A -> B -> list A) (g : B -> A) l :
  (forall acc b, In b l -> f acc b = acc ++ [g b]) ->
  forall acc, fold_left f l acc = acc ++ List.map g l.
Proof.
  intros Hf acc. rewrite <- flat_map_singleton. by apply pushing_loop.
Qed.

Lemma import_items_loop lines line items :
  forall acc,
    fold_left (import_item lines line) items acc
    = acc ++ fold_left (import_item lines line) items [].
Proof.
  induction items as [|imp items IH]; intros acc; simpl.
  - by rewrite app_nil_r.
  - rewrite IH. rewrite (IH (import_item lines line [] imp)).
    rewrite app_assoc. f_equal. unfold import_item, push.
    destruct (truthy _ && test WORD_ONLY _); [reflexivity|by rewrite app_nil_r].
Qed.

Lemma py_findVariables_eq source lines definitions :
  PythonAnalyzer.findVariables source lines definitions
  = definitions
    ++ List.map (py_definition variable 0 source)
         (List.filter ordinary
            (first_by_key
               (List.filter py_variable_binding
                  (exec_all PythonAnalyzer.VARIABLE_ASSIGNMENT source)))).
Proof.
  unfold PythonAnalyzer.findVariables. rewrite py_variable_loop.
  by rewrite keep_nothing_seen.
Qed.

Lemma ts_findVariables_eq source lines definitions :
  TypeScriptAnalyzer.findVariables source lines definitions
  = definitions
    ++ List.map (ts_definition variable source)
         (first_by_key
            (List.filter ts_variable_binding
               (exec_all TypeScriptAnalyzer.VARIABLE_DECL source))).
Proof.
  unfold TypeScriptAnalyzer.findVariables. rewrite ts_variable_loop.
  by rewrite keep_nothing_seen.
Qed.

Lemma py_findDefinitions_eq source :
  PythonAnalyzer.findDefinitions source
  = List.map (py_definition function 4 source)
      (exec_all PythonAnalyzer.FUNCTION_DEF source)
    ++ List.map (py_definition class 6 source)
         (exec_all PythonAnalyzer.CLASS_DEF source)
    ++ List.map (py_definition variable 0 source)
         (List.filter ordinary
            (first_by_key
               (List.filter py_variable_binding
                  (exec_all PythonAnalyzer.VARIABLE_ASSIGNMENT source))))
    ++ flat_map (imported_items 2 source)
         (exec_all PythonAnalyzer.IMPORT_FROM source)
    ++ List.map (fun m => imported_name (py_module_name m) source m)
         (exec_all PythonAnalyzer.IMPORT_SIMPLE source).
Proof.
  unfold PythonAnalyzer.findDefinitions, PythonAnalyzer.findImports,
    PythonAnalyzer.findClasses, PythonAnalyzer.findFunctions.
  cbv zeta.
  rewrite (pushing_loop_map (PythonAnalyzer.import_simple_step source (split NL source))
             (fun m => imported_name (py_module_name m) source m))
    by reflexivity.
  rewrite (pushing_loop (PythonAnalyzer.import_from_step source (split NL source))
             (imported_items 2 source))
    by (intros; apply import_items_loop).
  rewrite py_findVariables_eq.
  rewrite (pushing_loop_map (PythonAnalyzer.class_step source)
             (py_definition class 6 source)) by reflexivity.
  rewrite (pushing_loop_map (PythonAnalyzer.function_step source)
             (py_definition function 4 source)).
  - simpl. by rewrite <- !app_assoc.
  - intros acc m Hin. apply exec_all_In in Hin as [from Hm].
    unfold PythonAnalyzer.function_step.
    by rewrite (findParameters_of_function_match _ _ _ _ _ Hm).
Qed.

Lemma ts_findDefinitions_eq source :
  TypeScriptAnalyzer.findDefinitions source
  = List.map (ts_definition function source)
      (exec_all TypeScriptAnalyzer.FUNCTION_DECL source)
    ++ List.map (ts_definition function source)
         (exec_all TypeScriptAnalyzer.ARROW_FUNCTION source)
    ++ List.map (ts_definition class source)
         (exec_all TypeScriptAnalyzer.CLASS_DECL source)
    ++ List.map (ts_definition class source)
         (exec_all TypeScriptAnalyzer.INTERFACE_DECL source)
    ++ List.map (ts_definition class source)
         (exec_all TypeScriptAnalyzer.TYPE_DECL source)
    ++ List.map (ts_definition variable source)
         (first_by_key
            (List.filter ts_variable_binding
               (exec_all TypeScriptAnalyzer.VARIABLE_DECL source)))
    ++ flat_map (imported_items 1 source)
         (exec_all TypeScriptAnalyzer.IMPORT_NAMED source)
    ++ List.map (fun m => imported_name (grp m 1) source m)
         (exec_all TypeScriptAnalyzer.IMPORT_DEFAULT source)
    ++ List.map (fun m => imported_name (grp m 1) source m)
         (exec_all TypeScriptAnalyzer.IMPORT_NAMESPACE source).
Proof.
  unfold TypeScriptAnalyzer.findDefinitions, TypeScriptAnalyzer.findImports,
    TypeScriptAnalyzer.findTypes, TypeScriptAnalyzer.findInterfaces,
    TypeScriptAnalyzer.findClasses, TypeScriptAnalyzer.findArrowFunctions,
    TypeScriptAnalyzer.findFunctions.
  cbv zeta.
  rewrite !(pushing_loop_map
              (TypeScriptAnalyzer.import_single_step source (split NL source))
              (fun m => imported_name (grp m 1) source m))
    by reflexivity.
  rewrite (pushing_loop (TypeScriptAnalyzer.import_named_step source (split NL source))
             (imported_items 1 source))
    by (intros; apply import_items_loop).
  rewrite ts_findVariables_eq.
  rewrite !ts_declaration_loop.
  simpl. by rewrite <- !app_assoc.
Qed.

(** X12. The variable scan of the Python analyzer considers the
    assignments with at most four code units of captured indentation,
    keeps the first of each pair (indentation length, name), and of those
    defines the ones whose name does not start with an underscore, the
    name [_] apart. A skipped name still takes its key: no later
    assignment of it is defined either. *)
Theorem py_variable_scan_keeps_first_ordinary_binding source lines definitions :
  let bindings :=
    List.filter py_variable_binding
                (exec_all PythonAnalyzer.VARIABLE_ASSIGNMENT source) in
  PythonAnalyzer.findVariables source lines definitions
  = definitions
    ++ List.map (py_definition variable 0 source)
         (List.filter (fun m => negb (py_special (grp m 2)))
                      (first_by_key bindings))
  /\ NoDup (List.map binding_key (first_by_key bindings))
  /\ (forall m, In m (first_by_key bindings) -> In m bindings)
  /\ (forall m, In m bindings ->
        In (binding_key m) (List.map binding_key (first_by_key bindings)))
  /\ (forall d, In d (PythonAnalyzer.findVariables source lines []) ->
        kind d = variable /\ py_special (name d) = false).
Proof.
  intros bindings. split; [apply py_findVariables_eq|].
  split; [apply first_by_key_NoDup|]. split; [apply first_by_key_In|].
  split; [apply first_by_key_complete|].
  intros d. rewrite py_findVariables_eq. cbn [app]. rewrite in_map_iff.
  intros (m & <- & Hin). apply filter_In in Hin as [_ Hs].
  split; [reflexivity|]. cbn [py_definition name].
  by apply negb_true_iff in Hs.
Qed.

(** X13. [findDefinitions] of each analyzer lists the definitions scan by
    scan, each scan in the order of its matches in the text: for Python
    the functions, the classes, the variables, the names of the
    [from ... import] lists and the plain imports; for TypeScript the
    function declarations, the arrow functions, the classes, the
    interfaces and the type aliases (both of kind [class]), the
    variables, the named, the default and the namespace imports. *)
Theorem definitions_are_listed_scan_by_scan source :
  PythonAnalyzer.findDefinitions source
  = List.map (py_definition function 4 source)
      (exec_all PythonAnalyzer.FUNCTION_DEF source)
    ++ List.map (py_definition class 6 source)
         (exec_all PythonAnalyzer.CLASS_DEF source)
    ++ List.map (py_definition variable 0 source)
         (List.filter (fun m => negb (py_special (grp m 2)))
            (first_by_key
               (List.filter py_variable_binding
                  (exec_all PythonAnalyzer.VARIABLE_ASSIGNMENT source))))
    ++ flat_map (imported_items 2 source)
         (exec_all PythonAnalyzer.IMPORT_FROM source)
    ++ List.map (fun m => imported_name (py_module_name m) source m)
         (exec_all PythonAnalyzer.IMPORT_SIMPLE source)
  /\ TypeScriptAnalyzer.findDefinitions source
     = List.map (ts_definition function source)
         (exec_all TypeScriptAnalyzer.FUNCTION_DECL source)
       ++ List.map (ts_definition function source)
            (exec_all TypeScriptAnalyzer.ARROW_FUNCTION source)
       ++ List.map (ts_definition class source)
            (exec_all TypeScriptAnalyzer.CLASS_DECL source)
       ++ List.map (ts_definition class source)
            (exec_all TypeScriptAnalyzer.INTERFACE_DECL source)
       ++ List.map (ts_definition class source)
            (exec_all TypeScriptAnalyzer.TYPE_DECL source)
       ++ List.map (ts_definition variable source)
            (first_by_key
               (List.filter ts_variable_binding
                  (exec_all TypeScriptAnalyzer.VARIABLE_DECL source)))
       ++ flat_map (imported_items 1 source)
            (exec_all TypeScriptAnalyzer.IMPORT_NAMED source)
       ++ List.map (fun m => imported_name (grp m 1) source m)
            (exec_all TypeScriptAnalyzer.IMPORT_DEFAULT source)
       ++ List.map (fun m => imported_name (grp m 1) source m)
            (exec_all TypeScriptAnalyzer.IMPORT_NAMESPACE source).
Proof. split; [apply py_findDefinitions_eq|apply ts_findDefinitions_eq]. Qed.

(** ** Which definition a name resolves to *)

Lemma find_app_first {A} (p : A -> bool) l l' :
  List.find p (l ++ l')
  = match List.find p l with Some d => Some d | None => List.find p l' end.
Proof.
  induction l as [|a l IH]; simpl; [reflexivity|]. by destruct (p a).
Qed.

Lemma find_map_first {A B} (p : A -> bool) (g : B -> A) l :
  List.find p (List.map g l) = option_map g (List.find (fun b => p (g b)) l).
Proof.
  induction l as [|b l IH]; simpl; [reflexivity|]. by destruct (p (g b)).
Qed.

Lemma find_weaker {A} (p q : A -> bool) l :
  Forall (fun a => q a = true) l ->
  List.find (fun a => p a && q a) l = List.find p l.
Proof.
  induction 1 as [|a l Ha _ IH]; simpl; [reflexivity|].
  rewrite Ha, andb_true_r, IH. reflexivity.
Qed.

Lemma find_never {A} (p q : A -> bool) l :
  Forall (fun a => q a = false) l ->
  List.find (fun a => p a && q a) l = None.
Proof.
  induction 1 as [|a l Ha _ IH]; simpl; [reflexivity|].
  by rewrite Ha, andb_false_r, IH.
Qed.

(** With the imports at the end of the array, the two searches of
    [findMatchingDefinition] are one search by name. *)
Lemma findMatchingDefinition_imports_last locals imports symbolName :
  Forall (fun d => kind d <> import) locals ->
  Forall (fun d => kind d = import) imports ->
  DefinitionProvider.findMatchingDefinition (locals ++ imports) symbolName
  = List.find (named symbolName) (locals ++ imports).
Proof.
  intros Hl Hi. unfold DefinitionProvider.findMatchingDefinition,
                  DefinitionProvider.find_def.
  fold (named symbolName).
  change (fun d => jsstring_eqb (name d) symbolName
                   && negb (bool_decide (kind d = import)))
    with (fun d => named symbolName d && negb (bool_decide (kind d = import))).
  rewrite !find_app_first.
  rewrite (find_weaker (named symbolName)).
  - rewrite find_never.
    + by destruct (List.find (named symbolName) locals).
    + eapply List.Forall_impl; [|exact Hi]. intros d Hd. cbv beta.
      by rewrite bool_decide_eq_true_2.
  - eapply List.Forall_impl; [|exact Hl]. intros d Hd. cbv beta.
    by rewrite bool_decide_eq_false_2.
Qed.

Lemma imported_items_kind n source m :
  Forall (fun d => kind d = import) (imported_items n source m).
Proof.
  unfold imported_items. apply loop_preserves; [|constructor].
  intros acc imp Hacc. unfold import_item.
  destruct (truthy _ && test WORD_ONLY _); [|exact Hacc].
  by apply Forall_push.
Qed.

Lemma Forall_flat_map {A B} (P : A -> Prop) (g : B -> list A) l :
  (forall b, Forall P (g b)) -> Forall P (flat_map g l).
Proof.
  intros Hg. induction l as [|b l IH]; simpl; [constructor|].
  apply Forall_app. split; [apply Hg|exact IH].
Qed.

Lemma Forall_map_kind {B} (P : SymbolDefinition -> Prop)
      (g : B -> SymbolDefinition) l :
  (forall b, P (g b)) -> Forall P (List.map g l).
Proof. intros Hg. induction l; simpl; constructor; auto. Qed.

Lemma py_findDefinitions_imports_last source :
  exists locals imports,
    PythonAnalyzer.findDefinitions source
    = (List.map (py_definition function 4 source)
         (exec_all PythonAnalyzer.FUNCTION_DEF source) ++ locals) ++ imports
    /\ Forall (fun d => kind d <> import)
              (List.map (py_definition function 4 source)
                 (exec_all PythonAnalyzer.FUNCTION_DEF source) ++ locals)
    /\ Forall (fun d => kind d = import) imports.
Proof.
  rewrite py_findDefinitions_eq.
  match goal with
  | |- exists locals imports, ?F ++ ?C ++ ?V ++ ?I1 ++ ?I2 = _ /\ _ =>
      exists (C ++ V), (I1 ++ I2)
  end.
  split.
  - by rewrite <- !app_assoc.
  - split.
    + repeat (apply Forall_app; split); by apply Forall_map_kind.
    + apply Forall_app; split.
      * apply Forall_flat_map, imported_items_kind.
      * by apply Forall_map_kind.
Qed.

Lemma ts_findDefinitions_imports_last source :
  exists locals imports,
    TypeScriptAnalyzer.findDefinitions source
    = (List.map (ts_definition function source)
         (exec_all TypeScriptAnalyzer.FUNCTION_DECL source) ++ locals) ++ imports
    /\ Forall (fun d => kind d <> import)
              (List.map (ts_definition function source)
                 (exec_all TypeScriptAnalyzer.FUNCTION_DECL source) ++ locals)
    /\ Forall (fun d => kind d = import) imports.
Proof.
  rewrite ts_findDefinitions_eq.
  match goal with
  | |- exists locals imports,
         ?F ++ ?A ++ ?C ++ ?I ++ ?T ++ ?V ++ ?I1 ++ ?I2 ++ ?I3 = _ /\ _ =>
      exists (A ++ C ++ I ++ T ++ V), (I1 ++ I2 ++ I3)
  end.
  split.
  - by rewrite <- !app_assoc.
  - split.
    + repeat (apply Forall_app; split); by apply Forall_map_kind.
    + apply Forall_app; split; [apply Forall_flat_map, imported_items_kind|].
      apply Forall_app; split; by apply Forall_map_kind.
Qed.

Lemma first_function_wins (g : RegExpMatch -> SymbolDefinition) matches
      locals imports symbolName m :
  (forall m, name (g m) = grp m 2) ->
  first_declaring symbolName matches = Some m ->
  List.find (named symbolName) ((List.map g matches ++ locals) ++ imports)
  = Some (g m).
Proof.
  intros Hg H. rewrite !find_app_first, find_map_first.
  assert (List.find (fun b => named symbolName (g b)) matches = Some m) as ->.
  { rewrite <- H. unfold first_declaring, named. clear H.
    induction matches as [|b l IH]; simpl; [reflexivity|].
    rewrite Hg. by destruct (jsstring_eqb (grp b 2) symbolName). }
  reflexivity.
Qed.

(** X14. Both scanners emit the imports last, so on their output the two
    searches of [findMatchingDefinition] are one: it returns the first
    definition of that name in the scan order, whatever the order in the
    text. In particular a name that a function declaration declares
    resolves to the first such declaration, also when a class, a variable
    or an import of the same name comes earlier in the text. *)
Theorem builtin_resolution_is_first_in_scan_order source symbolName :
  Forall (fun findDefinitions =>
            DefinitionProvider.findMatchingDefinition (findDefinitions source)
                                                      symbolName
            = List.find (named symbolName) (findDefinitions source))
         [PythonAnalyzer.findDefinitions; TypeScriptAnalyzer.findDefinitions]
  /\ (forall m,
        first_declaring symbolName (exec_all PythonAnalyzer.FUNCTION_DEF source)
        = Some m ->
        DefinitionProvider.findMatchingDefinition
          (PythonAnalyzer.findDefinitions source) symbolName
        = Some (py_definition function 4 source m))
  /\ (forall m,
        first_declaring symbolName
                        (exec_all TypeScriptAnalyzer.FUNCTION_DECL source)
        = Some m ->
        DefinitionProvider.findMatchingDefinition
          (TypeScriptAnalyzer.findDefinitions source) symbolName
        = Some (ts_definition function source m)).
Proof.
  destruct (py_findDefinitions_imports_last source) as (pl & pi & Ep & Hpl & Hpi).
  destruct (ts_findDefinitions_imports_last source) as (tl & ti & Et & Htl & Hti).
  assert (Hp := findMatchingDefinition_imports_last _ _ symbolName Hpl Hpi).
  assert (Ht := findMatchingDefinition_imports_last _ _ symbolName Htl Hti).
  rewrite <- Ep in Hp. rewrite <- Et in Ht.
  split; [by repeat constructor|]. split.
  - intros m Hm. rewrite Hp, Ep. by apply first_function_wins.
  - intros m Hm. rewrite Ht, Et. by apply first_function_wins.
Qed.

End Scans.

(* ===================================================================== *)
(** * The arrow-function test of the TypeScript variable scan             *)
(* ===================================================================== *)

Section Arrow.
Import JS Types Common Spec Cover.

Lemma Matches_cat_app input ml l l' :
  forall x y,
    Matches input ml (cat (l ++ l')) x y ->
    exists z, Matches input ml (cat l) x z /\ Matches input ml (cat l') z y.
Proof.
  induction l as [|r l IH]; intros x y H.
  - exists x. split; [constructor|exact H].
  - cbn [app cat foldr] in H.
    inversion H as [| |? ? ? z ? H1 H2| | | | | | | | | |]; subst.
    apply IH in H2 as (z' & H2 & H3). exists z'. split; [|exact H3].
    cbn [cat foldr]. econstructor; eauto.
Qed.

(** An occurrence found by [indexOf] is an occurrence. *)
Lemma indexOf_from_found p s :
  forall k, 0 <= indexOf_from k p s ->
            exists j, is_prefix p (skipn j s) = true.
Proof.
  induction s as [|c s IH]; intros k H.
  - cbn [indexOf_from] in H. destruct (is_prefix p []) eqn:E; [|lia].
    exists 0%nat. exact E.
  - cbn [indexOf_from] in H. destruct (is_prefix p (c :: s)) eqn:E.
    + exists 0%nat. exact E.
    + apply IH in H as [j Hj]. exists (S j). exact Hj.
Qed.

Lemma before_equals_has_no_equals :
  consumes_only (fun a => a <> ch "=") (cat before_equals).
Proof.
  cbn -[is_space is_word N.eqb is_char not_char].
  repeat split; intros a Ha ->; vm_compute in Ha; discriminate.
Qed.

(** The text [VARIABLE_DECL] matches has its only [=] at its end. *)
Lemma variable_decl_match source from m :
  exec_from TypeScriptAnalyzer.VARIABLE_DECL source from = Some m ->
  exists e,
    (index m <= e)%nat
    /\ grp m 0 = substring (index m) (S e) source
    /\ forall i, (index m <= i < e)%nat ->
         exists a, char_at source i = Some a /\ a <> ch "=".
Proof.
  intros H. apply exec_from_sound in H as (y & Hy & Hm & Hi & _ & Hb).
  change (pattern TypeScriptAnalyzer.VARIABLE_DECL)
    with (cat (before_equals ++ [lit "="])) in Hy.
  apply Matches_cat_app in Hy as (z & H1 & H2).
  cbn [cat foldr] in H2.
  inversion H2 as [| |? ? ? z1 ? H3 H4| | | | | | | | | |]; subst.
  inversion H4; subst. inversion H3 as [|? ? a Ha Hp| | | | | | | | | | |]; subst.
  exists (endIndex z). split.
  - apply Matches_le in H1. exact H1.
  - split.
    + rewrite Hm at 1. reflexivity.
    + intros i Hi'.
      exact (Matches_consumes _ _ _ _ _ _ H1 before_equals_has_no_equals i Hi').
Qed.

Lemma variable_decl_has_no_arrow source from m :
  exec_from TypeScriptAnalyzer.VARIABLE_DECL source from = Some m ->
  includes (js "=>") (grp m 0) = false.
Proof.
  intros H. destruct (variable_decl_match _ _ _ H) as (e & He & -> & Hc).
  unfold includes, indexOf.
  destruct (0 <=? _) eqn:E; [|reflexivity]. exfalso.
  apply Z.leb_le, indexOf_from_found in E as [j Hj].
  destruct (skipn j (substring (index m) (S e) source)) as [|a [|b t]] eqn:Es;
    try discriminate.
  { cbn in Hj. rewrite andb_false_r in Hj. discriminate. }
  assert (Ha : char_at (substring (index m) (S e) source) j = Some a).
  { unfold char_at. rewrite <- (Nat.add_0_r j), <- nth_error_skipn, Es.
    reflexivity. }
  assert (Hb : char_at (substring (index m) (S e) source) (S j) = Some b).
  { unfold char_at. rewrite <- (Nat.add_1_r j), <- nth_error_skipn, Es.
    reflexivity. }
  apply char_at_substring in Ha as [Ha _].
  apply char_at_substring in Hb as [_ Hb].
  destruct (Hc (index m + j)%nat) as (a' & Ha' & Hne); [lia|].
  rewrite Ha in Ha'. injection Ha' as <-.
  cbn in Hj. apply andb_true_iff in Hj as [Hj _].
  apply N.eqb_eq in Hj. apply Hne. by rewrite <- Hj.
Qed.

(** X15. The text that [VARIABLE_DECL] matches ends at its first [=], so
    it never contains [=>]: the test that is to keep arrow functions out
    of the TypeScript variable scan never fires. The scan is the one
    without that test: of the bindings with at most four code units of
    captured indentation it defines the first of each pair (indentation
    length, name), arrow functions included. *)
Theorem ts_arrow_test_never_fires source lines definitions :
  Forall (fun m => includes (js "=>") (grp m 0) = false)
         (exec_all TypeScriptAnalyzer.VARIABLE_DECL source)
  /\ List.filter ts_variable_binding
                 (exec_all TypeScriptAnalyzer.VARIABLE_DECL source)
     = List.filter (fun m => negb (4 <? length (grp m 1))%nat)
                   (exec_all TypeScriptAnalyzer.VARIABLE_DECL source)
  /\ TypeScriptAnalyzer.findVariables source lines definitions
     = definitions
       ++ List.map (ts_definition variable source)
            (first_by_key
               (List.filter (fun m => negb (4 <? length (grp m 1))%nat)
                            (exec_all TypeScriptAnalyzer.VARIABLE_DECL source))).
Proof.
  assert (HF : Forall (fun m => includes (js "=>") (grp m 0) = false)
                      (exec_all TypeScriptAnalyzer.VARIABLE_DECL source)).
  { apply List.Forall_forall. intros m Hin.
    apply exec_all_In in Hin as [from Hm].
    exact (variable_decl_has_no_arrow source from m Hm). }
  assert (HE : List.filter ts_variable_binding
                 (exec_all TypeScriptAnalyzer.VARIABLE_DECL source)
               = List.filter (fun m => negb (4 <? length (grp m 1))%nat)
                   (exec_all TypeScriptAnalyzer.VARIABLE_DECL source)).
  { induction HF as [|m l Hm _ IH]; [reflexivity|].
    cbn [List.filter]. unfold ts_variable_binding at 1.
    rewrite Hm. cbn [negb andb]. by rewrite IH. }
  split; [exact HF|]. split; [exact HE|].
  rewrite <- HE. apply ts_findVariables_eq.
Qed.

End Arrow.

(* ===================================================================== *)
(** * The matcher finds a match whenever there is one                     *)
(* ===================================================================== *)

Section Completeness.
Import JS Types Common Spec.

Variable input : jsstring.
Variable ml : bool.

(** Backtracking loses no match: when the pattern can take [x] to a state
    the continuation accepts, the matcher succeeds (maybe with another
    match, one of higher priority). *)
Lemma matcher_complete r x y :
  Matches input ml r x y ->
  (endIndex x <= length input)%nat ->
  forall c z, c y = Some z -> exists z', matcher input ml r x c = Some z'.
Proof.
  induction 1 as [x|p x a Ha Hp|r1 r2 x y z H1 IH1 H2 IH2|r1 r2 x y H IH
                  |r1 r2 x y H IH|r x|r x y z H1 IH1 Hne H2 IH2|r x
                  |r x y H IH Hne|n r x y H IH|x Hb|x He|x Hw];
    intros Hx c z0 Hc; cbn [JS.matcher].
  - eauto.
  - rewrite Ha, Hp. eauto.
  - pose proof (Matches_bound _ _ _ _ _ H1 Hx) as Hy.
    destruct (IH2 Hy c z0 Hc) as [z' Hz']. exact (IH1 Hx _ z' Hz').
  - destruct (IH Hx c z0 Hc) as [z' Hz']. rewrite Hz'. eauto.
  - destruct (matcher input ml r1 x c); [eauto|]. exact (IH Hx c z0 Hc).
  - cbn [JS.repeat]. destruct (matcher input ml r x _); eauto.
  - pose proof (Matches_bound _ _ _ _ _ H1 Hx) as Hy.
    pose proof (Matches_le _ _ _ _ _ H1) as Hle.
    destruct (IH2 Hy c z0 Hc) as [z' Hz'].
    cbn [JS.repeat].
    assert (Hk : (fun y' => if (endIndex y' =? endIndex x)%nat then None
                            else JS.repeat (length input - endIndex x)
                                           (matcher input ml r) y' c) y
                 = Some z').
    { cbv beta. replace (endIndex y =? endIndex x)%nat with false
        by (symmetry; apply Nat.eqb_neq; exact Hne).
      rewrite <- Hz', <- (star_fuel input ml r y c
                            (length input - endIndex x
                             - S (length input - endIndex y))) by exact Hy.
      f_equal. lia. }
    destruct (IH1 Hx _ z' Hk) as [z'' Hz'']. rewrite Hz''. eauto.
  - destruct (matcher input ml r x _); eauto.
  - assert (Hk : (fun y' => if (endIndex y' =? endIndex x)%nat then None
                            else c y') y = Some z0).
    { cbv beta. replace (endIndex y =? endIndex x)%nat with false
        by (symmetry; apply Nat.eqb_neq; exact Hne). exact Hc. }
    destruct (IH Hx _ z0 Hk) as [z' Hz']. rewrite Hz'. eauto.
  - exact (IH Hx _ z0 Hc).
  - rewrite Hb. eauto.
  - rewrite He. eauto.
  - rewrite Hw. eauto.
Qed.

Lemma search_complete r i y :
  Matches input ml r (mkState i []) y ->
  (i <= length input)%nat ->
  forall fuel from,
    (from <= i <= from + fuel)%nat ->
    exists j z, search input ml r fuel from = Some (j, z) /\ (j <= i)%nat.
Proof.
  intros Hm Hi fuel. induction fuel as [|fuel IH]; intros from Hf.
  - assert (from = i) as -> by lia. cbn [search]. unfold match_at.
    destruct (matcher_complete _ _ _ Hm Hi Some y eq_refl) as [z' ->].
    eauto.
  - cbn [search]. destruct (match_at input ml r from) as [z'|] eqn:E.
    + exists from, z'. split; [reflexivity|lia].
    + assert (from <> i) as Hne.
      { intros ->. unfold match_at in E.
        destruct (matcher_complete _ _ _ Hm Hi Some y eq_refl) as [z' Hz'].
        congruence. }
      apply IH. lia.
Qed.

End Completeness.

Section ExecComplete.
Import JS Types Common Spec.

(** [re.exec(input)] succeeds exactly when the pattern matches somewhere
    in the input, and then at the first such index. *)
Lemma exec_matches re input :
  (exists m, exec re input = Some m)
  <-> exists i y, (i <= length input)%nat
                  /\ Matches input (multiline re) (pattern re) (mkState i []) y.
Proof.
  split.
  - intros [m H]. apply exec_from_sound in H as (y & Hy & _ & Hi & _).
    exists (index m), y. split; [lia|exact Hy].
  - intros (i & y & Hi & Hy). unfold exec, exec_from.
    replace (length input <? 0)%nat with false
      by (symmetry; apply Nat.ltb_ge; lia).
    destruct (search_complete _ _ _ _ _ Hy Hi (length input - 0) 0)
      as (j & z & -> & _); [lia|].
    eauto.
Qed.

Lemma exec_none re input :
  exec re input = None
  <-> forall i y, (i <= length input)%nat ->
                  ~ Matches input (multiline re) (pattern re) (mkState i []) y.
Proof.
  split.
  - intros H i y Hi Hy.
    destruct (proj2 (exec_matches re input)) as [m Hm]; [eauto|]. congruence.
  - intros H. destruct (exec re input) as [m|] eqn:E; [|reflexivity].
    destruct (proj1 (exec_matches re input)) as (i & y & Hi & Hy); [eauto|].
    exfalso. exact (H i y Hi Hy).
Qed.

End ExecComplete.

(* ===================================================================== *)
(** * Patterns read by index                                              *)
(* ===================================================================== *)

Section SpansFacts.
Import JS Types Common Spec Cover.

Variable source : jsstring.
Variable ml : bool.

#[local] Abbreviation Mt := (Matches source ml).
#[local] Abbreviation Sp := (Spans source ml).

(** A match does not depend on the captures it starts with. *)
Lemma Matches_any_captures r x y :
  Mt r x y ->
  forall ca, exists cb,
    Mt r (mkState (endIndex x) ca) (mkState (endIndex y) cb).
Proof.
  induction 1 as [x|p x a Ha Hp|r1 r2 x y z H1 IH1 H2 IH2|r1 r2 x y H IH
                  |r1 r2 x y H IH|r x|r x y z H1 IH1 Hne H2 IH2|r x
                  |r x y H IH Hne|n r x y H IH|x Hb|x He|x Hw];
    intros ca; cbn [endIndex].
  - exists ca. constructor.
  - exists ca. exact (M_Chr source ml p (mkState (endIndex x) ca) a Ha Hp).
  - destruct (IH1 ca) as [cb H1']. destruct (IH2 cb) as [cc H2'].
    exists cc. econstructor; eauto.
  - destruct (IH ca) as [cb H']. exists cb. by apply M_AltL.
  - destruct (IH ca) as [cb H']. exists cb. by apply M_AltR.
  - exists ca. constructor.
  - destruct (IH1 ca) as [cb H1']. destruct (IH2 cb) as [cc H2'].
    exists cc. eapply M_StarS; eauto.
  - exists ca. constructor.
  - destruct (IH ca) as [cb H']. exists cb. by apply M_OptS.
  - destruct (IH ca) as [cb H']. eexists.
    exact (M_Group source ml n r _ _ H').
  - exists ca. by constructor.
  - exists ca. by constructor.
  - exists ca. by constructor.
Qed.

Lemma Spans_intro r x y : Mt r x y -> Sp r (endIndex x) (endIndex y).
Proof. intros H. exists x, y. auto. Qed.

Lemma Spans_from r a b ca :
  Sp r a b -> exists cb, Mt r (mkState a ca) (mkState b cb).
Proof.
  intros (x & y & H & <- & <-). exact (Matches_any_captures _ _ _ H ca).
Qed.

Lemma Spans_le r a b : Sp r a b -> (a <= b)%nat.
Proof. intros (x & y & H & <- & <-). by eapply Matches_le. Qed.

Lemma Spans_bound r a b :
  Sp r a b -> (a <= length source)%nat -> (b <= length source)%nat.
Proof. intros (x & y & H & <- & <-). by eapply Matches_bound. Qed.

Lemma Spans_Eps a b : Sp Eps a b <-> a = b.
Proof.
  split.
  - intros (x & y & H & <- & <-). by inversion H.
  - intros <-. exists (mkState a []), (mkState a []). repeat split. constructor.
Qed.

Lemma Spans_Seq r1 r2 a b :
  Sp (Seq r1 r2) a b <-> exists k, Sp r1 a k /\ Sp r2 k b.
Proof.
  split.
  - intros (x & z & H & <- & <-).
    inversion H as [| |? ? ? y ? H1 H2| | | | | | | | | |]; subst.
    exists (endIndex y). split; by apply Spans_intro.
  - intros (k & H1 & H2).
    destruct (Spans_from _ _ _ [] H1) as [cb H1'].
    destruct (Spans_from _ _ _ cb H2) as [cc H2'].
    exists (mkState a []), (mkState b cc). repeat split. econstructor; eauto.
Qed.

Lemma Spans_Alt r1 r2 a b : Sp (Alt r1 r2) a b <-> Sp r1 a b \/ Sp r2 a b.
Proof.
  split.
  - intros (x & y & H & <- & <-).
    inversion H; subst; [left|right]; by apply Spans_intro.
  - intros [(x & y & H & <- & <-)|(x & y & H & <- & <-)];
      exists x, y; repeat split; [by apply M_AltL|by apply M_AltR].
Qed.

Lemma Spans_Opt r a b :
  Sp (Opt r) a b <-> a = b \/ (a <> b /\ Sp r a b).
Proof.
  split.
  - intros (x & y & H & <- & <-). inversion H; subst; [by left|].
    right. split; [congruence|by apply Spans_intro].
  - intros [<-|[Hne (x & y & H & <- & <-)]].
    + exists (mkState a []), (mkState a []). repeat split. constructor.
    + exists x, y. repeat split. apply M_OptS; [exact H|congruence].
Qed.

Lemma Spans_Group n r a b : Sp (Group n r) a b <-> Sp r a b.
Proof.
  split.
  - intros (x & y & H & <- & <-). inversion H; subst. cbn [endIndex].
    by apply Spans_intro.
  - intros (x & y & H & <- & <-). eexists x, _. split; [by constructor|].
    split; reflexivity.
Qed.

Lemma Spans_Bol a b : Sp Bol a b <-> a = b /\ at_bol source ml a = true.
Proof.
  split.
  - intros (x & y & H & <- & <-). by inversion H.
  - intros [<- H]. exists (mkState a []), (mkState a []). repeat split.
    by constructor.
Qed.

Lemma Spans_Eol a b : Sp Eol a b <-> a = b /\ at_eol source ml a = true.
Proof.
  split.
  - intros (x & y & H & <- & <-). by inversion H.
  - intros [<- H]. exists (mkState a []), (mkState a []). repeat split.
    by constructor.
Qed.

Lemma Spans_WordB a b :
  Sp WordB a b <-> a = b /\ at_word_boundary source a = true.
Proof.
  split.
  - intros (x & y & H & <- & <-). by inversion H.
  - intros [<- H]. exists (mkState a []), (mkState a []). repeat split.
    by constructor.
Qed.

Lemma Spans_Chr p a b :
  Sp (Chr p) a b <-> char_is p source a = true /\ b = S a.
Proof.
  unfold char_is. split.
  - intros (x & y & H & <- & <-).
    inversion H as [|? ? c Hc Hp| | | | | | | | | | |]; subst.
    by rewrite Hc.
  - intros [H ->]. destruct (char_at source a) as [c|] eqn:Hc; [|discriminate].
    exists (mkState a []), (mkState (S a) []). repeat split.
    exact (M_Chr source ml p (mkState a []) c Hc H).
Qed.

(** ** The vocabulary of the statements, by index *)

Lemma char_is_spec p a :
  char_is p source a = true
  <-> exists c, char_at source a = Some c /\ p c = true.
Proof.
  unfold char_is. destruct (char_at source a) as [c|].
  - split; [eauto|]. by intros (c' & [= <-] & H).
  - split; [discriminate|]. by intros (c' & [=] & _).
Qed.

Lemma nth_error_substring (s : jsstring) a b k :
  (a + k < b)%nat -> nth_error (substring a b s) k = nth_error s (a + k).
Proof.
  intros H. unfold substring. rewrite nth_error_firstn.
  destruct (Nat.ltb_spec k (b - a)); [|lia]. apply nth_error_skipn.
Qed.

Lemma run_spec p a b :
  run p source a b = true
  <-> (a < b <= length source)%nat
      /\ forall i, (a <= i < b)%nat -> char_is p source i = true.
Proof.
  unfold run. rewrite !andb_true_iff, Nat.ltb_lt, Nat.leb_le, forallb_forall.
  split.
  - intros [[H1 H2] H3]. split; [lia|]. intros i Hi. apply char_is_spec.
    destruct (char_at source i) as [c|] eqn:Hc.
    + exists c. split; [reflexivity|]. apply H3.
      apply (nth_error_In _ (i - a)). rewrite nth_error_substring by lia.
      replace (a + (i - a))%nat with i by lia. exact Hc.
    + apply nth_error_None in Hc. lia.
  - intros [H1 H2]. split; [split; lia|]. intros c Hin.
    apply In_nth_error in Hin as [k Hk].
    apply char_at_substring in Hk as [Hk Hlt].
    specialize (H2 (a + k)%nat). apply char_is_spec in H2 as (c' & Hc' & Hp);
      [|lia].
    unfold char_at in *. congruence.
Qed.

Lemma all_in_spec p a b :
  all_in p source a b = true <-> a = b \/ run p source a b = true.
Proof. unfold all_in. by rewrite orb_true_iff, Nat.eqb_eq. Qed.

Lemma run_bound p a b : run p source a b = true -> (a < b <= length source)%nat.
Proof. intros H. by apply run_spec in H as [H _]. Qed.

Lemma all_in_bound p a b :
  all_in p source a b = true -> (a <= length source)%nat ->
  (a <= b <= length source)%nat.
Proof.
  intros H Ha. apply all_in_spec in H as [<-|H]; [lia|].
  apply run_bound in H. lia.
Qed.

Lemma text_at_spec s a :
  text_at s source a = true <-> substring a (a + length s) source = s.
Proof. unfold text_at, jsstring_eqb. apply bool_decide_eq_true. Qed.

Lemma text_at_nil a : text_at [] source a = true.
Proof.
  apply text_at_spec. unfold substring.
  replace (a + length (@nil char) - a)%nat with 0%nat by (simpl; lia).
  reflexivity.
Qed.

Lemma text_at_cons c s a :
  text_at (c :: s) source a = true
  <-> char_at source a = Some c /\ text_at s source (S a) = true.
Proof.
  rewrite !text_at_spec. unfold substring, char_at.
  replace (a + length (c :: s) - a)%nat with (S (length s)) by (simpl; lia).
  replace (S a + length s - S a)%nat with (length s) by lia.
  destruct (nth_error source a) as [c'|] eqn:Hc.
  - rewrite (skipn_char_at _ _ _ Hc). cbn [firstn]. split.
    + intros [= -> H]. by split.
    + intros [[= ->] H]. by rewrite H.
  - rewrite (List.skipn_all2 source) by (by apply nth_error_None).
    split; [discriminate|]. by intros [[=] _].
Qed.

Lemma text_at_bound s a :
  text_at s source a = true -> s <> [] -> (a + length s <= length source)%nat.
Proof.
  revert a. induction s as [|c s IH]; intros a H Hne; [congruence|].
  apply text_at_cons in H as [Hc H]. apply char_at_lt in Hc.
  destruct s as [|c' s]; [simpl; lia|].
  assert (S a + length (c' :: s) <= length source)%nat
    by (apply IH; [exact H|discriminate]).
  simpl in *. lia.
Qed.

Lemma text_at_char s a k c :
  text_at s source a = true -> nth_error s k = Some c ->
  char_at source (a + k) = Some c.
Proof.
  revert a k. induction s as [|c' s IH]; intros a k H Hk.
  - destruct k; discriminate.
  - apply text_at_cons in H as [Hc H]. destruct k as [|k].
    + injection Hk as <-. by rewrite Nat.add_0_r.
    + replace (a + S k)%nat with (S a + k)%nat by lia. by apply IH.
Qed.

Lemma Spans_Lit s a b :
  Sp (Lit s) a b <-> text_at s source a = true /\ b = (a + length s)%nat.
Proof.
  revert a b. induction s as [|c s IH]; intros a b; cbn [Lit].
  - rewrite Spans_Eps. split.
    + intros <-. split; [apply text_at_nil|simpl; lia].
    + intros [_ ->]. simpl. lia.
  - rewrite Spans_Seq, text_at_cons. split.
    + intros (k & H1 & H2). apply Spans_Chr in H1 as [H1 ->].
      apply IH in H2 as [H2 ->].
      apply char_is_spec in H1 as (c' & Hc & Hp). apply N.eqb_eq in Hp.
      subst c'. split; [by split|simpl; lia].
    + intros [[Hc H] ->]. exists (S a). split.
      * apply Spans_Chr. split; [|reflexivity]. apply char_is_spec.
        exists c. split; [exact Hc|apply N.eqb_refl].
      * apply IH. split; [exact H|simpl; lia].
Qed.

Lemma Star_Chr_intro p :
  forall n a ca,
    (forall i, (a <= i < a + n)%nat -> char_is p source i = true) ->
    Mt (Star (Chr p)) (mkState a ca) (mkState (a + n) ca).
Proof.
  induction n as [|n IH]; intros a ca H.
  - rewrite Nat.add_0_r. constructor.
  - destruct (proj1 (char_is_spec p a)) as (c & Hc & Hp); [apply H; lia|].
    eapply M_StarS.
    + exact (M_Chr source ml p (mkState a ca) c Hc Hp).
    + cbn [endIndex]. lia.
    + cbn [endIndex captures]. replace (a + S n)%nat with (S a + n)%nat by lia.
      apply IH. intros i Hi. apply H. lia.
Qed.

Lemma Spans_Star_Chr p a b :
  Sp (Star (Chr p)) a b <-> all_in p source a b = true.
Proof.
  rewrite all_in_spec. split.
  - intros (x & y & H & <- & <-).
    pose proof (Matches_le _ _ _ _ _ H) as Hle.
    destruct (Nat.eq_dec (endIndex x) (endIndex y)) as [E|E]; [by left|].
    right. apply run_spec.
    pose proof (Matches_consumes _ _ (fun c => p c = true) _ _ _ H
                  (fun a Ha => Ha)) as Hc.
    split.
    + split; [lia|].
      destruct (Hc (endIndex y - 1)%nat) as (c & Hc' & _); [lia|].
      apply char_at_lt in Hc'. lia.
    + intros i Hi. apply char_is_spec. by apply Hc.
  - intros [<-|H].
    + exists (mkState a []), (mkState a []). repeat split. constructor.
    + apply run_spec in H as [Hb H].
      exists (mkState a []), (mkState (a + (b - a)) []).
      split; [|split; simpl; lia].
      apply Star_Chr_intro. intros i Hi. apply H. lia.
Qed.

Lemma run_step p a b :
  run p source a b = true
  <-> char_is p source a = true /\ all_in p source (S a) b = true.
Proof.
  rewrite all_in_spec, !run_spec. split.
  - intros [Hb H]. split; [apply H; lia|].
    destruct (Nat.eq_dec (S a) b) as [E|E]; [by left|].
    right. split; [lia|]. intros i Hi. apply H. lia.
  - intros [Ha [<-|[Hb H]]].
    + pose proof Ha as Ha'.
      apply char_is_spec in Ha' as (c & Hc & _). apply char_at_lt in Hc.
      split; [lia|]. intros i Hi. assert (i = a) as -> by lia. exact Ha.
    + split; [lia|]. intros i Hi.
      destruct (Nat.eq_dec i a) as [->|Hne]; [exact Ha|]. apply H. lia.
Qed.

Lemma Spans_Plus_Chr p a b :
  Sp (Plus (Chr p)) a b <-> run p source a b = true.
Proof.
  unfold Plus. rewrite Spans_Seq, run_step. split.
  - intros (k & H1 & H2). apply Spans_Chr in H1 as [H1 ->].
    apply Spans_Star_Chr in H2. by split.
  - intros [H1 H2]. exists (S a). split.
    + by apply Spans_Chr.
    + by apply Spans_Star_Chr.
Qed.

Lemma somewhere_spec (f : nat -> bool) :
  somewhere source f = true
  <-> exists k, (k <= length source)%nat /\ f k = true.
Proof.
  unfold somewhere. rewrite existsb_exists. split.
  - intros (k & Hin & H). apply in_seq in Hin. exists k. split; [lia|exact H].
  - intros (k & Hk & H). exists k. split; [apply in_seq; lia|exact H].
Qed.

Lemma andthen_spec (a b : bool) :
  (if a then b else false) = true <-> a = true /\ b = true.
Proof. destruct a; simpl; [|split; [discriminate|by intros [? _]]]. tauto. Qed.

End SpansFacts.

(* ===================================================================== *)
(** * The patterns of [getImportPath] and the statements they recognise   *)
(* ===================================================================== *)

Section Shapes.
Import JS Types Common Spec Cover.

Variable source : jsstring.

#[local] Abbreviation Sp := (Spans source true).

Lemma matches_spans r i :
  (exists y, Matches source true r (mkState i []) y) <-> exists e, Sp r i e.
Proof.
  split.
  - intros [y H]. exists (endIndex y). exact (Spans_intro _ _ _ _ _ H).
  - intros [e H]. destruct (Spans_from _ _ _ _ _ [] H) as [cb H']. eauto.
Qed.

Lemma char_is_bound p a :
  char_is p source a = true -> (a < length source)%nat.
Proof.
  intros H. apply char_is_spec in H as (c & Hc & _). by apply char_at_lt in Hc.
Qed.

Lemma keyword_bound (s : string) a :
  text_at (js s) source a = true ->
  (a + length (js s) <= length source)%nat \/ js s = [].
Proof.
  intros H. destruct (js s) eqn:E; [by right|]. left.
  rewrite <- E in *. apply text_at_bound; [exact H|]. rewrite E. discriminate.
Qed.

(** Takes a pattern written with [cat] apart, piece by piece. *)
Ltac piece H :=
  first
    [ apply Spans_Plus_Chr in H
    | apply Spans_Star_Chr in H
    | apply Spans_Group in H; piece H
    | apply Spans_Bol in H as [? H]
    | apply Spans_Eol in H as [? H]
    | apply Spans_WordB in H as [? H]
    | apply Spans_Chr in H as [H ?]
    | apply Spans_Lit in H as [H ?]
    | lazymatch type of H with
      | Spans _ _ (TypeScriptAnalyzer.quoted _) _ _ =>
          unfold TypeScriptAnalyzer.quoted in H; pieces H
      end
    | idtac ]
with pieces H :=
  cbn [pattern cat foldr] in H;
  repeat (let k := fresh "k" in
          let P := fresh "P" in
          apply Spans_Seq in H as (k & P & H); piece P; subst);
  apply Spans_Eps in H; subst.

(** Takes a statement shape apart. *)
Ltac open_shape :=
  repeat match goal with
         | H : (if _ then _ else false) = true |- _ =>
             apply andthen_spec in H as [? ?]
         | H : (_ && _) = true |- _ => apply andb_true_iff in H as [? ?]
         | H : somewhere _ _ = true |- _ =>
             apply somewhere_spec in H as (? & _ & ?); cbv beta in *
         end.

(** Builds a statement shape from the facts at hand, leaving the bounds
    of the indices. *)
Ltac shape :=
  cbv beta;
  lazymatch goal with
  | |- (if _ then _ else false) = true =>
      apply andthen_spec; split; [shape|shape]
  | |- (_ && _) = true => apply andb_true_iff; split; [shape|shape]
  | |- somewhere _ _ = true =>
      apply somewhere_spec; eexists; split; [|shape]
  | |- _ => eassumption
  end.

(** The bounds of the indices that the facts speak of. *)
Ltac bounds :=
  repeat match goal with
         | H : run _ source ?a ?b = true |- _ =>
             lazymatch goal with
             | _ : (a < b <= length source)%nat |- _ => fail
             | _ => pose proof (run_bound _ _ _ _ H)
             end
         | H : char_is _ source ?a = true |- _ =>
             lazymatch goal with
             | _ : (a < length source)%nat |- _ => fail
             | _ => pose proof (char_is_bound _ _ H)
             end
         | H : all_in ?p source ?a ?b = true |- _ =>
             lazymatch goal with
             | _ : (a <= length source)%nat -> (a <= b <= length source)%nat
               |- _ => fail
             | _ => pose proof (all_in_bound _ p a b H)
             end
         end;
  change (length (js "from")) with 4%nat in *;
  change (length (js "import")) with 6%nat in *;
  change (length (js "as")) with 2%nat in *;
  try lia.

(** Builds a match of a pattern written with [cat] from the facts at
    hand. *)
Ltac solve_piece :=
  first
    [ apply Spans_Plus_Chr; eassumption
    | apply Spans_Star_Chr; eassumption
    | apply Spans_Group; solve_piece
    | apply Spans_Bol; split; [reflexivity|eassumption]
    | apply Spans_WordB; split; [reflexivity|eassumption]
    | apply Spans_Chr; split; [eassumption|reflexivity]
    | apply Spans_Lit; split; [eassumption|reflexivity]
    | lazymatch goal with
      | |- Spans _ _ (TypeScriptAnalyzer.quoted _) _ _ =>
          unfold TypeScriptAnalyzer.quoted; cbn [cat foldr];
          repeat (apply Spans_Seq; eexists; split; [solve_piece|]);
          apply Spans_Eps; reflexivity
      end ].

Ltac build :=
  cbn [pattern cat foldr];
  repeat (apply Spans_Seq; eexists; split; [solve_piece|]);
  apply Spans_Eps; reflexivity.

Lemma identifier_word_boundaries symbolName j :
  identifier symbolName ->
  text_at symbolName source j = true ->
  at_word_boundary source j = no_word_before source j
  /\ at_word_boundary source (j + length symbolName)
     = no_word_at source (j + length symbolName).
Proof.
  intros [Hne Hw] Ht.
  assert (Hfirst : is_word_at source j = true).
  { destruct symbolName as [|c s]; [congruence|].
    apply text_at_cons in Ht as [Hc _]. unfold is_word_at. rewrite Hc.
    by inversion Hw. }
  assert (Hlast : is_word_at source (j + length symbolName - 1) = true).
  { destruct (nth_error symbolName (length symbolName - 1)) as [c|] eqn:Hc.
    - pose proof (text_at_char _ _ _ _ _ Ht Hc) as Hc'.
      unfold is_word_at.
      replace (j + length symbolName - 1)%nat
        with (j + (length symbolName - 1))%nat
        by (destruct symbolName; simpl in *; [congruence|lia]).
      rewrite Hc'. rewrite List.Forall_forall in Hw. apply Hw.
      by apply (nth_error_In _ _ Hc).
    - apply nth_error_None in Hc. destruct symbolName; simpl in *; [congruence|lia]. }
  unfold at_word_boundary, no_word_before, no_word_at. split.
  - rewrite Hfirst. destruct j; [reflexivity|]. by destruct (is_word_at source j).
  - destruct (j + length symbolName)%nat as [|e] eqn:E.
    { destruct symbolName; simpl in *; [congruence|lia]. }
    replace (S e - 1)%nat with e in Hlast by lia. rewrite Hlast.
    by destruct (is_word_at source (S e)).
Qed.

(** Between [\b] and an identifier: what [\b] asks of the neighbours. *)
Ltac words_in Hid :=
  match goal with
  | T : text_at ?n source ?j = true |- _ =>
      destruct (identifier_word_boundaries n j Hid T) as [?B1 ?B2];
      repeat match goal with
             | H : at_word_boundary source _ = true |- _ =>
                 first [rewrite B1 in H | rewrite B2 in H]
             end
  end.

Ltac words_out Hid :=
  match goal with
  | T : text_at ?n source ?j = true |- _ =>
      destruct (identifier_word_boundaries n j Hid T) as [?B1 ?B2];
      repeat match goal with
             | H : no_word_before source _ = true |- _ => rewrite <- B1 in H
             | H : no_word_at source _ = true |- _ => rewrite <- B2 in H
             end
  end.

Lemma py_from_shape symbolName i :
  identifier symbolName ->
  (exists e, Sp (pattern (PythonAnalyzer.fromPattern symbolName)) i e)
  <-> py_from_import source symbolName i = true.
Proof.
  intros Hid.
  unfold PythonAnalyzer.fromPattern, py_from_import, kw, ws, Dot,
    spaces, module_path, on_the_line, whole_word.
  split.
  - intros [e H]. pieces H. words_in Hid.
    pose proof (text_at_bound _ _ _ P8 (proj1 Hid)).
    shape; bounds.
  - intros H. open_shape. words_out Hid. eexists. build.
Qed.

Lemma py_as_shape symbolName i :
  identifier symbolName ->
  (exists e, Sp (pattern (PythonAnalyzer.asPattern symbolName)) i e)
  <-> py_import_as source symbolName i = true.
Proof.
  intros Hid.
  unfold PythonAnalyzer.asPattern, py_import_as, kw, ws, spaces, module_path.
  split.
  - intros [e H]. pieces H. words_in Hid. shape; bounds.
  - intros H. open_shape. words_out Hid. eexists. build.
Qed.

(** [(?:[\w.]*\.)?] *)
Lemma dotted_prefix_spans a b :
  Sp (Opt (cat [Star (Chr word_or_dot); lit "."])) a b
  <-> dotted_prefix source a b = true.
Proof.
  unfold dotted_prefix, lit.
  rewrite Spans_Opt, orb_true_iff, Nat.eqb_eq. split.
  - intros [->|[Hne H]]; [by left|]. right. pieces H.
    replace (S k - 1)%nat with k by lia.
    rewrite P, P0, andb_true_r, andb_true_r. apply Nat.ltb_lt.
    apply all_in_spec in P as [->|P]; [lia|]. apply run_bound in P. lia.
  - intros [->|H]; [by left|]. open_shape. right.
    match goal with H : (a <? b)%nat = true |- _ => apply Nat.ltb_lt in H end.
    split; [lia|]. cbn [cat foldr].
    apply Spans_Seq. exists (b - 1)%nat. split; [by apply Spans_Star_Chr|].
    apply Spans_Seq. exists b. split; [|by apply Spans_Eps].
    apply Spans_Chr. split; [assumption|lia].
Qed.

(** [(?:\s|$)] *)
Lemma space_or_eol_spans a :
  (exists b, Sp (Alt ws Eol) a b)
  <-> char_is is_space source a || at_eol source true a = true.
Proof.
  unfold ws. rewrite orb_true_iff. split.
  - intros [b H]. apply Spans_Alt in H as [H|H].
    + left. by apply Spans_Chr in H as [H _].
    + right. by apply Spans_Eol in H as [_ H].
  - intros [H|H].
    + exists (S a). apply Spans_Alt. left. by apply Spans_Chr.
    + exists a. apply Spans_Alt. right. by apply Spans_Eol.
Qed.

Lemma py_module_shape symbolName i :
  identifier symbolName ->
  (exists e, Sp (pattern (PythonAnalyzer.directPattern symbolName)) i e)
  <-> py_import_module source symbolName i = true.
Proof.
  intros Hid.
  unfold PythonAnalyzer.directPattern, py_import_module, kw, ws, spaces.
  split.
  - intros [e H]. pieces H.
    match goal with
    | G : Sp (Seq (Opt _) _) _ _ |- _ =>
        apply Spans_Seq in G as (b & G1 & G);
        apply Spans_Seq in G as (b' & G2 & G);
        apply Spans_Eps in G; subst;
        apply dotted_prefix_spans in G1; apply Spans_Lit in G2 as [G2 ->]
    end.
    match goal with
    | A : Sp (Alt _ Eol) _ _ |- _ =>
        pose proof (proj1 (space_or_eol_spans _) (ex_intro _ _ A))
    end.
    pose proof (text_at_bound _ _ _ G2 (proj1 Hid)).
    shape; bounds.
  - intros H. open_shape.
    match goal with
    | A : char_is is_space source _ || at_eol source true _ = true |- _ =>
        apply space_or_eol_spans in A as [? ?]
    end.
    eexists. cbn [pattern cat foldr].
    repeat (apply Spans_Seq; eexists; split; [solve_piece|]).
    apply Spans_Seq. eexists. split.
    { apply Spans_Group.
      apply Spans_Seq. eexists. split; [apply dotted_prefix_spans; eassumption|].
      apply Spans_Seq. eexists. split; [solve_piece|].
      apply Spans_Eps. reflexivity. }
    apply Spans_Seq. eexists. split; [eassumption|]. apply Spans_Eps.
    reflexivity.
Qed.

Lemma ts_named_shape symbolName i :
  identifier symbolName ->
  (exists e, Sp (pattern (TypeScriptAnalyzer.namedPattern symbolName)) i e)
  <-> ts_import_named source symbolName i = true.
Proof.
  intros Hid.
  unfold TypeScriptAnalyzer.namedPattern, ts_import_named, ts_from_clause,
    kw, ws, lit, spaces, whole_word.
  split.
  - intros [e H]. pieces H. words_in Hid. shape; bounds.
  - intros H. open_shape. words_out Hid. eexists. build.
Qed.

Lemma ts_default_shape symbolName i :
  identifier symbolName ->
  (exists e, Sp (pattern (TypeScriptAnalyzer.defaultPattern symbolName)) i e)
  <-> ts_import_default source symbolName i = true.
Proof.
  intros Hid.
  unfold TypeScriptAnalyzer.defaultPattern, ts_import_default, ts_from_clause,
    kw, ws, lit, spaces.
  split.
  - intros [e H]. pieces H. shape; bounds.
  - intros H. open_shape. eexists. build.
Qed.

Lemma ts_namespace_shape symbolName i :
  identifier symbolName ->
  (exists e, Sp (pattern (TypeScriptAnalyzer.namespacePattern symbolName)) i e)
  <-> ts_import_namespace source symbolName i = true.
Proof.
  intros Hid.
  unfold TypeScriptAnalyzer.namespacePattern, ts_import_namespace,
    ts_from_clause, kw, ws, lit, spaces.
  split.
  - intros [e H]. pieces H. shape; bounds.
  - intros H. open_shape. eexists. build.
Qed.

(** ** Imports that rebind the name *)

Lemma all_in_pointwise p a b :
  all_in p source a b = true
  <-> (a = b \/ (a < b <= length source)%nat)
      /\ forall i, (a <= i < b)%nat -> char_is p source i = true.
Proof.
  rewrite all_in_spec, run_spec. split.
  - intros [<-|[Hb H]]; [split; [by left|intros; lia]|].
    split; [by right|exact H].
  - intros [[<-|Hb] H]; [by left|by right].
Qed.

Lemma all_in_weaken (p q : char -> bool) a b :
  (forall c, p c = true -> q c = true) ->
  all_in p source a b = true -> all_in q source a b = true.
Proof.
  intros Hpq H. apply all_in_pointwise in H as [Hb H].
  apply all_in_pointwise. split; [exact Hb|]. intros i Hi.
  specialize (H i Hi). apply char_is_spec in H as (c & Hc & Hp).
  apply char_is_spec. eauto.
Qed.

Lemma all_in_app p a b c :
  all_in p source a b = true -> all_in p source b c = true ->
  all_in p source a c = true.
Proof.
  intros H1 H2. apply all_in_pointwise in H1 as [Hb1 H1].
  apply all_in_pointwise in H2 as [Hb2 H2].
  apply all_in_pointwise. split; [lia|]. intros i Hi.
  destruct (Nat.lt_ge_cases i b); [apply H1|apply H2]; lia.
Qed.

Lemma run_all_in p a b : run p source a b = true -> all_in p source a b = true.
Proof. intros H. apply all_in_spec. by right. Qed.

Lemma text_all_in p s a :
  text_at s source a = true -> Forall (fun c => p c = true) s ->
  all_in p source a (a + length s) = true.
Proof.
  intros Ht Hs. apply all_in_pointwise. split.
  - destruct s as [|c s]; [left; simpl; lia|right].
    pose proof (text_at_bound _ _ _ Ht ltac:(discriminate)). simpl in *. lia.
  - intros i Hi. apply char_is_spec.
    destruct (nth_error s (i - a)) as [c|] eqn:Hc.
    + exists c. split.
      * replace i with (a + (i - a))%nat by lia.
        exact (text_at_char _ _ _ _ _ Ht Hc).
      * rewrite List.Forall_forall in Hs. apply Hs.
        by apply (nth_error_In _ _ Hc).
    + apply nth_error_None in Hc. lia.
Qed.

Lemma run_first p a b : run p source a b = true -> char_is p source a = true.
Proof. intros H. by apply run_step in H as [H _]. Qed.

(** [import name as alias] mentions the name. *)
Lemma py_aliased_import_mentions symbolName alias i :
  py_aliased_import source symbolName alias i = true ->
  py_import_module source symbolName i = true.
Proof.
  unfold py_aliased_import, py_import_module, spaces.
  intros H. open_shape.
  match goal with
  | R : run is_space source (_ + length symbolName) _ = true |- _ =>
      pose proof (run_first _ _ _ R) as Hspace
  end.
  match goal with
  | R : run is_space source (i + 6) ?a = true |- _ =>
      assert (dotted_prefix source a a = true) as Hprefix
        by (unfold dotted_prefix; by rewrite Nat.eqb_refl)
  end.
  assert (forall k, char_is is_space source k = true ->
            char_is is_space source k || at_eol source true k = true) as Hor
    by (by intros k ->).
  apply Hor in Hspace.
  shape; bounds.
Qed.

(** [import { name as alias }] mentions the name. *)
Lemma ts_aliased_import_mentions symbolName alias i :
  identifier alias ->
  ts_aliased_import source symbolName alias i = true ->
  ts_import_named source symbolName i = true.
Proof.
  intros [_ Hw].
  unfold ts_aliased_import, ts_import_named, spaces, whole_word.
  intros H. open_shape.
  assert (Hspace : forall c, is_space c = true -> not_char "}" c = true).
  { intros c Hc. unfold not_char. destruct (N.eqb_spec c (ch "}")) as [->|];
      [|reflexivity]. vm_compute in Hc. discriminate. }
  assert (Hword : forall c, is_word c = true -> not_char "}" c = true).
  { intros c Hc. unfold not_char. destruct (N.eqb_spec c (ch "}")) as [->|];
      [|reflexivity]. vm_compute in Hc. discriminate. }
  match goal with
  | R1 : run is_space source (?j + length symbolName) ?c = true,
    T1 : text_at (js "as") source ?c = true,
    R2 : run is_space source (?c + 2) ?d = true,
    T2 : text_at alias source ?d = true,
    A : all_in (not_char "}") source (?d + length alias) ?k = true |- _ =>
      assert (all_in (not_char "}") source (j + length symbolName) k = true)
        as Hrest;
      [ eapply all_in_app;
        [exact (all_in_weaken _ _ _ _ Hspace (run_all_in _ _ _ R1))|];
        eapply all_in_app;
        [exact (text_all_in (not_char "}") _ _ T1
                  ltac:(repeat constructor))|];
        eapply all_in_app;
        [exact (all_in_weaken _ _ _ _ Hspace (run_all_in _ _ _ R2))|];
        eapply all_in_app; [|exact A];
        apply (text_all_in (not_char "}") _ _ T2);
        eapply List.Forall_impl; [|exact Hw]; exact Hword
      | clear A ]
  end.
  shape; bounds.
Qed.

End Shapes.

(* ===================================================================== *)
(** * [getImportPath] and the import statements of the text               *)
(* ===================================================================== *)

Section ImportClaim.
Import JS Types Common Spec Cover.

Variable source : jsstring.

#[local] Abbreviation Sp := (Spans source true).

Lemma somewhere_false (f : nat -> bool) :
  somewhere source f = false
  <-> forall k, (k <= length source)%nat -> f k = false.
Proof.
  split.
  - intros H k Hk. destruct (f k) eqn:E; [|reflexivity].
    assert (somewhere source f = true) by (apply somewhere_spec; eauto).
    congruence.
  - intros H. destruct (somewhere source f) eqn:E; [|reflexivity].
    apply somewhere_spec in E as (k & Hk & E). rewrite (H k Hk) in E.
    discriminate.
Qed.

(** A pattern with the [m] flag finds nothing exactly when the statement
    it recognises starts nowhere. *)
Lemma exec_none_shape re (shape : nat -> bool) :
  multiline re = true ->
  (forall i, (exists e, Sp (pattern re) i e) <-> shape i = true) ->
  exec re source = None
  <-> forall i, (i <= length source)%nat -> shape i = false.
Proof.
  intros Hm Hs. rewrite exec_none, Hm. split.
  - intros H i Hi. destruct (shape i) eqn:E; [|reflexivity].
    apply Hs in E as [e He].
    destruct (Spans_from _ _ _ _ _ [] He) as [cb Hy].
    exfalso. exact (H i _ Hi Hy).
  - intros H i y Hi Hy.
    assert (shape i = true) as E.
    { apply Hs. exists (endIndex y). exact (Spans_intro _ _ _ _ _ Hy). }
    rewrite (H i Hi) in E. discriminate.
Qed.

Lemma py_getImportPath_none symbolName :
  identifier symbolName ->
  PythonAnalyzer.getImportPath source symbolName = None
  <-> py_import_mentions source symbolName = false.
Proof.
  intros Hid.
  destruct (first_of_three _ _ _ _ source (py_path_patterns symbolName Hid))
    as [_ HN].
  unfold PythonAnalyzer.getImportPath. rewrite HN.
  rewrite (exec_none_shape (PythonAnalyzer.fromPattern symbolName) _ eq_refl
             (fun i => py_from_shape source _ i Hid)).
  rewrite (exec_none_shape (PythonAnalyzer.asPattern symbolName) _ eq_refl
             (fun i => py_as_shape source _ i Hid)).
  rewrite (exec_none_shape (PythonAnalyzer.directPattern symbolName) _ eq_refl
             (fun i => py_module_shape source _ i Hid)).
  unfold py_import_mentions. rewrite somewhere_false. split.
  - intros (H1 & H2 & H3) k Hk. by rewrite H1, H2, H3.
  - intros H. repeat split; intros i Hi; specialize (H i Hi);
      apply orb_false_iff in H as [H H3];
      apply orb_false_iff in H as [H1 H2]; assumption.
Qed.

Lemma ts_getImportPath_none symbolName :
  identifier symbolName ->
  TypeScriptAnalyzer.getImportPath source symbolName = None
  <-> ts_import_mentions source symbolName = false.
Proof.
  intros Hid.
  destruct (first_of_three _ _ _ _ source (ts_path_patterns symbolName))
    as [_ HN].
  unfold TypeScriptAnalyzer.getImportPath. rewrite HN.
  rewrite (exec_none_shape (TypeScriptAnalyzer.namedPattern symbolName) _ eq_refl
             (fun i => ts_named_shape source _ i Hid)).
  rewrite (exec_none_shape (TypeScriptAnalyzer.defaultPattern symbolName) _ eq_refl
             (fun i => ts_default_shape source _ i Hid)).
  rewrite (exec_none_shape (TypeScriptAnalyzer.namespacePattern symbolName) _
             eq_refl (fun i => ts_namespace_shape source _ i Hid)).
  unfold ts_import_mentions. rewrite somewhere_false. split.
  - intros (H1 & H2 & H3) k Hk. by rewrite H1, H2, H3.
  - intros H. repeat split; intros i Hi; specialize (H i Hi);
      apply orb_false_iff in H as [H H3];
      apply orb_false_iff in H as [H1 H2]; assumption.
Qed.

Lemma py_module_mentions symbolName i :
  py_import_module source symbolName i = true ->
  py_import_mentions source symbolName = true.
Proof.
  intros H. unfold py_import_mentions. apply somewhere_spec. exists i.
  split; [|by rewrite H, !orb_true_r].
  unfold py_import_module in H. apply andthen_spec in H as [H _].
  apply andb_true_iff in H as [_ H].
  pose proof (text_at_bound _ _ _ H ltac:(discriminate)). lia.
Qed.

Lemma ts_named_mentions symbolName i :
  ts_import_named source symbolName i = true ->
  ts_import_mentions source symbolName = true.
Proof.
  intros H. unfold ts_import_mentions. apply somewhere_spec. exists i.
  split; [|by rewrite H].
  unfold ts_import_named in H. apply andthen_spec in H as [H _].
  apply andb_true_iff in H as [_ H].
  pose proof (text_at_bound _ _ _ H ltac:(discriminate)). lia.
Qed.


End ImportClaim.

(* ===================================================================== *)
(** * Further theorems at work on concrete documents                      *)
(* ===================================================================== *)

Section MoreWitnesses.
Import JS Types Spec Cover DefinitionProvider.

(** A TypeScript document whose only definition of [format] is its
    import: with the cursor on [format] the answer is the import line of
    the document itself, and the configured collaborator is not asked. *)
Lemma any_definition_resolves_locally_witness :
  let callback : ExternalNavigationCallback :=
    fun _ importPath _ => Normal (Some (mkResult importPath (mkRange 1 1 1 1))) in
  let self := new (mkOptions (Some callback) None) in
  let source := js "import { format } from './utils'" in
  let model := mkModel (js "typescript") source (js "file:///a.ts") in
  provideDefinition self model (mkPosition 1 11) (mkToken false false)
  = ([CallGetSymbolAtPosition source 1 11; CallFindDefinitions source],
     Normal (Some (mkLocation (js "file:///a.ts") (mkRange 1 1 1 32)))).
Proof.
  intros callback self source model.
  destruct (any_definition_resolves_locally
              self model (mkPosition 1 11) (mkToken false false)
              TypeScriptAnalyzer.analyzer (js "format")
              (mkDef (js "format") 1 1 1 32 import))
    as (d & Hin & _ & Hr).
  - reflexivity.
  - vm_compute. reflexivity.
  - discriminate.
  - reflexivity.
  - vm_compute. auto.
  - reflexivity.
  - rewrite Hr. vm_compute in Hin. destruct Hin as [<-|[]]. reflexivity.
Defined.

(** The collaborator answers, but [monaco.Uri.parse] rejects the uri it
    gave: the failure is caught by the same [try], logged, and the answer
    is [null]. *)
Example scenario_uri_parse_fails :
  let callback : ExternalNavigationCallback :=
    fun _ importPath _ => Normal (Some (mkResult importPath (mkRange 1 1 1 1))) in
  let parse : UriParse := fun _ => Throw (js "UriError") in
  let self := new (mkOptions (Some callback) None) in
  let source := js "import numpy as np" in
  let model := mkModel (js "python") source (js "file:///a.py") in
  provideDefinition_with parse self model (mkPosition 1 9) (mkToken false false)
  = ([CallGetSymbolAtPosition source 1 9; CallFindDefinitions source;
      CallGetImportPath source (js "numpy");
      CallExternalNavigation (js "numpy") (js "numpy") (js "file:///a.py");
      ConsoleError (js "UriError")],
     Normal None).
Proof. vm_compute. reflexivity. Qed.

(** [import numpy as np] with the cursor on [numpy] and no collaborator
    configured: nothing is called [numpy], the answer is [null]. *)
Lemma without_collaborator_only_local_witness :
  let self := new (mkOptions None None) in
  let model := mkModel (js "python") (js "import numpy as np") (js "file:///a.py") in
  existsb external_call
          (fst (provideDefinition self model (mkPosition 1 9) (mkToken false false)))
  = false
  /\ snd (provideDefinition self model (mkPosition 1 9) (mkToken false false))
     = Normal None.
Proof.
  intros self model.
  destruct (without_collaborator_only_local
              self model (mkPosition 1 9) (mkToken false false))
    as [H _].
  - reflexivity.
  - split; [exact H|vm_compute; reflexivity].
Defined.

(** The paths of [from os import path] and of a named TypeScript import. *)
Lemma import_path_is_a_path_witness :
  (PythonAnalyzer.getImportPath (js "from os import path") (js "path")
   = Some (js "os")
   /\ Forall (fun c => Common.word_or_dot c = true) (js "os"))
  /\ (TypeScriptAnalyzer.getImportPath (js "import { format } from './utils'")
                                       (js "format")
      = Some (js "./utils")
      /\ Forall (fun c => Common.quote c = false) (js "./utils")).
Proof.
  assert (Hp : identifier (js "path")).
  { split; [discriminate|]. repeat constructor. }
  assert (Hf : identifier (js "format")).
  { split; [discriminate|]. repeat constructor. }
  split.
  - assert (E : PythonAnalyzer.getImportPath (js "from os import path") (js "path")
                = Some (js "os")) by (vm_compute; reflexivity).
    split; [exact E|].
    exact (proj2 (proj1 (import_path_is_a_path _ _ Hp) _ E)).
  - assert (E : TypeScriptAnalyzer.getImportPath
                  (js "import { format } from './utils'") (js "format")
                = Some (js "./utils")) by (vm_compute; reflexivity).
    split; [exact E|].
    exact (proj2 (proj1 (proj2 (proj2 (import_path_is_a_path _ _ Hf))) _ E)).
Defined.


End MoreWitnesses.
